(** * PX4 firmware release catalogue: manifest generator and index updater

    A shallow embedding of [Tools/manifest/update_firmware_index.py] and
    [Tools/manifest/gen_release_manifest.py], and the properties of the
    release catalogue proved about it.

    Conventions of the embedding.
    - A Python [str] is a [string]; its characters are the code points
      below 256.  On these, [\d] is [0-9] and [str.lower] maps [A-Z] and the
      Latin-1 capitals to their small letters.
    - A JSON document is a [json] value; a Python [dict] with string keys is
      a [gmap string json].  JSON numbers are integers (ids, sizes, counts,
      epoch seconds).
    - Code that can raise returns a [result]; the exception is the one
      Python raises.  [int] refuses a run of more than 4300 digits, the
      interpreter's limit when nothing changes it.
    - [time.time()] and [time.strftime("%Y-%m-%d")] are read from an explicit
      [clock]. *)

From stdpp Require Import gmap strings list fin_maps sorting.
From Stdlib Require Import ZArith Ascii String.

Set Warnings "-register-all".
Open Scope string_scope.
Open Scope Z_scope.
Open Scope list_scope.

(** ** Exceptions and the error monad *)

Inductive exn : Type := KeyError | AttributeError | TypeError | ValueError.

Inductive result (A : Type) : Type :=
| Ok (a : A)
| Raise (e : exn).
Arguments Ok {A} a.
Arguments Raise {A} e.

#[global] Instance result_ret : MRet result := λ A a, Ok a.
#[global] Instance result_bind : MBind result := λ A B f m,
  match m with Ok a => f a | Raise e => Raise e end.

#[global] Instance exn_eq_dec : EqDecision exn.
Proof. solve_decision. Defined.

#[global] Instance result_eq_dec {A} `{EqDecision A} : EqDecision (result A).
Proof. solve_decision. Defined.

Definition is_ok {A} (m : result A) : bool :=
  match m with Ok _ => true | Raise _ => false end.

(** [[x for x in l if p x]] where the condition can raise. *)
Fixpoint filter_r {A} (p : A → result bool) (l : list A) : result (list A) :=
  match l with
  | [] => Ok []
  | x :: l' =>
      b ← p x;
      r ← filter_r p l';
      mret (if b : bool then x :: r else r)
  end.

(** [[f x for x in l]] where [f] can raise. *)
Fixpoint map_r {A B} (f : A → result B) (l : list A) : result (list B) :=
  match l with
  | [] => Ok []
  | x :: l' => y ← f x; r ← map_r f l'; mret (y :: r)
  end.

(** ** Strings *)

Module Str.

Definition code (c : ascii) : N := N_of_ascii c.

(** [\d] *)
Definition is_digit (c : ascii) : bool :=
  (48 <=? code c)%N && (code c <=? 57)%N.

(** [[a-zA-Z]] *)
Definition is_alpha (c : ascii) : bool :=
  ((97 <=? code c)%N && (code c <=? 122)%N)
  || ((65 <=? code c)%N && (code c <=? 90)%N).

(** [str.lower] on one character. *)
Definition lower_char (c : ascii) : ascii :=
  let n := code c in
  if ((65 <=? n)%N && (n <=? 90)%N)
     || ((192 <=? n)%N && (n <=? 222)%N && negb (n =? 215)%N)
  then ascii_of_N (n + 32) else c.

Fixpoint lower (s : string) : string :=
  match s with
  | EmptyString => EmptyString
  | String c s' => String (lower_char c) (lower s')
  end.

(** [s.lstrip(c)]: every leading [c] is removed. *)
Fixpoint lstrip (c : ascii) (s : string) : string :=
  match s with
  | String c' s' => if Ascii.eqb c' c then lstrip c s' else s
  | EmptyString => EmptyString
  end.

(** [s.rstrip(c)]: every trailing [c] is removed.  A character is dropped
    when it is [c] and nothing is left of what follows it. *)
Fixpoint rstrip (c : ascii) (s : string) : string :=
  match s with
  | String c' s' =>
      match rstrip c s' with
      | EmptyString => if Ascii.eqb c' c then EmptyString else String c' EmptyString
      | r => String c' r
      end
  | EmptyString => EmptyString
  end.

(** [sub in s] *)
Fixpoint contains (sub s : string) : bool :=
  String.prefix sub s
  || match s with
     | String _ s' => contains sub s'
     | EmptyString => false
     end.

Fixpoint take_while (p : ascii → bool) (s : string) : string :=
  match s with
  | String c s' => if p c then String c (take_while p s') else EmptyString
  | EmptyString => EmptyString
  end.

Fixpoint drop_while (p : ascii → bool) (s : string) : string :=
  match s with
  | String c s' => if p c then drop_while p s' else s
  | EmptyString => EmptyString
  end.

Fixpoint all (p : ascii → bool) (s : string) : bool :=
  match s with
  | String c s' => p c && all p s'
  | EmptyString => true
  end.

Definition nonempty (s : string) : bool :=
  match s with EmptyString => false | _ => true end.

(** The rest of [s] after its first character, when that is [c]. *)
Definition expect (c : ascii) (s : string) : option string :=
  match s with
  | String c' s' => if Ascii.eqb c' c then Some s' else None
  | EmptyString => None
  end.

(** [int(s)] on a string of decimal digits, most significant first. *)
Fixpoint digits_value (acc : Z) (s : string) : Z :=
  match s with
  | EmptyString => acc
  | String c s' => digits_value (10 * acc + (Z.of_N (code c) - 48)) s'
  end.

(** [sys.get_int_max_str_digits()]: the most digits [int] converts, as the
    interpreter sets it when neither tool nor its caller changes it. *)
Definition int_max_str_digits : Z := 4300.

(** [int(x)] for [x] a capture of the match object: [None] is a
    [TypeError]; a string that is not a run of digits is a [ValueError]
    (the program only ever passes captures of [\d+]), and so is a run of
    more digits than [int_max_str_digits], leading zeros counted.
    Integers are unbounded. *)
Definition py_int (x : option string) : result Z :=
  match x with
  | None => Raise TypeError
  | Some s =>
      if nonempty s && all is_digit s then
        if int_max_str_digits <? Z.of_nat (String.length s) then Raise ValueError
        else Ok (digits_value 0 s)
      else Raise ValueError
  end.

End Str.

(** ** Regular expressions

    The fragment of Python's [re] the two tools use, matched by
    backtracking in the order [re] tries the alternatives: a greedy [+] and
    a greedy [?] first take as much as they can. *)

Module Re.

Inductive regex : Type :=
| Chr (c : ascii)                  (* one literal character *)
| Set_ (p : ascii → bool)          (* a character class *)
| Seq (r1 r2 : regex)              (* r1 r2 *)
| Opt (r : regex)                  (* r? *)
| Plus (p : ascii → bool)          (* c+ for a character class c *)
| Group (n : nat) (r : regex)      (* the n-th capturing group *)
| Bol                              (* ^ *)
| Eol.                             (* $ *)

Declare Scope re_scope.
Delimit Scope re_scope with re.
Bind Scope re_scope with regex.
Infix "⋅" := Seq (at level 41, right associativity) : re_scope.

(** The captures of a match: [match.group(n)] is [caps !! n]. *)
Abbreviation captures := (gmap nat string).

(** A continuation receives the position reached, the rest of the
    subject and the captures so far. *)
Definition cont : Type := nat → string → captures → option captures.

(** Zero or more characters of class [p], longest first. *)
Fixpoint star (p : ascii → bool) (i : nat) (s : string)
    (caps : captures) (k : cont) : option captures :=
  match s with
  | String c s' =>
      if p c then
        match star p (S i) s' caps k with
        | Some m => Some m
        | None => k i s caps
        end
      else k i s caps
  | EmptyString => k i s caps
  end.

Definition newline : ascii := ascii_of_N 10.

(** [$] without [re.MULTILINE]: at the end of the subject, or just before
    a newline that is its last character. *)
Definition at_eol (s : string) : bool :=
  match s with
  | EmptyString => true
  | String c EmptyString => Ascii.eqb c newline
  | _ => false
  end.

Fixpoint run (r : regex) (i : nat) (s : string)
    (caps : captures) (k : cont) : option captures :=
  match r with
  | Chr c =>
      match s with
      | String c' s' => if Ascii.eqb c' c then k (S i) s' caps else None
      | EmptyString => None
      end
  | Set_ p =>
      match s with
      | String c' s' => if p c' then k (S i) s' caps else None
      | EmptyString => None
      end
  | Seq r1 r2 => run r1 i s caps (λ i' s' caps', run r2 i' s' caps' k)
  | Opt r' =>
      match run r' i s caps k with
      | Some m => Some m
      | None => k i s caps
      end
  | Plus p =>
      match s with
      | String c' s' => if p c' then star p (S i) s' caps k else None
      | EmptyString => None
      end
  | Group n r' =>
      run r' i s caps
        (λ i' s' caps', k i' s' (<[n := String.substring 0 (i' - i) s]> caps'))
  | Bol => if (i =? 0)%nat then k i s caps else None
  | Eol => if at_eol s then k i s caps else None
  end.

(** [re.match(r, s)]: the pattern must match at the start of [s]; it need
    not reach its end. *)
Definition re_match (r : regex) (s : string) : option captures :=
  run r 0 s ∅ (λ _ _ caps, Some caps).

End Re.

(** ** The index updater: channels and version tuples *)

Import Re.

(** [^v?\d+\.\d+\.\d+$] *)
Definition stable_re : regex :=
  (Bol ⋅ Opt (Chr "v") ⋅ Plus Str.is_digit ⋅ Chr "." ⋅ Plus Str.is_digit
   ⋅ Chr "." ⋅ Plus Str.is_digit ⋅ Eol)%re.

Definition determine_channel (version : string) : string :=
  let version_lower := Str.lower version in
  if Re.re_match stable_re version is Some _ then "stable"
  else if Str.contains "-beta" version_lower || Str.contains "-rc" version_lower
       then "beta"
  else "dev".

(** [(\d+)\.(\d+)\.(\d+)(?:-([a-zA-Z]+)(\d+)?)?] *)
Definition version_re : regex :=
  (Group 1 (Plus Str.is_digit) ⋅ Chr "." ⋅ Group 2 (Plus Str.is_digit) ⋅ Chr "."
   ⋅ Group 3 (Plus Str.is_digit)
   ⋅ Opt (Chr "-" ⋅ Group 4 (Plus Str.is_alpha) ⋅ Opt (Group 5 (Plus Str.is_digit))))%re.

(** (major, minor, patch, prerelease_type, prerelease_num) *)
Definition vtuple : Type := Z * Z * Z * string * Z.

Definition sentinel : vtuple := (0, 0, 0, "zzz", 0).

Definition parse_version_tuple (version : string) : result vtuple :=
  let v := Str.lstrip "v" version in
  match Re.re_match version_re v with
  | None => Ok sentinel
  | Some m =>
      major ← Str.py_int (m !! 1%nat);
      minor ← Str.py_int (m !! 2%nat);
      patch ← Str.py_int (m !! 3%nat);
      let prerelease_type := default "" (m !! 4%nat) in
      prerelease_num ←
        match m !! 5%nat with
        | Some n => if Str.nonempty n then Str.py_int (Some n) else Ok 0
        | None => Ok 0
        end;
      let prerelease_type :=
        if Str.nonempty prerelease_type then prerelease_type else "zzz" in
      mret (major, minor, patch, Str.lower prerelease_type, prerelease_num)
  end.

(** The order Python gives tuples: component by component, integers by
    value and strings by code point. *)
Definition tuple_compare (a b : vtuple) : comparison :=
  let '(a1, a2, a3, a4, a5) := a in
  let '(b1, b2, b3, b4, b5) := b in
  match Z.compare a1 b1 with
  | Eq =>
      match Z.compare a2 b2 with
      | Eq =>
          match Z.compare a3 b3 with
          | Eq =>
              match String.compare a4 b4 with
              | Eq => Z.compare a5 b5
              | c => c
              end
          | c => c
          end
      | c => c
      end
  | c => c
  end.

(** [a < b] on tuples. *)
Definition tuple_ltb (a b : vtuple) : bool :=
  if tuple_compare a b is Lt then true else false.

(** ** [list.sort(key=..., reverse=True)]

    The keys are computed first, one per element; the elements are then
    ordered by decreasing key, elements with equal keys staying in the order
    they had.  Any stable sort returns this list; it is built here by
    insertion from the right. *)

Section StableSort.
Context {K A : Type} (ltb : K → K → bool).

Fixpoint insert_desc (x : K * A) (l : list (K * A)) : list (K * A) :=
  match l with
  | [] => [x]
  | y :: l' =>
      if ltb x.1 y.1 then y :: insert_desc x l' else x :: y :: l'
  end.

Definition sort_desc (l : list (K * A)) : list (K * A) :=
  foldr insert_desc [] l.

Definition sort_reverse (key : A → result K) (l : list A) : result (list A) :=
  keys ← map_r key l;
  mret (sort_desc (zip keys l)).*2.
End StableSort.

(** ** JSON documents *)

Inductive json : Type :=
| JNull
| JBool (b : bool)
| JNum (z : Z)
| JStr (s : string)
| JArr (l : list json)
| JObj (m : gmap string json).

Abbreviation dict := (gmap string json).

(** [d[k]] on a dict. *)
Definition getitem (d : dict) (k : string) : result json :=
  match d !! k with
  | Some v => Ok v
  | None => Raise KeyError
  end.

(** [r.get(k)] on a value read from a document: only a dict has [get]. *)
Definition py_get (r : json) (k : string) : result (option json) :=
  match r with
  | JObj m => Ok (m !! k)
  | _ => Raise AttributeError
  end.

(** [r[k]] for a string [k]. *)
Definition py_subscript (r : json) (k : string) : result json :=
  match r with
  | JObj m => getitem m k
  | _ => Raise TypeError
  end.

Definition chars (s : string) : list json :=
  (λ c, JStr (String c EmptyString)) <$> list_ascii_of_string s.

(** [for r in x]: a list gives its elements, a string its characters, a
    dict its keys; nothing else can be iterated. *)
Definition py_iter (x : json) : result (list json) :=
  match x with
  | JArr l => Ok l
  | JStr s => Ok (chars s)
  | JObj m => Ok (JStr <$> (map_to_list m).*1)
  | _ => Raise TypeError
  end.

(** [x.append] and [x.sort] exist on lists only. *)
Definition py_list (x : json) : result (list json) :=
  match x with
  | JArr l => Ok l
  | _ => Raise AttributeError
  end.

(** [x == s] for a string [s]. *)
Definition eq_str (x : option json) (s : string) : bool :=
  match x with
  | Some (JStr s') => String.eqb s' s
  | _ => false
  end.

(** [bool(x)] *)
Definition truthy (x : json) : bool :=
  match x with
  | JNull => false
  | JBool b => b
  | JNum z => negb (z =? 0)
  | JStr s => Str.nonempty s
  | JArr l => match l with [] => false | _ => true end
  | JObj m => negb (bool_decide (m = ∅))
  end.

(** ** The index updater: upsert *)

Record clock : Type := {
  time_now : Z;          (* int(time.time()) *)
  time_ymd : string;     (* time.strftime("%Y-%m-%d") *)
}.

Definition create_empty_index (clk : clock) : dict :=
  <["format_version" := JNum 1]>
  (<["updated_at" := JNum (time_now clk)]>
  (<["description" := JStr "PX4 Firmware Release Index"]>
  (<["releases" := JArr []]> ∅))).

(** The sort key of a release: [parse_version_tuple(r.get("version", ""))]. *)
Definition release_key (r : json) : result vtuple :=
  v ← py_get r "version";
  match default (JStr "") v with
  | JStr s => parse_version_tuple s
  | _ => Raise AttributeError           (* no [lstrip] on a non-string *)
  end.

(** [[r for r in index["releases"] if r.get(field) <cond>]] *)
Definition select_releases (index : dict) (cond : option json → bool)
    (field : string) : result (list json) :=
  rel ← getitem index "releases";
  items ← py_iter rel;
  filter_r (λ r, x ← py_get r field; mret (cond x)) items.

(** The body of [for ch in ["stable", "beta", "dev"]]. *)
Definition set_latest (ch : string) (index : dict) : result dict :=
  channel_releases ← select_releases index (λ x, eq_str x ch) "channel";
  match channel_releases with
  | r :: _ =>
      v ← py_subscript r "version";
      mret (<["latest_" +:+ ch := v]> index)
  | [] => mret index
  end.

Definition new_entry (clk : clock) (version git_tag : string) (build_count : Z)
    (manifest_url s3_url : string) : dict :=
  let channel := determine_channel version in
  let release_date := time_ymd clk in
  let e : dict :=
    <["version" := JStr version]>
    (<["git_tag" := JStr git_tag]>
    (<["release_date" := JStr release_date]>
    (<["channel" := JStr channel]>
    (<["build_count" := JNum build_count]>
    (<["manifest_url" := JStr manifest_url]> ∅))))) in
  if Str.nonempty s3_url then <["s3_manifest_url" := JStr s3_url]> e else e.

Definition update_index (clk : clock) (index : dict) (version git_tag : string)
    (build_count : Z) (manifest_url s3_url : string) : result dict :=
  let new_entry := new_entry clk version git_tag build_count manifest_url s3_url in
  (* Remove existing entry for this version if present *)
  kept ← select_releases index (λ x, negb (eq_str x version)) "version";
  let index := <["releases" := JArr kept]> index in
  (* Add new entry *)
  rel ← getitem index "releases";
  items ← py_list rel;
  let index := <["releases" := JArr (items ++ [JObj new_entry])]> index in
  (* Sort releases by version (newest first) *)
  rel ← getitem index "releases";
  items ← py_list rel;
  sorted ← sort_reverse tuple_ltb release_key items;
  let index := <["releases" := JArr sorted]> index in
  (* Update metadata *)
  let index := <["updated_at" := JNum (time_now clk)]> index in
  (* Set latest stable version *)
  index ← set_latest "stable" index;
  (* Set latest for each channel *)
  index ← set_latest "stable" index;
  index ← set_latest "beta" index;
  index ← set_latest "dev" index;
  mret index.

(** ** The manifest generator *)

(** A [.px4] file of the artifact directory: its name, and the document
    [json.load] reads from it ([None] when the file cannot be read or is not
    JSON). *)
Record px4_file : Type := {
  file_name : string;
  file_json : option json;
}.

Definition has_key (d : dict) (k : string) : bool :=
  if d !! k is Some _ then true else false.

(** [extract_px4_metadata]: [None] for a file that is skipped.  A document
    that is not an object is skipped as well: it fails the membership
    tests, or they or its [data.get] raise, and every exception is caught. *)
Definition extract_px4_metadata (f : px4_file) : option dict :=
  match file_json f with
  | Some (JObj data) =>
      if negb (has_key data "magic") || negb (has_key data "board_id")
         || negb (has_key data "image")
      then None
      else
        let metadata : dict :=
          <["filename" := JStr (file_name f)]>
          (<["board_id" := default (JNum 0) (data !! "board_id")]>
          (<["board_revision" := default (JNum 0) (data !! "board_revision")]>
          (<["version" := default (JStr "") (data !! "version")]>
          (<["git_identity" := default (JStr "") (data !! "git_identity")]>
          (<["git_hash" := default (JStr "") (data !! "git_hash")]>
          (<["build_time" := default (JNum 0) (data !! "build_time")]>
          (<["image_size" := default (JNum 0) (data !! "image_size")]>
          (<["sha256sum" := default (JStr "") (data !! "sha256sum")]>
          (<["mav_autopilot" := default (JNum 12) (data !! "mav_autopilot")]>
           ∅))))))))) in
        match data !! "manifest" with
        | Some m => Some (if truthy m then <["manifest" := m]> metadata else metadata)
        | None => Some metadata
        end
  | _ => None
  end.

(** [a + b] where [a] is a string. *)
Definition str_add (a : string) (b : json) : result string :=
  match b with
  | JStr s => Ok (a +:+ s)
  | _ => Raise TypeError
  end.

(** The body of [if metadata:] in the loop over the files. *)
Definition with_url (base_url : string) (metadata : dict) : result dict :=
  if Str.nonempty base_url then
    fn ← getitem metadata "filename";
    url ← str_add (Str.rstrip "/" base_url +:+ "/") fn;
    mret (<["url" := JStr url]> metadata)
  else mret metadata.

Fixpoint collect_builds (base_url : string) (px4_files : list px4_file)
    (builds : list dict) : result (list dict) :=
  match px4_files with
  | [] => Ok builds
  | px4_path :: rest =>
      match extract_px4_metadata px4_path with
      | Some metadata =>
          metadata ← with_url base_url metadata;
          collect_builds base_url rest (builds ++ [metadata])
      | None => collect_builds base_url rest builds
      end
  end.

(** [b.get("manifest", {}).get("target", b["filename"])] *)
Definition build_key (b : dict) : result json :=
  match default (JObj ∅) (b !! "manifest") with
  | JObj m =>
      fn ← getitem b "filename";
      mret (default fn (m !! "target"))
  | _ => Raise AttributeError
  end.

Definition num_value (x : json) : option Z :=
  match x with
  | JNum z => Some z
  | JBool b => Some (if b then 1 else 0)
  | _ => None
  end.

(** [a == b] on values read from JSON documents: numbers and booleans by
    value ([True == 1]), strings and [None] by content, lists element by
    element, dicts key by key. *)
Fixpoint py_eq (a b : json) {struct a} : bool :=
  match a, b with
  | JNull, JNull => true
  | JStr x, JStr y => String.eqb x y
  | JArr l, JArr l' =>
      (fix go (l l' : list json) {struct l} : bool :=
         match l, l' with
         | [], [] => true
         | x :: l, y :: l' => py_eq x y && go l l'
         | _, _ => false
         end) l l'
  | JObj m, JObj m' =>
      bool_decide (size m = size m')
      && map_fold (λ k v acc,
                     acc && match m' !! k with
                            | Some w => py_eq v w
                            | None => false
                            end) true m
  | _, _ =>
      match num_value a, num_value b with
      | Some x, Some y => x =? y
      | _, _ => false
      end
  end.

(** [a < b] on sort keys: strings by code point, numbers by value, lists by
    the first pair of elements that are not equal (a list that is a proper
    beginning of the other comes first), and a [TypeError] between values
    of different kinds and on [None] and dicts. *)
Fixpoint py_lt (a b : json) {struct a} : result bool :=
  match a, b with
  | JStr x, JStr y => Ok (String.ltb x y)
  | JArr l, JArr l' =>
      (fix go (l l' : list json) {struct l} : result bool :=
         match l, l' with
         | [], [] => Ok false
         | [], _ :: _ => Ok true
         | _ :: _, [] => Ok false
         | x :: l, y :: l' => if py_eq x y then go l l' else py_lt x y
         end) l l'
  | _, _ =>
      match num_value a, num_value b with
      | Some x, Some y => Ok (x <? y)
      | _, _ => Raise TypeError
      end
  end.

(** [list.sort(key=...)]: increasing keys, equal keys in their first
    order; a comparison that raises ends the sort. *)
Section SortAsc.
Context {K A : Type} (lt : K → K → result bool).

Fixpoint insert_asc (x : K * A) (l : list (K * A)) : result (list (K * A)) :=
  match l with
  | [] => Ok [x]
  | y :: l' =>
      b ← lt y.1 x.1;
      if b : bool then r ← insert_asc x l'; mret (y :: r)
      else mret (x :: y :: l')
  end.

Fixpoint sort_asc (l : list (K * A)) : result (list (K * A)) :=
  match l with
  | [] => Ok []
  | x :: l' => r ← sort_asc l'; insert_asc x r
  end.

Definition sort_by (key : A → result K) (l : list A) : result (list A) :=
  keys ← map_r key l;
  r ← sort_asc (zip keys l);
  mret r.*2.
End SortAsc.

(** [px4_files] is [sorted(px4_dir.glob("*.px4"))]. *)
Definition generate_release_manifest (clk : clock) (px4_files : list px4_file)
    (version git_tag base_url : string) : result dict :=
  builds ← collect_builds base_url px4_files [];
  (* Sort builds by target name for consistent ordering *)
  builds ← sort_by py_lt build_key builds;
  let builds : list dict := builds in
  let manifest : dict :=
    <["format_version" := JNum 1]>
    (<["generated_at" := JNum (time_now clk)]>
    (<["version" := JStr version]>
    (<["git_tag" := JStr git_tag]>
    (<["build_count" := JNum (Z.of_nat (List.length builds))]>
    (<["builds" := JArr (JObj <$> builds)]> ∅))))) in
  mret manifest.

(** ** Reading the patterns and the data model

    What the statements below are phrased with: the two patterns read as
    shapes of strings, and the release index as the data model has it. *)

(** A non-empty run of decimal digits. *)
Definition digits (d : string) : Prop :=
  Str.nonempty d = true ∧ Str.all Str.is_digit d = true.

(** A non-empty run of ASCII letters. *)
Definition letters (t : string) : Prop :=
  Str.nonempty t = true ∧ Str.all Str.is_alpha t = true.

Definition starts_with (p : ascii → bool) (s : string) : bool :=
  match s with
  | String c _ => p c
  | EmptyString => false
  end.

(** [v?\d+\.\d+\.\d+] and then the end of the string, or one newline
    and the end of the string. *)
Definition stable_shape (s : string) : Prop :=
  ∃ v d1 d2 d3 nl,
    (v = "" ∨ v = "v") ∧ digits d1 ∧ digits d2 ∧ digits d3
    ∧ (nl = "" ∨ nl = String newline "")
    ∧ s = v +:+ d1 +:+ "." +:+ d2 +:+ "." +:+ d3 +:+ nl.

(** [sub] occurs in [s] when case is ignored. *)
Definition contains_nocase (sub s : string) : Prop :=
  ∃ pre mid post, s = pre +:+ mid +:+ post ∧ Str.lower mid = sub.

(** [s] begins with [MAJOR.MINOR.PATCH]. *)
Definition version_prefix (s : string) : Prop :=
  ∃ d1 d2 d3 rest,
    digits d1 ∧ digits d2 ∧ digits d3
    ∧ s = d1 +:+ "." +:+ d2 +:+ "." +:+ d3 +:+ rest.

(** The version grammar as the specification words it: an optional leading
    [v], then [MAJOR.MINOR.PATCH], optionally followed by [-TAG] with an
    optional integer suffix, and nothing else. *)
Definition version_grammar (s : string) : bool :=
  let s := default s (Str.expect "v" s) in
  Str.nonempty (Str.take_while Str.is_digit s)
  && match Str.expect "." (Str.drop_while Str.is_digit s) with
     | Some s =>
         Str.nonempty (Str.take_while Str.is_digit s)
         && match Str.expect "." (Str.drop_while Str.is_digit s) with
            | Some s =>
                Str.nonempty (Str.take_while Str.is_digit s)
                && let rest := Str.drop_while Str.is_digit s in
                   match Str.expect "-" rest with
                   | Some s =>
                       Str.nonempty (Str.take_while Str.is_alpha s)
                       && negb (Str.nonempty
                            (Str.drop_while Str.is_digit
                               (Str.drop_while Str.is_alpha s)))
                   | None => negb (Str.nonempty rest)
                   end
            | None => false
            end
     | None => false
     end.

(** [a <= b] on tuples. *)
Definition tuple_le (a b : vtuple) : Prop := tuple_ltb b a = false.

(** The strings of a list in the order [sort(key=parse_version_tuple,
    reverse=True)] leaves them. *)
Definition sort_versions (l : list string) : result (list string) :=
  sort_reverse tuple_ltb parse_version_tuple l.

(** ** Deterministic readings of the two patterns

    Each pattern is matched by one left-to-right pass that takes the longest
    run of its class at every [+]; the matcher above is shown to agree with
    these passes. *)

(** A continuation that fails on every subject starting in class [p]. *)
Definition rejects (p : ascii → bool) (k : cont) : Prop :=
  ∀ i c s caps, p c = true → k i (String c s) caps = None.

(** A continuation that never fails. *)
Definition accepts (k : cont) : Prop :=
  ∀ i s caps, is_Some (k i s caps).

Definition stable_form (s : string) : bool :=
  let s := default s (Str.expect "v" s) in
  Str.nonempty (Str.take_while Str.is_digit s)
  && match Str.expect "." (Str.drop_while Str.is_digit s) with
     | Some s =>
         Str.nonempty (Str.take_while Str.is_digit s)
         && match Str.expect "." (Str.drop_while Str.is_digit s) with
            | Some s =>
                Str.nonempty (Str.take_while Str.is_digit s)
                && at_eol (Str.drop_while Str.is_digit s)
            | None => false
            end
     | None => false
     end.

(** The captures of the optional [-TAG[NUM]] part. *)
Definition scan_prerelease (s : string) (caps : captures) : captures :=
  match Str.expect "-" s with
  | Some s =>
      let tag := Str.take_while Str.is_alpha s in
      if Str.nonempty tag then
        let num := Str.take_while Str.is_digit (Str.drop_while Str.is_alpha s) in
        if Str.nonempty num then <[5%nat := num]> (<[4%nat := tag]> caps)
        else <[4%nat := tag]> caps
      else caps
  | None => caps
  end.

Definition scan_version (v : string) : option captures :=
  let d1 := Str.take_while Str.is_digit v in
  if Str.nonempty d1 then
    match Str.expect "." (Str.drop_while Str.is_digit v) with
    | Some s =>
        let d2 := Str.take_while Str.is_digit s in
        if Str.nonempty d2 then
          match Str.expect "." (Str.drop_while Str.is_digit s) with
          | Some s =>
              let d3 := Str.take_while Str.is_digit s in
              if Str.nonempty d3 then
                Some (scan_prerelease (Str.drop_while Str.is_digit s)
                        (<[3%nat := d3]> (<[2%nat := d2]> (<[1%nat := d1]> ∅))))
              else None
          | None => None
          end
        else None
    | None => None
    end
  else None.

(** A run of digits [int] converts: it is not longer than the limit. *)
Definition within_limit (d : string) : bool :=
  Z.of_nat (String.length d) <=? Str.int_max_str_digits.

(** The four numbers of a match can be converted. *)
Definition convertible (m : captures) : bool :=
  within_limit (default "" (m !! 1%nat)) && within_limit (default "" (m !! 2%nat))
  && within_limit (default "" (m !! 3%nat)) && within_limit (default "" (m !! 5%nat)).

(** [rest] begins with [-] and a letter: the pattern reads a tag there. *)
Definition has_tag (rest : string) : bool :=
  match Str.expect "-" rest with
  | Some r => starts_with Str.is_alpha r
  | None => false
  end.

(** The tuple [parse_version_tuple] builds from the captures of a match. *)
Definition tuple_of (m : captures) : vtuple :=
  let tag := default "" (m !! 4%nat) in
  (Str.digits_value 0 (default "" (m !! 1%nat)),
   Str.digits_value 0 (default "" (m !! 2%nat)),
   Str.digits_value 0 (default "" (m !! 3%nat)),
   Str.lower (if Str.nonempty tag then tag else "zzz"),
   match m !! 5%nat with
   | Some n => if Str.nonempty n then Str.digits_value 0 n else 0
   | None => 0
   end).

(** ** The release index as the data model has it *)

(** [r.get(k)] on a release that is an object. *)
Definition field (k : string) (r : json) : option json :=
  match r with
  | JObj m => m !! k
  | _ => None
  end.

Definition is_dict (r : json) : bool :=
  match r with JObj _ => true | _ => false end.

(** A release entry: an object whose [version] is a string. *)
Definition wf_release (r : json) : Prop :=
  ∃ m v, r = JObj m ∧ m !! "version" = Some (JStr v).

(** An index: its [releases] is a list of release entries.  Nothing is
    asked of its other fields. *)
Definition wf_index (index : dict) : Prop :=
  ∃ l, index !! "releases" = Some (JArr l) ∧ Forall wf_release l.

(** A version string short enough for every number in it to be converted. *)
Definition short (v : string) : Prop :=
  Z.of_nat (String.length v) ≤ Str.int_max_str_digits.

(** The version strings of the releases are short. *)
Definition short_versions (l : list json) : Prop :=
  Forall (λ r, ∀ v, field "version" r = Some (JStr v) → short v) l.

(** The releases of an index, when it has a list of them. *)
Definition releases_of (index : dict) : list json :=
  match index !! "releases" with
  | Some (JArr l) => l
  | _ => []
  end.

(** The entry is one for [version]. *)
Definition has_version (version : string) (r : json) : bool :=
  eq_str (field "version" r) version.

Definition in_channel (ch : string) (r : json) : bool :=
  eq_str (field "channel" r) ch.

(** How many entries of [l] are for [version]. *)
Definition count_version (version : string) (l : list json) : nat :=
  List.length (List.filter (has_version version) l).

(** At most one entry per distinct version string. *)
Definition unique_versions (l : list json) : Prop :=
  ∀ version, (count_version version l ≤ 1)%nat.

(** The first release of a channel in the order of the list. *)
Definition first_in (ch : string) (l : list json) : option json :=
  head (List.filter (in_channel ch) l).

(** The sort key of a release whose key can be computed. *)
Definition key_of (r : json) : vtuple :=
  match release_key r with
  | Ok k => k
  | Raise _ => sentinel
  end.

(** The write of [latest_<ch>], once the releases are [sorted]. *)
Definition put_latest (ch : string) (sorted : list json) (index : dict) : dict :=
  match first_in ch sorted with
  | Some r =>
      match field "version" r with
      | Some v => <["latest_" +:+ ch := v]> index
      | None => index
      end
  | None => index
  end.

(** The first release of the channel, if any, has a [version]. *)
Definition latest_ok (ch : string) (sorted : list json) : Prop :=
  match first_in ch sorted with
  | Some r => is_Some (field "version" r)
  | None => True
  end.

Definition channels : list string := ["stable"; "beta"; "dev"].

(** ** Orders and sorted lists *)

(** The laws of a three-way comparison that decides a total order. *)
Class CmpLaws {K : Type} (cmp : K → K → comparison) : Prop := {
  cmp_eq a b : cmp a b = Eq → a = b;
  cmp_antisym a b : cmp a b = CompOpp (cmp b a);
  cmp_trans a b c : cmp a b = Lt → cmp b c = Lt → cmp a c = Lt;
}.

(** First by [c1], then by [c2]. *)
Definition lex_cmp {K1 K2 : Type} (c1 : K1 → K1 → comparison)
    (c2 : K2 → K2 → comparison) (a b : K1 * K2) : comparison :=
  match c1 a.1 b.1 with
  | Eq => c2 a.2 b.2
  | c => c
  end.

Definition cmp_ltb {K : Type} (cmp : K → K → comparison) (a b : K) : bool :=
  if cmp a b is Lt then true else false.

(** Keys never increase along the list. *)
Definition descending {K A : Type} (ltb : K → K → bool) (l : list (K * A)) : Prop :=
  StronglySorted (λ x y, ltb x.1 y.1 = false) l.

(** The elements whose key is [k], for a total order. *)
Definition same_key {K A : Type} (ltb : K → K → bool) (k : K) (x : K * A) : bool :=
  negb (ltb k x.1) && negb (ltb x.1 k).

Definition decorate {K A : Type} (f : A → K) (l : list A) : list (K * A) :=
  (λ x, (f x, x)) <$> l.

(** Sorting by a key that cannot raise. *)
Definition sort_on {K A : Type} (ltb : K → K → bool) (f : A → K) (l : list A) : list A :=
  (sort_desc ltb (decorate f l)).*2.

(** The releases step 1 of the upsert keeps. *)
Definition kept_releases (version : string) (items : list json) : list json :=
  List.filter (λ r, negb (has_version version r)) items.

(** The releases after steps 1 to 3: the kept ones and the new entry, sorted. *)
Definition sorted_releases (items : list json) (version : string) (e : dict) : list json :=
  sort_on tuple_ltb key_of (kept_releases version items ++ [JObj e]).

(** The index after steps 4 and 5 on the sorted releases. *)
Definition upsert_result (clk : clock) (index : dict) (sorted : list json) : dict :=
  put_latest "dev" sorted
    (put_latest "beta" sorted
       (put_latest "stable" sorted
          (<["updated_at" := JNum (time_now clk)]>
             (<["releases" := JArr sorted]> index)))).

(** ** The manifest as the data model has it *)

(** [n] times the character [c]. *)
Fixpoint repeat_char (c : ascii) (n : nat) : string :=
  match n with
  | O => EmptyString
  | S n' => String c (repeat_char c n')
  end.

(** The last character of [s] is [c]. *)
Fixpoint ends_with (c : ascii) (s : string) : bool :=
  match s with
  | EmptyString => false
  | String c' EmptyString => Ascii.eqb c' c
  | String _ s' => ends_with c s'
  end.

(** [s] with exactly one trailing [c] removed, if it has one: the base URL
    as the specification words its normalisation. *)
Fixpoint strip_one (c : ascii) (s : string) : string :=
  match s with
  | EmptyString => EmptyString
  | String c' EmptyString => if Ascii.eqb c' c then EmptyString else s
  | String c' s' => String c' (strip_one c s')
  end.

(** The build entry of a file that survives extraction, with its [url]. *)
Definition entry_of (base_url : string) (f : px4_file) : option dict :=
  metadata ← extract_px4_metadata f;
  Some (if Str.nonempty base_url
        then <["url" := JStr (Str.rstrip "/" base_url +:+ "/" +:+ file_name f)]> metadata
        else metadata).

(** The surviving entries, in the order of the files. *)
Definition surviving (base_url : string) (px4_files : list px4_file) : list dict :=
  omap (entry_of base_url) px4_files.

(** A build whose sort key is a string: it has no [manifest], or its
    [manifest] is an object whose [target], if any, is a string. *)
Definition string_key (b : dict) : Prop :=
  ∃ k, build_key b = Ok (JStr k).

(** ** Concrete documents used in the examples *)

(** The value of a computation that returns. *)
Definition value_of {A} (d : A) (m : result A) : A :=
  match m with
  | Ok a => a
  | Raise _ => d
  end.

Definition clock0 : clock :=
  {| time_now := 1700000000; time_ymd := "2023-11-14" |}.

(** A release entry as a loaded document carries it. *)
Definition release_fields (version channel manifest_url : string) : dict :=
  <["version" := JStr version]>
  (<["channel" := JStr channel]>
  (<["manifest_url" := JStr manifest_url]> ∅)).

Definition release (version channel manifest_url : string) : json :=
  JObj (release_fields version channel manifest_url).

(** The version strings of the ordering example. *)
Definition example_versions : list string :=
  ["v1.15.0"; "v1.15.0-rc1"; "v1.15.0-beta2"; "v1.15.0-alpha1"; "v1.14.0"].

(** A loaded index whose only release, [v1.0.0], is labelled [beta], and
    whose [latest_beta] names it. *)
Definition stale_index : dict :=
  <["format_version" := JNum 1]>
  (<["releases" := JArr [release "v1.0.0" "beta" "https://old/manifest.json"]]>
  (<["latest_beta" := JStr "v1.0.0"]> ∅)).

(** An index with a stable [v1.0.0] and a beta [v1.1.0-rc1], and a field of
    its own. *)
Definition two_release_index : dict :=
  <["format_version" := JNum 1]>
  (<["maintainer" := JStr "px4"]>
  (<["releases" := JArr [release "v1.1.0-rc1" "beta" "https://b/manifest.json";
                         release "v1.0.0" "stable" "https://a/manifest.json"]]>
  (<["latest_stable" := JStr "v1.0.0"]>
  (<["latest_beta" := JStr "v1.1.0-rc1"]> ∅)))).

(** A firmware file with the three required fields and, when [target] is
    given, a board manifest naming it. *)
Definition firmware (name : string) (target : option json) : px4_file :=
  let data : dict :=
    <["magic" := JStr "PX4FWv1"]>
    (<["board_id" := JNum 9]>
    (<["image" := JStr "eJzt"]> ∅)) in
  {| file_name := name;
     file_json := Some (JObj
       match target with
       | Some t => <["manifest" := JObj (<["target" := t]> ∅)]> data
       | None => data
       end) |}.

(** A file that is not JSON, and one that lacks [image]. *)
Definition broken_file : px4_file :=
  {| file_name := "broken.px4"; file_json := None |}.
Definition incomplete_file : px4_file :=
  {| file_name := "incomplete.px4";
     file_json := Some (JObj (<["magic" := JStr "PX4FWv1"]> (<["board_id" := JNum 9]> ∅))) |}.

(** The URL of an entry as the specification words it. *)
Definition spec_url (base_url filename : string) : string :=
  strip_one "/" base_url +:+ "/" +:+ filename.

(** ** The two command-line tools

    What a run reads from outside is an input of the model: the content of
    the file at [--existing-index], the response to the request for
    [--fetch-url], the files of [--dir].  Only the outcomes the code tells
    apart are modelled; an error it does not catch (a file that cannot be
    opened, a body that is not UTF-8, a timeout while reading) ends the run
    and is left out. *)

(** The value [json.load] returns: the document [null] is Python's [None]. *)
Definition py_value (j : json) : option json :=
  match j with
  | JNull => None
  | _ => Some j
  end.

Module UpdateFirmwareIndex.

(** The file at the path: missing, not JSON, or a document. *)
Inductive file_content : Type :=
| NoFile
| FileNotJson
| FileJson (j : json).

(** The response to [urlopen]: a [URLError], a body that is not JSON, or a
    document. *)
Inductive response : Type :=
| UrlError
| BodyNotJson
| Body (j : json).

Definition fetch_existing_index (r : response) : option json :=
  match r with
  | Body j => py_value j
  | UrlError => None
  | BodyNotJson => None
  end.

Definition load_existing_index (f : file_content) : option json :=
  match f with
  | NoFile => None
  | FileJson j => py_value j
  | FileNotJson => None
  end.

(** [update_index] on whatever was loaded: [index["releases"]] is a
    [TypeError] on a list, a string or a number. *)
Definition update_loaded (clk : clock) (index : json) (version git_tag : string)
    (build_count : Z) (manifest_url s3_url : string) : result dict :=
  match index with
  | JObj d => update_index clk d version git_tag build_count manifest_url s3_url
  | _ => Raise TypeError
  end.

(** [main], up to the document it writes to [--out] before returning 0.
    [existing_index] is [None] when the option is not given. *)
Definition main (clk : clock) (existing_index : option file_content)
    (fetch_url : string) (remote : response) (version git_tag : string)
    (build_count : Z) (manifest_url s3_manifest_url : string) : result dict :=
  (* Load or create index *)
  let index : option json := None in
  let index :=
    match existing_index with
    | Some f => load_existing_index f
    | None => index
    end in
  let index :=
    match index with
    | None => if Str.nonempty fetch_url then fetch_existing_index remote else index
    | Some _ => index
    end in
  let index :=
    match index with
    | None => JObj (create_empty_index clk)
    | Some i => i
    end in
  (* Update index with new release *)
  update_loaded clk index version git_tag build_count manifest_url s3_manifest_url.

End UpdateFirmwareIndex.

Module GenReleaseManifest.

(** [main]: the exit status and the manifest it writes.  [dir] is [None]
    when [--dir] is not a directory, and else its sorted [.px4] files. *)
Definition main (clk : clock) (dir : option (list px4_file))
    (version git_tag base_url : string) : result (Z * option dict) :=
  match dir with
  | None => Ok (1, None)
  | Some px4_files =>
      manifest ← generate_release_manifest clk px4_files version git_tag base_url;
      mret (0, Some manifest)
  end.

End GenReleaseManifest.

(** ** Indexes the tool builds *)

(** A release labelled with the channel of its version. *)
Definition labelled (r : json) : Prop :=
  ∃ m v, r = JObj m ∧ m !! "version" = Some (JStr v)
         ∧ m !! "channel" = Some (JStr (determine_channel v)).

(** The version of the first release of the channel. *)
Definition latest_of (ch : string) (l : list json) : option json :=
  r ← first_in ch l; field "version" r.

(** An index whose releases are labelled by their versions and whose
    [latest_*] fields are exactly those of its releases. *)
Definition tool_index (index : dict) : Prop :=
  ∃ l, index !! "releases" = Some (JArr l)
       ∧ Forall labelled l
       ∧ ∀ ch, ch ∈ channels → index !! ("latest_" +:+ ch) = latest_of ch l.

(** One upsert request. *)
Record request : Type := {
  req_clock : clock;
  req_version : string;
  req_git_tag : string;
  req_build_count : Z;
  req_manifest_url : string;
  req_s3_url : string;
}.

Definition upsert (index : dict) (q : request) : result dict :=
  update_index (req_clock q) index (req_version q) (req_git_tag q)
    (req_build_count q) (req_manifest_url q) (req_s3_url q).

(** The requests of a list, one after the other. *)
Fixpoint upsert_all (index : dict) (qs : list request) : result dict :=
  match qs with
  | [] => Ok index
  | q :: qs' => index' ← upsert index q; upsert_all index' qs'
  end.

(** The fields [extract_px4_metadata] always writes, and the optional one. *)
Definition metadata_keys : list string :=
  ["filename"; "board_id"; "board_revision"; "version"; "git_identity";
   "git_hash"; "build_time"; "image_size"; "sha256sum"; "mav_autopilot"].

(** The sort key of a build is a string, or a number. *)
Definition number_key (b : dict) : Prop :=
  ∃ k z, build_key b = Ok k ∧ num_value k = Some z.

(** ** Requests and sort keys of the further properties *)

(** A release candidate and a stable release. *)
Definition q_rc : request :=
  {| req_clock := clock0; req_version := "v1.3.0-rc1"; req_git_tag := "v1.3.0-rc1";
     req_build_count := 7; req_manifest_url := "https://d/manifest.json";
     req_s3_url := "s3://d/manifest.json" |}.
Definition q_stable : request :=
  {| req_clock := clock0; req_version := "v1.2.0"; req_git_tag := "v1.2.0";
     req_build_count := 150; req_manifest_url := "https://c/manifest.json";
     req_s3_url := "" |}.

(** Keys never decrease along the list. *)
Definition ascending {K A : Type} (ltb : K → K → bool) (l : list (K * A)) : Prop :=
  StronglySorted (λ x y, ltb y.1 x.1 = false) l.

(** [a < b] on two keys that are strings. *)
Definition str_key_ltb (a b : json) : bool :=
  match a, b with
  | JStr x, JStr y => String.ltb x y
  | _, _ => false
  end.

Definition is_str (k : json) : Prop := ∃ s, k = JStr s.

(** A file whose [manifest] is a string. *)
Definition odd_manifest_data : dict :=
  <["magic" := JStr "PX4FWv1"]> (<["board_id" := JNum 9]>
    (<["image" := JStr "eJzt"]> (<["manifest" := JStr "fmu-v6x"]> ∅))).
Definition odd_manifest_file : px4_file :=
  {| file_name := "b.px4"; file_json := Some (JObj odd_manifest_data) |}.

(** A version whose first number has one digit more than [int] converts. *)
Definition long_version : string := repeat_char "1" 4301 +:+ ".0.0".

(** * Properties *)

(** ** Strings *)

Module StrFacts.
Import Str.

Lemma str_app_cons c s t : String c s +:+ t = String c (s +:+ t).
Proof. reflexivity. Qed.

Lemma str_app_nil_l t : "" +:+ t = t.
Proof. reflexivity. Qed.

Ltac str_simpl := simpl; repeat (progress (rewrite ?str_app_cons, ?str_app_nil_l; simpl)).
Ltac str_simpl_in H :=
  simpl in H; repeat (progress (rewrite ?str_app_cons, ?str_app_nil_l in H; simpl in H)).

Lemma take_drop_while p s : take_while p s +:+ drop_while p s = s.
Proof.
  induction s as [|c s IH]; simpl; [done|].
  destruct (p c); str_simpl; [by rewrite IH | done].
Qed.

Lemma all_take_while p s : all p (take_while p s) = true.
Proof.
  induction s as [|c s IH]; simpl; [done|].
  destruct (p c) eqn:E; simpl; [by rewrite E | done].
Qed.

Lemma drop_while_starts p s : starts_with p (drop_while p s) = false.
Proof.
  induction s as [|c s IH]; simpl; [done|].
  destruct (p c) eqn:E; simpl; [done | by rewrite E].
Qed.

Lemma length_str_app s t :
  String.length (s +:+ t) = (String.length s + String.length t)%nat.
Proof. induction s as [|c s IH]; str_simpl; [done | by rewrite IH]. Qed.

Lemma length_take_while p s : (String.length (take_while p s) ≤ String.length s)%nat.
Proof.
  induction s as [|c s IH]; simpl; [done|]. destruct (p c); simpl; lia.
Qed.

Lemma length_drop_while p s : (String.length (drop_while p s) ≤ String.length s)%nat.
Proof.
  induction s as [|c s IH]; simpl; [done|]. destruct (p c); simpl; lia.
Qed.

Lemma length_lstrip c s : (String.length (lstrip c s) ≤ String.length s)%nat.
Proof.
  induction s as [|c' s IH]; simpl; [done|]. destruct (Ascii.eqb c' c); simpl; lia.
Qed.

Lemma take_while_app p d rest :
  all p d = true → starts_with p rest = false →
  take_while p (d +:+ rest) = d.
Proof.
  intros Hd Hr. induction d as [|c d IH]; str_simpl; simpl in Hd.
  - destruct rest as [|c r]; simpl in *; [done | by rewrite Hr].
  - apply andb_prop in Hd as [-> Hd]. by rewrite IH.
Qed.

Lemma drop_while_app p d rest :
  all p d = true → starts_with p rest = false →
  drop_while p (d +:+ rest) = rest.
Proof.
  intros Hd Hr. induction d as [|c d IH]; str_simpl; simpl in Hd.
  - destruct rest as [|c r]; simpl in *; [done | by rewrite Hr].
  - apply andb_prop in Hd as [-> Hd]. by rewrite IH.
Qed.

Lemma substring_take_while p s :
  String.substring 0 (String.length (take_while p s)) s = take_while p s.
Proof.
  induction s as [|c s IH]; simpl; [done|].
  destruct (p c); simpl; [by rewrite IH | done].
Qed.

Lemma nonempty_take_while p s :
  nonempty (take_while p s) = starts_with p s.
Proof. destruct s as [|c s]; simpl; [done|]. by destruct (p c). Qed.

Lemma str_app_nil_r s : s +:+ "" = s.
Proof. induction s; str_simpl; [done | by f_equal]. Qed.

Lemma str_app_assoc (a b c : string) : (a +:+ b) +:+ c = a +:+ b +:+ c.
Proof. induction a; str_simpl; [done | by f_equal]. Qed.

Lemma lower_app a b : lower (a +:+ b) = lower a +:+ lower b.
Proof. induction a; str_simpl; [done | by f_equal]. Qed.

Lemma digits_value_nonneg s acc :
  0 ≤ acc → all is_digit s = true → 0 ≤ digits_value acc s.
Proof.
  revert acc. induction s as [|c s IH]; simpl; intros acc Hacc Hs; [done|].
  apply andb_prop in Hs as [Hc Hs]. apply IH; [|done].
  unfold is_digit in Hc. apply andb_prop in Hc as [H1 H2].
  apply N.leb_le in H1. lia.
Qed.

Lemma digit_not_dot c : is_digit c = true → Ascii.eqb c "." = false.
Proof.
  intros H. apply Ascii.eqb_neq. intros ->. vm_compute in H. done.
Qed.

Lemma digit_not_newline c : is_digit c = true → Ascii.eqb c Re.newline = false.
Proof.
  intros H. apply Ascii.eqb_neq. intros ->. vm_compute in H. done.
Qed.
End StrFacts.

(** ** The matcher on the two patterns *)

Module ReFacts.
Import Str Re StrFacts.

Lemma star_greedy p k i s caps :
  rejects p k ∨ accepts k →
  star p i s caps k
  = k (i + String.length (take_while p s))%nat (drop_while p s) caps.
Proof.
  intros Hk. revert i. induction s as [|c s IH]; intros i; simpl.
  - by rewrite Nat.add_0_r.
  - destruct (p c) eqn:Hc; simpl; [|by rewrite Nat.add_0_r].
    rewrite IH, Nat.add_succ_r. simpl.
    destruct (k _ (drop_while p s) caps) eqn:E; [done|].
    destruct Hk as [Hk|Hk]; [by apply Hk|].
    destruct (Hk (S (i + String.length (take_while p s))) (drop_while p s) caps)
      as [m Hm]. congruence.
Qed.

Lemma run_plus p k i s caps :
  rejects p k ∨ accepts k →
  run (Plus p) i s caps k
  = if nonempty (take_while p s)
    then k (i + String.length (take_while p s))%nat (drop_while p s) caps
    else None.
Proof.
  intros Hk. destruct s as [|c s]; simpl; [done|].
  destruct (p c); simpl; [|done].
  by rewrite star_greedy, Nat.add_succ_r.
Qed.

Lemma run_group n r k i s caps :
  run (Group n r) i s caps k
  = run r i s caps
      (λ i' s' caps', k i' s' (<[n := String.substring 0 (i' - i) s]> caps')).
Proof. reflexivity. Qed.

Lemma run_seq r1 r2 k i s caps :
  run (r1 ⋅ r2) i s caps k = run r1 i s caps (λ i' s' caps', run r2 i' s' caps' k).
Proof. reflexivity. Qed.

Lemma run_chr c k i s caps :
  run (Chr c) i s caps k
  = match expect c s with Some s' => k (S i) s' caps | None => None end.
Proof. destruct s as [|c' s]; simpl; [done|]. by destruct (Ascii.eqb c' c). Qed.

Lemma run_opt r k i s caps :
  run (Opt r) i s caps k
  = match run r i s caps k with Some m => Some m | None => k i s caps end.
Proof. reflexivity. Qed.

Lemma run_eol k i s caps :
  run Eol i s caps k = if at_eol s then k i s caps else None.
Proof. reflexivity. Qed.

Lemma run_group_plus n p k i s caps :
  rejects p k ∨ accepts k →
  run (Group n (Plus p)) i s caps k
  = if nonempty (take_while p s)
    then k (i + String.length (take_while p s))%nat (drop_while p s)
           (<[n := take_while p s]> caps)
    else None.
Proof.
  intros Hk. rewrite run_group, run_plus.
  - destruct (nonempty _); [|done].
    replace (i + _ - i)%nat with (String.length (take_while p s)) by lia.
    by rewrite substring_take_while.
  - destruct Hk as [Hk|Hk]; [left|right].
    + intros j c s' caps' Hc. by apply Hk.
    + intros j s' caps'. apply Hk.
Qed.

Lemma rejects_chr p c (r : regex) k :
  (∀ x, p x = true → Ascii.eqb x c = false) →
  rejects p (λ i s caps, run (Chr c ⋅ r) i s caps k).
Proof.
  intros H i x s caps Hx. rewrite run_seq, run_chr. simpl. by rewrite (H x Hx).
Qed.

Lemma rejects_eol p k :
  (∀ x, p x = true → Ascii.eqb x newline = false) →
  rejects p (λ i s caps, run Eol i s caps k).
Proof.
  intros H i x s caps Hx. rewrite run_eol. unfold at_eol.
  destruct s; [by rewrite (H x Hx) | done].
Qed.

Lemma accepts_done : accepts (λ _ _ caps, Some caps).
Proof. intros i s caps. eauto. Qed.

Lemma accepts_opt r k : accepts k → accepts (λ i s caps, run (Opt r) i s caps k).
Proof.
  intros Hk i s caps. rewrite run_opt.
  destruct (run r i s caps k); [eauto | apply Hk].
Qed.

Lemma accepts_cap k (f : nat → string → captures → captures) :
  accepts k → accepts (λ i s caps, k i s (f i s caps)).
Proof. intros Hk i s caps. apply Hk. Qed.

(** The optional [-TAG[NUM]] part never makes the match fail. *)
Lemma run_prerelease i s caps :
  run (Opt (Chr "-" ⋅ Group 4 (Plus is_alpha) ⋅ Opt (Group 5 (Plus is_digit))))
      i s caps (λ _ _ caps, Some caps)
  = Some (scan_prerelease s caps).
Proof.
  rewrite run_opt, run_seq, run_chr. unfold scan_prerelease.
  destruct (expect "-" s) as [s1|]; [|done].
  rewrite run_seq, run_group_plus
    by (right; apply accepts_opt, accepts_done).
  destruct (nonempty (take_while is_alpha s1)); [|done].
  rewrite run_opt, run_group_plus by (right; apply accepts_done).
  by destruct (nonempty (take_while is_digit _)).
Qed.

Lemma re_match_version v : re_match version_re v = scan_version v.
Proof.
  unfold re_match, version_re, scan_version.
  rewrite run_seq, run_group_plus by (left; apply rejects_chr, digit_not_dot).
  destruct (nonempty (take_while is_digit v)); [|done].
  rewrite run_seq, run_chr.
  destruct (expect "." (drop_while is_digit v)) as [s1|]; [|done].
  rewrite run_seq, run_group_plus by (left; apply rejects_chr, digit_not_dot).
  destruct (nonempty (take_while is_digit s1)); [|done].
  rewrite run_seq, run_chr.
  destruct (expect "." (drop_while is_digit s1)) as [s2|]; [|done].
  rewrite run_seq, run_group_plus
    by (right; apply accepts_opt, accepts_done).
  destruct (nonempty (take_while is_digit s2)); [|done].
  apply run_prerelease.
Qed.

Lemma run_bol k s caps : run Bol 0 s caps k = k 0%nat s caps.
Proof. reflexivity. Qed.

(** [\d+\.\d+\.\d+$] from any position. *)
Lemma run_stable_tail i s caps :
  (if run (Plus is_digit ⋅ Chr "." ⋅ Plus is_digit ⋅ Chr "." ⋅ Plus is_digit ⋅ Eol)
         i s caps (λ _ _ caps, Some caps) is Some _ then true else false)
  = nonempty (take_while is_digit s)
    && match expect "." (drop_while is_digit s) with
       | Some s =>
           nonempty (take_while is_digit s)
           && match expect "." (drop_while is_digit s) with
              | Some s =>
                  nonempty (take_while is_digit s)
                  && at_eol (drop_while is_digit s)
              | None => false
              end
       | None => false
       end.
Proof.
  rewrite run_seq, run_plus by (left; apply rejects_chr, digit_not_dot).
  destruct (nonempty (take_while is_digit s)); [|done].
  rewrite run_seq, run_chr.
  destruct (expect "." (drop_while is_digit s)) as [s1|]; [|done].
  rewrite run_seq, run_plus by (left; apply rejects_chr, digit_not_dot).
  destruct (nonempty (take_while is_digit s1)); [|done].
  rewrite run_seq, run_chr.
  destruct (expect "." (drop_while is_digit s1)) as [s2|]; [|done].
  rewrite run_seq, run_plus.
  - destruct (nonempty (take_while is_digit s2)); [|done].
    rewrite run_eol. by destruct (at_eol _).
  - left. apply rejects_eol, digit_not_newline.
Qed.

Lemma expect_not_digit c s s1 :
  is_digit c = false → expect c s = Some s1 → take_while is_digit s = "".
Proof.
  intros Hc. destruct s as [|c' s]; simpl; [done|].
  destruct (Ascii.eqb_spec c' c) as [->|]; [|done]. by rewrite Hc.
Qed.

Lemma re_match_stable s :
  (if re_match stable_re s is Some _ then true else false) = stable_form s.
Proof.
  unfold re_match, stable_re, stable_form.
  rewrite run_seq, run_bol, run_seq, run_opt, run_chr.
  destruct (expect "v" s) as [s1|] eqn:Hv; simpl default.
  - rewrite <- (run_stable_tail 1 s1 ∅).
    destruct (run _ 1%nat s1 ∅ _) eqn:E; [done|].
    rewrite run_seq, run_plus by (left; apply rejects_chr, digit_not_dot).
    by rewrite (expect_not_digit "v" s s1).
  - apply run_stable_tail.
Qed.

End ReFacts.

(** ** The stable descending sort *)

Section StableSortFacts.
Context {K A : Type} (ltb : K → K → bool).
Hypothesis ltb_asym : ∀ a b, ltb a b = true → ltb b a = false.
Hypothesis ltb_negtrans :
  ∀ a b c, ltb a b = false → ltb b c = false → ltb a c = false.
Hypothesis ltb_tricho : ∀ a b, ltb a b = false → ltb b a = false → a = b.

Implicit Types (x y : K * A) (l : list (K * A)).

Lemma ltb_irrefl a : ltb a a = false.
Proof. destruct (ltb a a) eqn:E; [by rewrite (ltb_asym _ _ E) in E | done]. Qed.

Lemma insert_desc_perm x l : insert_desc ltb x l ≡ₚ x :: l.
Proof.
  induction l as [|y l IH]; simpl; [done|].
  destruct (ltb x.1 y.1); [|done].
  rewrite IH. apply Permutation_swap.
Qed.

Lemma sort_desc_perm l : sort_desc ltb l ≡ₚ l.
Proof.
  induction l as [|x l IH]; simpl; [done|].
  by rewrite insert_desc_perm, IH.
Qed.

Lemma insert_desc_sorted x l :
  descending ltb l → descending ltb (insert_desc ltb x l).
Proof.
  unfold descending. induction 1 as [|y l Hl IH Hy]; simpl.
  - repeat constructor.
  - destruct (ltb x.1 y.1) eqn:E.
    + constructor; [done|].
      rewrite insert_desc_perm. constructor; [by apply ltb_asym | done].
    + constructor; [by constructor|].
      constructor; [done|].
      eapply Forall_impl; [exact Hy|]. intros z Hz. simpl in *.
      by apply ltb_negtrans with y.1.
Qed.

Lemma sort_desc_sorted l : descending ltb (sort_desc ltb l).
Proof.
  induction l as [|x l IH]; simpl; [constructor|].
  by apply insert_desc_sorted.
Qed.

Lemma same_key_eq k x : same_key ltb k x = true → x.1 = k.
Proof.
  unfold same_key. intros [H1 H2]%andb_prop.
  apply negb_true_iff in H1, H2. by apply ltb_tricho.
Qed.

Lemma same_key_refl x : same_key ltb x.1 x = true.
Proof. unfold same_key. by rewrite ltb_irrefl. Qed.

Lemma filter_same_insert k x l :
  List.filter (same_key ltb k) (insert_desc ltb x l)
  = List.filter (same_key ltb k) (x :: l).
Proof.
  induction l as [|y l IH]; [done|].
  cbn [insert_desc]. destruct (ltb x.1 y.1) eqn:E; [|done].
  cbn [List.filter] in *. rewrite IH.
  destruct (same_key ltb k x) eqn:Hx, (same_key ltb k y) eqn:Hy; try done.
  apply same_key_eq in Hx, Hy. rewrite Hx, Hy, ltb_irrefl in E. done.
Qed.

Lemma filter_same_sort k l :
  List.filter (same_key ltb k) (sort_desc ltb l) = List.filter (same_key ltb k) l.
Proof.
  induction l as [|x l IH]; [done|].
  cbn [sort_desc foldr]. rewrite filter_same_insert.
  cbn [List.filter]. fold (sort_desc ltb l). by rewrite IH.
Qed.

Lemma descending_filter q l :
  descending ltb l → descending ltb (List.filter q l).
Proof.
  unfold descending. induction 1 as [|y l Hl IH Hy]; simpl; [constructor|].
  destruct (q y); [|done]. constructor; [done|].
  rewrite Forall_forall in *. intros z Hz.
  apply list_elem_of_In, List.filter_In in Hz as [Hz _].
  by apply Hy, list_elem_of_In.
Qed.

(** A descending list is determined by the order it leaves the elements of
    each key in. *)
Lemma descending_unique l1 l2 :
  descending ltb l1 → descending ltb l2 →
  (∀ k, List.filter (same_key ltb k) l1 = List.filter (same_key ltb k) l2) →
  l1 = l2.
Proof.
  unfold descending. intros H1. revert l2.
  induction H1 as [|x l1 Hl1 IH Hx]; intros l2 H2 Hf.
  - destruct l2 as [|y l2]; [done|].
    specialize (Hf y.1). cbn [List.filter] in Hf.
    by rewrite same_key_refl in Hf.
  - destruct H2 as [|y l2 Hl2 Hy].
    { specialize (Hf x.1). cbn [List.filter] in Hf.
      by rewrite same_key_refl in Hf. }
    assert (x.1 = y.1) as Hxy.
    { apply ltb_tricho.
      - assert (y ∈ x :: l1) as Hin.
        { apply list_elem_of_In.
          eapply (proj1 (List.filter_In (same_key ltb y.1) y (x :: l1))).
          rewrite Hf. cbn [List.filter]. rewrite same_key_refl. by left. }
        apply elem_of_cons in Hin as [->|Hin]; [apply ltb_irrefl|].
        rewrite Forall_forall in Hx. by apply Hx.
      - assert (x ∈ y :: l2) as Hin.
        { apply list_elem_of_In.
          eapply (proj1 (List.filter_In (same_key ltb x.1) x (y :: l2))).
          rewrite <- Hf. cbn [List.filter]. rewrite same_key_refl. by left. }
        apply elem_of_cons in Hin as [->|Hin]; [apply ltb_irrefl|].
        rewrite Forall_forall in Hy. by apply Hy. }
    assert (x = y) as ->.
    { specialize (Hf x.1). cbn [List.filter] in Hf.
      rewrite same_key_refl in Hf. rewrite Hxy, same_key_refl in Hf.
      by injection Hf. }
    f_equal. apply IH; [done|]. intros k. specialize (Hf k).
    cbn [List.filter] in Hf. destruct (same_key ltb k y); [by injection Hf | done].
Qed.

Lemma filter_comm {B} (p q : B → bool) (l : list B) :
  List.filter p (List.filter q l) = List.filter q (List.filter p l).
Proof.
  induction l as [|x l IH]; simpl; [done|].
  destruct (q x) eqn:Hq, (p x) eqn:Hp; simpl; rewrite ?Hq, ?Hp, ?IH; done.
Qed.

Lemma sort_desc_filter q l :
  List.filter q (sort_desc ltb l) = sort_desc ltb (List.filter q l).
Proof.
  apply descending_unique.
  - apply descending_filter, sort_desc_sorted.
  - apply sort_desc_sorted.
  - intros k. rewrite filter_comm, !filter_same_sort. apply filter_comm.
Qed.

Lemma sort_desc_sort_app l l' :
  sort_desc ltb (sort_desc ltb l ++ l') = sort_desc ltb (l ++ l').
Proof.
  apply descending_unique; [apply sort_desc_sorted..|].
  intros k. by rewrite !filter_same_sort, !List.filter_app, filter_same_sort.
Qed.

(** Sorting by a key function. *)
Context (f : A → K).

Lemma decorate_app (l l' : list A) :
  decorate f (l ++ l') = decorate f l ++ decorate f l'.
Proof. unfold decorate. by rewrite fmap_app. Qed.

Lemma decorate_filter (q : A → bool) (l : list A) :
  decorate f (List.filter q l) = List.filter (λ x, q x.2) (decorate f l).
Proof.
  unfold decorate. induction l as [|x l IH]; csimpl; [done|].
  destruct (q x); csimpl; by rewrite IH.
Qed.

Lemma snd_decorate (l : list A) : (decorate f l).*2 = l.
Proof. unfold decorate. induction l as [|x l IH]; csimpl; [done | by f_equal]. Qed.

Lemma snd_filter (q : A → bool) l :
  List.filter q l.*2 = (List.filter (λ x, q x.2) l).*2.
Proof.
  induction l as [|x l IH]; csimpl; [done|].
  destruct (q x.2); csimpl; by rewrite IH.
Qed.

Lemma decorate_snd l : Forall (λ x, x.1 = f x.2) l → decorate f l.*2 = l.
Proof.
  unfold decorate.
  induction 1 as [|[k a] l Hx Hl IH]; csimpl in *; [done|].
  by rewrite IH, Hx.
Qed.

Lemma decorate_keys (l : list A) : Forall (λ x, x.1 = f x.2) (decorate f l).
Proof. unfold decorate. induction l; csimpl; by constructor. Qed.

Lemma sort_on_decorate (l : list A) :
  decorate f (sort_on ltb f l) = sort_desc ltb (decorate f l).
Proof.
  unfold sort_on. apply decorate_snd.
  rewrite sort_desc_perm. apply decorate_keys.
Qed.

Lemma sort_on_perm (l : list A) : sort_on ltb f l ≡ₚ l.
Proof.
  unfold sort_on. rewrite sort_desc_perm. by rewrite snd_decorate.
Qed.

Lemma sort_on_filter q (l : list A) :
  List.filter q (sort_on ltb f l) = sort_on ltb f (List.filter q l).
Proof.
  unfold sort_on. by rewrite snd_filter, sort_desc_filter, decorate_filter.
Qed.

Lemma sort_on_sort_app (l l' : list A) :
  sort_on ltb f (sort_on ltb f l ++ l') = sort_on ltb f (l ++ l').
Proof.
  unfold sort_on at 1 3.
  by rewrite !decorate_app, sort_on_decorate, sort_desc_sort_app.
Qed.

Lemma map_r_pure (key : A → result K) (l : list A) :
  Forall (λ a, key a = Ok (f a)) l → map_r key l = Ok (f <$> l).
Proof.
  induction 1 as [|a l Ha Hl IH]; csimpl; [done|]. by rewrite Ha, IH.
Qed.

Lemma zip_decorate (l : list A) : zip (f <$> l) l = decorate f l.
Proof. unfold decorate. induction l as [|x l IH]; csimpl; [done | by f_equal]. Qed.

Lemma sort_reverse_pure (key : A → result K) (l : list A) :
  Forall (λ a, key a = Ok (f a)) l →
  sort_reverse ltb key l = Ok (sort_on ltb f l).
Proof.
  intros H. unfold sort_reverse. rewrite (map_r_pure key l H). simpl.
  by rewrite zip_decorate.
Qed.

End StableSortFacts.

Lemma map_r_ok {A B} (key : A → result B) (l : list A) (r : list B) :
  map_r key l = Ok r → Forall (λ x, is_ok (key x) = true) l.
Proof.
  revert r. induction l as [|x l IH]; intros r; simpl; [by constructor|].
  destruct (key x) eqn:E; simpl; [|done].
  destruct (map_r key l) eqn:E'; simpl; [|done].
  intros _. constructor; [by rewrite E | by eapply IH].
Qed.

(** ** The order on version tuples *)

Section CmpFacts.
Context {K : Type} (cmp : K → K → comparison) `{!CmpLaws cmp}.

Lemma cmp_refl a : cmp a a = Eq.
Proof. pose proof (cmp_antisym a a) as H. by destruct (cmp a a). Qed.

Lemma cmp_ltb_asym a b : cmp_ltb cmp a b = true → cmp_ltb cmp b a = false.
Proof.
  unfold cmp_ltb. rewrite (cmp_antisym b a). by destruct (cmp a b).
Qed.

Lemma cmp_ltb_tricho a b :
  cmp_ltb cmp a b = false → cmp_ltb cmp b a = false → a = b.
Proof.
  unfold cmp_ltb. rewrite (cmp_antisym b a).
  destruct (cmp a b) eqn:E; simpl; try done. intros _ _. by apply cmp_eq.
Qed.

Lemma cmp_ltb_negtrans a b c :
  cmp_ltb cmp a b = false → cmp_ltb cmp b c = false → cmp_ltb cmp a c = false.
Proof.
  unfold cmp_ltb. intros Hab Hbc.
  destruct (cmp a c) eqn:Hac; try done.
  destruct (cmp a b) eqn:E1; try done.
  - apply cmp_eq in E1 as ->. by rewrite Hac in Hbc.
  - destruct (cmp b c) eqn:E2; try done.
    + apply cmp_eq in E2 as ->. by rewrite Hac in E1.
    + (* c < b, b < a, a < c *)
      assert (cmp c b = Lt) as Hcb by (rewrite cmp_antisym, E2; done).
      assert (cmp b a = Lt) as Hba by (rewrite cmp_antisym, E1; done).
      pose proof (cmp_trans _ _ _ Hac Hcb) as Hab'.
      rewrite Hab' in E1. done.
Qed.
End CmpFacts.

#[global] Instance Z_cmp_laws : CmpLaws Z.compare.
Proof.
  split.
  - apply Z.compare_eq.
  - intros a b. apply Z.compare_antisym.
  - intros a b c. rewrite !Z.compare_lt_iff. lia.
Qed.

#[global] Instance string_cmp_laws : CmpLaws String.compare.
Proof.
  split.
  - apply String.compare_eq_iff.
  - apply String.compare_antisym.
  - intros a b c Hab Hbc.
    assert (String.le a c) as Hle.
    { transitivity b; unfold String.le, String.leb; [by rewrite Hab | by rewrite Hbc]. }
    unfold String.le, String.leb in Hle.
    destruct (String.compare a c) eqn:E; try done.
    apply String.compare_eq_iff in E as ->.
    rewrite String.compare_antisym, Hab in Hbc. done.
Qed.

#[global] Instance lex_cmp_laws {K1 K2} (c1 : K1 → K1 → comparison)
  (c2 : K2 → K2 → comparison) `{!CmpLaws c1, !CmpLaws c2} :
  CmpLaws (lex_cmp c1 c2).
Proof.
  split; unfold lex_cmp.
  - intros [a1 a2] [b1 b2]; simpl.
    destruct (c1 a1 b1) eqn:E; try done.
    intros ?%cmp_eq. apply cmp_eq in E. by subst.
  - intros [a1 a2] [b1 b2]; simpl.
    rewrite (cmp_antisym (cmp:=c1) a1 b1).
    destruct (c1 b1 a1); simpl; [apply cmp_antisym | done..].
  - intros [a1 a2] [b1 b2] [d1 d2]; simpl.
    destruct (c1 a1 b1) eqn:E1; try done.
    + apply cmp_eq in E1 as ->.
      destruct (c1 b1 d1) eqn:E2; try done. apply cmp_trans.
    + destruct (c1 b1 d1) eqn:E2; try done.
      * apply cmp_eq in E2 as ->. by rewrite E1.
      * by rewrite (cmp_trans _ _ _ E1 E2).
Qed.

Lemma tuple_compare_lex a b :
  tuple_compare a b
  = lex_cmp (lex_cmp (lex_cmp (lex_cmp Z.compare Z.compare) Z.compare)
       String.compare) Z.compare a b.
Proof.
  destruct a as [[[[a1 a2] a3] a4] a5], b as [[[[b1 b2] b3] b4] b5].
  unfold tuple_compare, lex_cmp; simpl.
  destruct (a1 ?= b1); try done.
  destruct (a2 ?= b2); try done.
  destruct (a3 ?= b3); try done.
Qed.

#[global] Instance tuple_cmp_laws : CmpLaws tuple_compare.
Proof.
  split.
  - intros a b. rewrite tuple_compare_lex. apply cmp_eq.
  - intros a b. rewrite !tuple_compare_lex. apply cmp_antisym.
  - intros a b c. rewrite !tuple_compare_lex. apply cmp_trans.
Qed.

Lemma tuple_ltb_asym a b : tuple_ltb a b = true → tuple_ltb b a = false.
Proof. apply (cmp_ltb_asym tuple_compare). Qed.

Lemma tuple_ltb_negtrans a b c :
  tuple_ltb a b = false → tuple_ltb b c = false → tuple_ltb a c = false.
Proof. apply (cmp_ltb_negtrans tuple_compare). Qed.

Lemma tuple_ltb_tricho a b :
  tuple_ltb a b = false → tuple_ltb b a = false → a = b.
Proof. apply (cmp_ltb_tricho tuple_compare). Qed.

(** ** The version parser *)

Module ParseFacts.
Import Str Re StrFacts ReFacts.

Lemma digits_take_while s :
  nonempty (take_while is_digit s) = true → digits (take_while is_digit s).
Proof. intros H. split; [done | apply all_take_while]. Qed.

Lemma py_int_digits d :
  digits d →
  py_int (Some d)
  = if within_limit d then Ok (digits_value 0 d) else Raise ValueError.
Proof.
  intros [H1 H2]. unfold py_int, within_limit. rewrite H1, H2. simpl.
  rewrite Z.ltb_antisym. by destruct (_ <=? _).
Qed.

Lemma scan_prerelease_base (n : nat) s caps :
  (n < 4)%nat → scan_prerelease s caps !! n = caps !! n.
Proof.
  intros Hn. unfold scan_prerelease.
  destruct (expect "-" s) as [s1|]; [|done].
  destruct (nonempty (take_while is_alpha s1)); [|done].
  destruct (nonempty (take_while is_digit _));
    rewrite ?lookup_insert_ne by lia; done.
Qed.

Lemma scan_prerelease_num s caps :
  caps !! 5%nat = None →
  scan_prerelease s caps !! 5%nat = None
  ∨ ∃ n, scan_prerelease s caps !! 5%nat = Some n ∧ digits n.
Proof.
  intros Hc. unfold scan_prerelease.
  destruct (expect "-" s) as [s1|]; [|by left].
  destruct (nonempty (take_while is_alpha s1)); [|by left].
  destruct (nonempty (take_while is_digit _)) eqn:E.
  - right. eexists. rewrite lookup_insert_eq. split; [done|].
    by apply digits_take_while.
  - left. by rewrite lookup_insert_ne by lia.
Qed.

(** What a successful scan has read. *)
Lemma scan_version_some v m :
  scan_version v = Some m →
  ∃ d1 d2 d3 rest,
    digits d1 ∧ digits d2 ∧ digits d3
    ∧ v = d1 +:+ "." +:+ d2 +:+ "." +:+ d3 +:+ rest
    ∧ starts_with is_digit rest = false
    ∧ m = scan_prerelease rest
            (<[3%nat := d3]> (<[2%nat := d2]> (<[1%nat := d1]> ∅))).
Proof.
  unfold scan_version.
  destruct (nonempty (take_while is_digit v)) eqn:E1; [|done].
  destruct (expect "." (drop_while is_digit v)) as [s1|] eqn:X1; [|done].
  destruct (nonempty (take_while is_digit s1)) eqn:E2; [|done].
  destruct (expect "." (drop_while is_digit s1)) as [s2|] eqn:X2; [|done].
  destruct (nonempty (take_while is_digit s2)) eqn:E3; [|done].
  intros [= <-].
  exists (take_while is_digit v), (take_while is_digit s1),
    (take_while is_digit s2), (drop_while is_digit s2).
  split_and!; try by apply digits_take_while.
  - rewrite <- (take_drop_while is_digit v) at 1. f_equal.
    destruct (drop_while is_digit v) as [|c r]; [done|]. simpl in X1.
    destruct (Ascii.eqb_spec c "."); [|done]. injection X1 as ->. subst c.
    rewrite <- (take_drop_while is_digit s1) at 1.
    change ("." +:+ ?x) with (String "." x). f_equal. f_equal.
    destruct (drop_while is_digit s1) as [|c r]; [done|]. simpl in X2.
    destruct (Ascii.eqb_spec c "."); [|done]. injection X2 as ->. subst c.
    change ("." +:+ ?x) with (String "." x). f_equal.
    by rewrite take_drop_while.
  - apply drop_while_starts.
  - done.
Qed.

(** A string that begins with three runs of digits separated by dots is
    scanned, and the first two runs are read whole. *)
Lemma scan_version_prefix d1 d2 d3 rest :
  digits d1 → digits d2 → digits d3 → starts_with is_digit rest = false →
  scan_version (d1 +:+ "." +:+ d2 +:+ "." +:+ d3 +:+ rest)
  = Some (scan_prerelease rest
            (<[3%nat := d3]> (<[2%nat := d2]> (<[1%nat := d1]> ∅)))).
Proof.
  intros [N1 A1] [N2 A2] [N3 A3] Hr. unfold scan_version.
  rewrite take_while_app, drop_while_app by done. rewrite N1.
  change (expect "." ("." +:+ ?x)) with (Some x). cbv beta iota.
  rewrite take_while_app, drop_while_app by done. rewrite N2.
  change (expect "." ("." +:+ ?x)) with (Some x). cbv beta iota.
  rewrite take_while_app, drop_while_app by done. by rewrite N3.
Qed.

Lemma version_prefix_scan v : version_prefix v ↔ is_Some (scan_version v).
Proof.
  split.
  - intros (d1 & d2 & d3 & rest & H1 & H2 & H3 & ->).
    rewrite <- (take_drop_while is_digit rest), <- (str_app_assoc d3).
    assert (digits (d3 +:+ take_while is_digit rest)) as H3'.
    { destruct H3 as [N3 A3]. split.
      - destruct d3; [done|]. done.
      - clear N3. induction d3 as [|c d IH]; str_simpl.
        + apply all_take_while.
        + simpl in A3. apply andb_prop in A3 as [-> A3]. by apply IH. }
    rewrite (scan_version_prefix d1 d2 _ _ H1 H2 H3'
               (drop_while_starts is_digit rest)).
    eauto.
  - intros [m Hm]. apply scan_version_some in Hm
      as (d1 & d2 & d3 & rest & H1 & H2 & H3 & -> & _).
    by exists d1, d2, d3, rest.
Qed.

Lemma scan_captures d1 d2 d3 rest :
  let m := scan_prerelease rest
             (<[3%nat := d3]> (<[2%nat := d2]> (<[1%nat := d1]> ∅))) in
  m !! 1%nat = Some d1 ∧ m !! 2%nat = Some d2 ∧ m !! 3%nat = Some d3
  ∧ (m !! 5%nat = None ∨ ∃ n, m !! 5%nat = Some n ∧ digits n).
Proof.
  intros m. unfold m. rewrite !scan_prerelease_base by lia.
  split_and!; [by simplify_map_eq..|].
  apply scan_prerelease_num. by simplify_map_eq.
Qed.

Lemma parse_version_tuple_scan s :
  parse_version_tuple s
  = match scan_version (lstrip "v" s) with
    | Some m => if convertible m then Ok (tuple_of m) else Raise ValueError
    | None => Ok sentinel
    end.
Proof.
  unfold parse_version_tuple. rewrite re_match_version.
  destruct (scan_version (lstrip "v" s)) as [m|] eqn:E; [|done].
  apply scan_version_some in E
    as (d1 & d2 & d3 & rest & H1 & H2 & H3 & _ & _ & ->).
  destruct (scan_captures d1 d2 d3 rest) as (E1 & E2 & E3 & E5).
  unfold tuple_of, convertible. rewrite E1, E2, E3.
  destruct E5 as [->|(n & -> & Hn)].
  - rewrite !py_int_digits by done. simpl.
    destruct (within_limit d1); [|done]. destruct (within_limit d2); [|done].
    by destruct (within_limit d3).
  - destruct (Hn) as [-> _]. rewrite !py_int_digits by done. simpl.
    destruct (within_limit d1); [|done]. destruct (within_limit d2); [|done].
    destruct (within_limit d3); [|done]. by destruct (within_limit n).
Qed.

(** The parser raises nothing but the [ValueError] of [int]. *)
Lemma parse_version_tuple_raise s e :
  parse_version_tuple s = Raise e → e = ValueError.
Proof.
  rewrite parse_version_tuple_scan.
  destruct (scan_version (lstrip "v" s)) as [m|]; [|done].
  destruct (convertible m); [done|]. by intros [= <-].
Qed.

Lemma short_within d : short d → within_limit d = true.
Proof. unfold short, within_limit. intros H. by apply Z.leb_le. Qed.

Lemma short_le d s : (String.length d ≤ String.length s)%nat → short s → short d.
Proof. unfold short. lia. Qed.

Lemma scan_prerelease_short rest caps n :
  caps !! 5%nat = None → scan_prerelease rest caps !! 5%nat = Some n →
  (String.length n ≤ String.length rest)%nat.
Proof.
  intros Hc. unfold scan_prerelease.
  destruct rest as [|c s1]; simpl; [by rewrite Hc|].
  destruct (Ascii.eqb c "-"); [|by rewrite Hc].
  destruct (nonempty (take_while is_alpha s1)); [|by rewrite Hc].
  destruct (nonempty (take_while is_digit _)).
  - rewrite lookup_insert_eq. intros [= <-].
    pose proof (length_take_while is_digit (drop_while is_alpha s1)).
    pose proof (length_drop_while is_alpha s1). lia.
  - rewrite lookup_insert_ne by lia. by rewrite Hc.
Qed.

(** On a short string every number the pattern captures can be converted. *)
Lemma scan_version_short v m :
  short v → scan_version v = Some m → convertible m = true.
Proof.
  intros Hv E. apply scan_version_some in E
    as (d1 & d2 & d3 & rest & H1 & H2 & H3 & -> & _ & ->).
  destruct (scan_captures d1 d2 d3 rest) as (E1 & E2 & E3 & _).
  unfold convertible. rewrite E1, E2, E3. simpl.
  unfold short in Hv. rewrite !length_str_app in Hv.
  rewrite !short_within; [done|..]; unfold short; try lia.
  destruct (scan_prerelease rest _ !! 5%nat) as [n|] eqn:E5; simpl; [|lia].
  apply scan_prerelease_short in E5; [lia | by simplify_map_eq].
Qed.

Lemma parse_version_tuple_short s : short s → ∃ t, parse_version_tuple s = Ok t.
Proof.
  intros Hs. rewrite parse_version_tuple_scan.
  destruct (scan_version (lstrip "v" s)) as [m|] eqn:E; [|eauto].
  rewrite (scan_version_short (lstrip "v" s) m); [eauto | | done].
  apply (short_le _ s); [apply length_lstrip | done].
Qed.

Lemma digits_nonneg d : digits d → 0 ≤ digits_value 0 d.
Proof. intros [_ H]. by apply digits_value_nonneg. Qed.

Lemma parse_version_tuple_nonneg s a b c t n :
  parse_version_tuple s = Ok (a, b, c, t, n) → 0 ≤ a ∧ 0 ≤ b ∧ 0 ≤ c ∧ 0 ≤ n.
Proof.
  rewrite parse_version_tuple_scan.
  destruct (scan_version (lstrip "v" s)) as [m|] eqn:E.
  - apply scan_version_some in E
      as (d1 & d2 & d3 & rest & H1 & H2 & H3 & _ & _ & ->).
    destruct (scan_captures d1 d2 d3 rest) as (E1 & E2 & E3 & E5).
    destruct (convertible _); [|done].
    unfold tuple_of. rewrite E1, E2, E3. simpl.
    intros [= <- <- <- _ <-].
    split_and!; try by apply digits_nonneg.
    destruct E5 as [->|(k & -> & Hk)]; [done|].
    destruct (nonempty k); [by apply digits_nonneg | done].
  - intros [= <- <- <- _ <-]. done.
Qed.

End ParseFacts.

(** ** The channel classifier *)

Module ChannelFacts.
Import Str Re StrFacts ReFacts.

Lemma expect_some c s s' : expect c s = Some s' ↔ s = String c s'.
Proof.
  destruct s as [|c' s]; simpl; [done|].
  destruct (Ascii.eqb_spec c' c) as [->|Hne]; split; intros H; try congruence.
Qed.

Lemma at_eol_spec s : at_eol s = true ↔ s = "" ∨ s = String newline "".
Proof.
  destruct s as [|c [|c' s]]; simpl.
  - split; [by left | done].
  - rewrite Ascii.eqb_eq. split; [intros ->; by right | by intros [|[= ->]]].
  - split; [done | by intros [|]].
Qed.

Lemma digits_starts d rest : digits d → starts_with is_digit (d +:+ rest) = true.
Proof.
  intros [N A]. destruct d as [|c d]; [done|].
  str_simpl. simpl in A. by apply andb_prop in A as [-> _].
Qed.

(** [\d+\.\d+\.\d+$] as a shape. *)
Lemma stable_tail_shape s :
  nonempty (take_while is_digit s)
  && match expect "." (drop_while is_digit s) with
     | Some s =>
         nonempty (take_while is_digit s)
         && match expect "." (drop_while is_digit s) with
            | Some s =>
                nonempty (take_while is_digit s)
                && at_eol (drop_while is_digit s)
            | None => false
            end
     | None => false
     end = true
  ↔ ∃ d1 d2 d3 nl,
      digits d1 ∧ digits d2 ∧ digits d3 ∧ (nl = "" ∨ nl = String newline "")
      ∧ s = d1 +:+ "." +:+ d2 +:+ "." +:+ d3 +:+ nl.
Proof.
  split.
  - intros [N1 H]%andb_prop.
    destruct (expect "." (drop_while is_digit s)) as [s1|] eqn:X1; [|done].
    apply andb_prop in H as [N2 H].
    destruct (expect "." (drop_while is_digit s1)) as [s2|] eqn:X2; [|done].
    apply andb_prop in H as [N3 H]. apply at_eol_spec in H.
    apply expect_some in X1, X2.
    exists (take_while is_digit s), (take_while is_digit s1),
      (take_while is_digit s2), (drop_while is_digit s2).
    split_and!; try (split; [done | apply all_take_while]); [done|].
    rewrite <- (take_drop_while is_digit s) at 1. rewrite X1.
    rewrite <- (take_drop_while is_digit s1) at 1. rewrite X2.
    by rewrite take_drop_while.
  - intros (d1 & d2 & d3 & nl & [N1 A1] & [N2 A2] & [N3 A3] & Hnl & ->).
    assert (starts_with is_digit nl = false) as Hs by (by destruct Hnl as [->| ->]).
    rewrite take_while_app, drop_while_app by done. rewrite N1.
    change (expect "." ("." +:+ ?x)) with (Some x). cbv beta iota.
    rewrite take_while_app, drop_while_app by done. rewrite N2.
    change (expect "." ("." +:+ ?x)) with (Some x). cbv beta iota.
    rewrite take_while_app, drop_while_app by done. rewrite N3.
    simpl. by apply at_eol_spec.
Qed.

Lemma stable_form_shape s : stable_form s = true ↔ stable_shape s.
Proof.
  unfold stable_form, stable_shape. rewrite stable_tail_shape. split.
  - intros (d1 & d2 & d3 & nl & H1 & H2 & H3 & Hnl & Hs).
    destruct (expect "v" s) as [s1|] eqn:X; simpl in Hs.
    + apply expect_some in X. exists "v", d1, d2, d3, nl.
      split_and!; auto. by rewrite X, Hs.
    + exists "", d1, d2, d3, nl. split_and!; auto.
  - intros (v & d1 & d2 & d3 & nl & Hv & H1 & H2 & H3 & Hnl & ->).
    exists d1, d2, d3, nl. split_and!; auto.
    destruct Hv as [->| ->]; [|done].
    rewrite str_app_nil_l.
    pose proof (digits_starts d1 ("." +:+ d2 +:+ "." +:+ d3 +:+ nl) H1) as Hd.
    destruct (d1 +:+ _) as [|c r]; [done|]. simpl in *.
    destruct (Ascii.eqb_spec c "v") as [->|]; [by vm_compute in Hd | done].
Qed.

Lemma prefix_spec sub s : String.prefix sub s = true ↔ ∃ post, s = sub +:+ post.
Proof.
  revert s. induction sub as [|c sub IH]; intros s.
  - split; [intros _; by exists s | by destruct s].
  - destruct s as [|c' s]; simpl; [split; [done | by intros [? ?]]|].
    destruct (Ascii.ascii_dec c c') as [->|Hne].
    + rewrite IH. split; intros [post H]; exists post.
      * rewrite str_app_cons. by rewrite H.
      * rewrite str_app_cons in H. by injection H.
    + split; [done|]. intros [post H]. rewrite str_app_cons in H. congruence.
Qed.

Lemma contains_spec sub s :
  contains sub s = true ↔ ∃ pre post, s = pre +:+ sub +:+ post.
Proof.
  induction s as [|c s IH].
  - change (contains sub "") with (String.prefix sub "" || false).
    rewrite orb_false_r, prefix_spec. split.
    + intros [post H]. by exists "", post.
    + intros (pre & post & H). destruct pre; [by exists post|].
      rewrite str_app_cons in H. done.
  - change (contains sub (String c s))
      with (String.prefix sub (String c s) || contains sub s).
    rewrite orb_true_iff, prefix_spec, IH. split.
    + intros [[post H]|(pre & post & H)].
      * by exists "", post.
      * exists (String c pre), post. by rewrite str_app_cons, H.
    + intros (pre & post & H). destruct pre as [|c' pre].
      * left. by exists post.
      * right. rewrite str_app_cons in H. injection H as -> ->. by exists pre, post.
Qed.

Lemma lower_app_inv s a b :
  lower s = a +:+ b → ∃ s1 s2, s = s1 +:+ s2 ∧ lower s1 = a ∧ lower s2 = b.
Proof.
  revert s. induction a as [|c a IH]; intros s H.
  - by exists "", s.
  - destruct s as [|c' s]; [done|]. rewrite str_app_cons in H. simpl in H.
    injection H as Hc H. apply IH in H as (s1 & s2 & -> & <- & <-).
    exists (String c' s1), s2. by rewrite str_app_cons, <- Hc.
Qed.

(** [sub in s.lower()] is containment when case is ignored. *)
Lemma contains_lower sub s :
  contains sub (lower s) = true ↔ contains_nocase sub s.
Proof.
  rewrite contains_spec. unfold contains_nocase. split.
  - intros (pre & post & H).
    apply lower_app_inv in H as (s1 & s2 & -> & _ & H).
    apply lower_app_inv in H as (s3 & s4 & -> & H & _).
    by exists s1, s3, s4.
  - intros (pre & mid & post & -> & <-).
    exists (lower pre), (lower post). by rewrite !lower_app.
Qed.

Lemma determine_channel_eq s :
  determine_channel s
  = if stable_form s then "stable"
    else if contains "-beta" (lower s) || contains "-rc" (lower s) then "beta"
    else "dev".
Proof.
  unfold determine_channel. rewrite <- re_match_stable.
  by destruct (re_match stable_re s).
Qed.

End ChannelFacts.

(** ** The upsert *)

Module IndexFacts.
Import Str StrFacts ParseFacts.

Lemma filter_r_dicts (cond : option json → bool) (k : string) (items : list json) :
  Forall (λ r, is_dict r = true) items →
  filter_r (λ r, x ← py_get r k; mret (cond x)) items
  = Ok (List.filter (λ r, cond (field k r)) items).
Proof.
  induction 1 as [|r items Hr _ IH]; [done|].
  destruct r; try done. cbn [filter_r]. rewrite IH. simpl.
  by destruct (cond _).
Qed.

Lemma filter_r_ok (cond : option json → bool) (k : string) items l :
  filter_r (λ r, x ← py_get r k; mret (cond x)) items = Ok l →
  Forall (λ r, is_dict r = true) items.
Proof.
  revert l. induction items as [|r items IH]; intros l; [by constructor|].
  cbn [filter_r]. destruct r; try done. simpl.
  destruct (filter_r _ items) eqn:E; [|done].
  intros _. constructor; [done | by eapply IH].
Qed.

Lemma select_releases_ok index cond k l :
  select_releases index cond k = Ok l ↔
  ∃ rel items,
    index !! "releases" = Some rel ∧ py_iter rel = Ok items
    ∧ Forall (λ r, is_dict r = true) items
    ∧ l = List.filter (λ r, cond (field k r)) items.
Proof.
  unfold select_releases, getitem. split.
  - destruct (index !! "releases") as [rel|]; [|done]. simpl.
    destruct (py_iter rel) as [items|] eqn:E; [|done]. simpl.
    intros H. exists rel, items. pose proof (filter_r_ok _ _ _ _ H) as Hd.
    rewrite filter_r_dicts in H by done. injection H as <-. done.
  - intros (rel & items & -> & Hi & Hd & ->). simpl. rewrite Hi. simpl.
    by apply filter_r_dicts.
Qed.

Lemma set_latest_eq ch (index : dict) sorted :
  index !! "releases" = Some (JArr sorted) →
  Forall (λ r, is_dict r = true) sorted →
  set_latest ch index
  = match first_in ch sorted with
    | Some r =>
        match field "version" r with
        | Some v => Ok (<["latest_" +:+ ch := v]> index)
        | None => Raise KeyError
        end
    | None => Ok index
    end.
Proof.
  intros Hrel Hd. unfold set_latest.
  assert (select_releases index (λ x, eq_str x ch) "channel"
          = Ok (List.filter (in_channel ch) sorted)) as ->.
  { apply select_releases_ok. by exists (JArr sorted), sorted. }
  simpl. unfold first_in.
  destruct (List.filter (in_channel ch) sorted) as [|r l] eqn:E; [done|].
  simpl.
  assert (In r sorted) as Hin.
  { eapply (proj1 (List.filter_In (in_channel ch) r sorted)).
    rewrite E. by left. }
  rewrite Forall_forall in Hd. specialize (Hd r (proj2 (list_elem_of_In _ _) Hin)).
  destruct r; try done. simpl. unfold getitem. by destruct (m !! "version").
Qed.

Lemma set_latest_put ch (index : dict) sorted :
  index !! "releases" = Some (JArr sorted) →
  Forall (λ r, is_dict r = true) sorted →
  latest_ok ch sorted →
  set_latest ch index = Ok (put_latest ch sorted index).
Proof.
  intros Hrel Hd Hok. rewrite (set_latest_eq ch index sorted) by done.
  unfold latest_ok, put_latest in *.
  destruct (first_in ch sorted) as [r|]; [|done].
  by destruct Hok as [v ->].
Qed.

Lemma set_latest_inv ch (index : dict) sorted idx' :
  index !! "releases" = Some (JArr sorted) →
  Forall (λ r, is_dict r = true) sorted →
  set_latest ch index = Ok idx' →
  latest_ok ch sorted ∧ idx' = put_latest ch sorted index.
Proof.
  intros Hrel Hd. rewrite (set_latest_eq ch index sorted) by done.
  unfold latest_ok, put_latest.
  destruct (first_in ch sorted) as [r|]; [|by intros [= <-]].
  destruct (field "version" r); [|done]. intros [= <-]. eauto.
Qed.

Lemma latest_ne_releases ch : "latest_" +:+ ch ≠ "releases".
Proof. done. Qed.

Lemma put_latest_releases ch sorted (index : dict) :
  put_latest ch sorted index !! "releases" = index !! "releases".
Proof.
  unfold put_latest. destruct (first_in ch sorted) as [r|]; [|done].
  destruct (field "version" r); [|done].
  by rewrite lookup_insert_ne.
Qed.

Lemma update_index_eq clk (index : dict) version git_tag build_count manifest_url s3_url rel items :
  index !! "releases" = Some rel → py_iter rel = Ok items →
  Forall (λ r, is_dict r = true) items →
  update_index clk index version git_tag build_count manifest_url s3_url
  = (sorted ← sort_reverse tuple_ltb release_key
       (kept_releases version items
        ++ [JObj (new_entry clk version git_tag build_count manifest_url s3_url)]);
     let base := <["updated_at" := JNum (time_now clk)]>
                   (<["releases" := JArr sorted]> index) in
     i1 ← set_latest "stable" base;
     i2 ← set_latest "stable" i1;
     i3 ← set_latest "beta" i2;
     set_latest "dev" i3).
Proof.
  intros Hrel Hit Hd. unfold update_index.
  assert (select_releases index (λ x, negb (eq_str x version)) "version"
          = Ok (kept_releases version items)) as ->.
  { apply select_releases_ok. by exists rel, items. }
  simpl. unfold getitem. rewrite lookup_insert_eq. simpl.
  rewrite lookup_insert_eq. simpl.
  destruct (sort_reverse _ _ _) as [sorted|]; [|done]. simpl.
  rewrite !insert_insert_eq.
  destruct (set_latest "stable" _) as [i1|]; [|done]. simpl.
  destruct (set_latest "stable" i1) as [i2|]; [|done]. simpl.
  destruct (set_latest "beta" i2) as [i3|]; [|done]. simpl.
  by destruct (set_latest "dev" i3).
Qed.

Lemma release_key_dict (m : dict) :
  release_key (JObj m)
  = match m !! "version" with
    | None => parse_version_tuple ""
    | Some (JStr s) => parse_version_tuple s
    | Some _ => Raise AttributeError
    end.
Proof. unfold release_key. simpl. by destruct (m !! "version") as [[]|]. Qed.

Lemma release_key_of r : is_ok (release_key r) = true → release_key r = Ok (key_of r).
Proof. unfold key_of. by destruct (release_key r). Qed.

Lemma sort_reverse_ok l l' :
  sort_reverse tuple_ltb release_key l = Ok l' ↔
  Forall (λ r, is_ok (release_key r) = true) l ∧ l' = sort_on tuple_ltb key_of l.
Proof.
  split.
  - intros H. assert (Forall (λ r, is_ok (release_key r) = true) l) as Hk.
    { unfold sort_reverse in H. destruct (map_r release_key l) eqn:E; [|done].
      by eapply map_r_ok. }
    split; [done|].
    rewrite (sort_reverse_pure tuple_ltb key_of release_key) in H.
    + by injection H.
    + eapply Forall_impl; [exact Hk|]. intros r. apply release_key_of.
  - intros [Hk ->]. apply sort_reverse_pure.
    eapply Forall_impl; [exact Hk|]. intros r. apply release_key_of.
Qed.

Lemma new_entry_fields clk version git_tag build_count manifest_url s3_url :
  let e := new_entry clk version git_tag build_count manifest_url s3_url in
  e !! "version" = Some (JStr version)
  ∧ e !! "channel" = Some (JStr (determine_channel version))
  ∧ e !! "manifest_url" = Some (JStr manifest_url).
Proof.
  unfold new_entry. destruct (nonempty s3_url); simpl; by simplify_map_eq.
Qed.

Lemma new_entry_key clk version git_tag build_count manifest_url s3_url :
  release_key (JObj (new_entry clk version git_tag build_count manifest_url s3_url))
  = parse_version_tuple version.
Proof.
  rewrite release_key_dict.
  by destruct (new_entry_fields clk version git_tag build_count manifest_url s3_url)
    as (-> & _).
Qed.

Lemma dicts_sorted items version e :
  Forall (λ r, is_dict r = true) items →
  Forall (λ r, is_dict r = true) (sorted_releases items version e).
Proof.
  intros Hd. unfold sorted_releases.
  rewrite (sort_on_perm tuple_ltb key_of). apply Forall_app. split.
  - unfold kept_releases. rewrite Forall_forall in *. intros r Hr.
    apply list_elem_of_In, List.filter_In in Hr as [Hr _].
    by apply Hd, list_elem_of_In.
  - by repeat constructor.
Qed.

Lemma put_latest_twice ch sorted (index : dict) :
  put_latest ch sorted (put_latest ch sorted index) = put_latest ch sorted index.
Proof.
  unfold put_latest. destruct (first_in ch sorted) as [r|]; [|done].
  destruct (field "version" r); [|done]. by rewrite insert_insert_eq.
Qed.

(** The upsert returns exactly when the releases can be read, filtered,
    sorted and labelled, and then returns [upsert_result]. *)
Lemma update_index_ok clk (index : dict) version git_tag build_count
    manifest_url s3_url idx' :
  update_index clk index version git_tag build_count manifest_url s3_url = Ok idx'
  ↔ ∃ rel items,
      index !! "releases" = Some rel ∧ py_iter rel = Ok items
      ∧ Forall (λ r, is_dict r = true) items
      ∧ Forall (λ r, is_ok (release_key r) = true) (kept_releases version items)
      ∧ is_ok (parse_version_tuple version) = true
      ∧ let sorted := sorted_releases items version
            (new_entry clk version git_tag build_count manifest_url s3_url) in
        Forall (λ ch, latest_ok ch sorted) channels
        ∧ idx' = upsert_result clk index sorted.
Proof.
  split.
  - intros H.
    assert (∃ kept, select_releases index (λ x, negb (eq_str x version)) "version"
                    = Ok kept) as [kept Hk].
    { unfold update_index in H. destruct (select_releases _ _ _); [eauto | done]. }
    apply select_releases_ok in Hk as (rel & items & Hrel & Hit & Hd & _).
    exists rel, items. split_and!; try done.
    all: rewrite (update_index_eq _ _ _ _ _ _ _ rel items) in H by done.
    all: destruct (sort_reverse _ _ _) as [sorted|] eqn:Hs; [|done].
    all: apply sort_reverse_ok in Hs as [Hkeys Hs]; simpl in H.
    + by apply Forall_app in Hkeys as [? _].
    + apply Forall_app in Hkeys as [_ Hnew]. apply Forall_cons in Hnew as [Hnew _].
      by rewrite new_entry_key in Hnew.
    + fold (sorted_releases items version
              (new_entry clk version git_tag build_count manifest_url s3_url)) in Hs.
      subst sorted.
      set (sorted := sorted_releases _ _ _) in *.
      assert (Forall (λ r, is_dict r = true) sorted) as Hds by by apply dicts_sorted.
      destruct (set_latest "stable" _) as [i1|] eqn:E1; [|done]. simpl in H.
      apply (set_latest_inv _ _ sorted) in E1 as [O1 ->];
        [|by simplify_map_eq|done].
      destruct (set_latest "stable" _) as [i2|] eqn:E2; [|done]. simpl in H.
      apply (set_latest_inv _ _ sorted) in E2 as [_ ->];
        [|by rewrite put_latest_releases; simplify_map_eq|done].
      rewrite put_latest_twice in H.
      destruct (set_latest "beta" _) as [i3|] eqn:E3; [|done]. simpl in H.
      apply (set_latest_inv _ _ sorted) in E3 as [O3 ->];
        [|by rewrite put_latest_releases; simplify_map_eq|done].
      apply (set_latest_inv _ _ sorted) in H as [O4 ->];
        [|by rewrite !put_latest_releases; simplify_map_eq|done].
      split; [|done]. by repeat constructor.
  - intros (rel & items & Hrel & Hit & Hd & Hkeys & Hnew & Hl & ->).
    rewrite (update_index_eq _ _ _ _ _ _ _ rel items) by done.
    rewrite <- (new_entry_key clk version git_tag build_count manifest_url s3_url)
      in Hnew.
    set (e := new_entry _ _ _ _ _ _) in *.
    assert (sort_reverse tuple_ltb release_key (kept_releases version items ++ [JObj e])
            = Ok (sorted_releases items version e)) as ->.
    { apply sort_reverse_ok. split; [|done].
      apply Forall_app. split; [done|]. by repeat constructor. }
    simpl. set (sorted := sorted_releases _ _ _) in *.
    assert (Forall (λ r, is_dict r = true) sorted) as Hds by by apply dicts_sorted.
    apply Forall_cons in Hl as [O1 Hl]. apply Forall_cons in Hl as [O2 Hl].
    apply Forall_cons in Hl as [O3 _].
    rewrite (set_latest_put _ _ sorted) by (done || by simplify_map_eq). simpl.
    rewrite (set_latest_put _ _ sorted)
      by (done || by rewrite put_latest_releases; simplify_map_eq). simpl.
    rewrite put_latest_twice.
    rewrite (set_latest_put _ _ sorted)
      by (done || by rewrite put_latest_releases; simplify_map_eq). simpl.
    rewrite (set_latest_put _ _ sorted)
      by (done || by rewrite !put_latest_releases; simplify_map_eq).
    done.
Qed.

Lemma upsert_result_releases clk (index : dict) sorted :
  upsert_result clk index sorted !! "releases" = Some (JArr sorted).
Proof.
  unfold upsert_result. rewrite !put_latest_releases. by simplify_map_eq.
Qed.

Lemma put_latest_lookup ch sorted (index : dict) k :
  put_latest ch sorted index !! k
  = if decide (k = "latest_" +:+ ch) then
      match first_in ch sorted with
      | Some r => match field "version" r with Some v => Some v | None => index !! k end
      | None => index !! k
      end
    else index !! k.
Proof.
  unfold put_latest. destruct (first_in ch sorted) as [r|]; [|by case_decide].
  destruct (field "version" r); [|by case_decide].
  rewrite lookup_insert. repeat case_decide; congruence.
Qed.

(** The fields the upsert writes. *)
Lemma upsert_result_lookup clk (index : dict) sorted k :
  upsert_result clk index sorted !! k
  = if decide (k = "releases") then Some (JArr sorted)
    else if decide (k = "updated_at") then Some (JNum (time_now clk))
    else match List.find (λ ch, bool_decide (k = "latest_" +:+ ch)) channels with
         | Some ch =>
             match first_in ch sorted with
             | Some r => match field "version" r with Some v => Some v | None => index !! k end
             | None => index !! k
             end
         | None => index !! k
         end.
Proof.
  unfold upsert_result. rewrite !put_latest_lookup, !lookup_insert.
  unfold channels, List.find.
  repeat (case_decide; subst; simpl; try done).
  all: repeat (case_bool_decide; subst; simpl; try done).
Qed.

Lemma upsert_result_idem clk (index : dict) sorted :
  upsert_result clk (upsert_result clk index sorted) sorted
  = upsert_result clk index sorted.
Proof.
  apply map_eq. intros k. rewrite (upsert_result_lookup clk (upsert_result _ _ _)).
  rewrite !upsert_result_lookup.
  repeat case_decide; try done.
  destruct (List.find _ channels) as [ch|]; [|done].
  destruct (first_in ch sorted) as [r|]; [|done].
  by destruct (field "version" r).
Qed.

Lemma filter_idem {B} (p : B → bool) (l : list B) :
  List.filter p (List.filter p l) = List.filter p l.
Proof.
  induction l as [|x l IH]; simpl; [done|].
  destruct (p x) eqn:E; simpl; rewrite ?E, IH; done.
Qed.

Lemma filter_none {B} (p : B → bool) (l : list B) :
  Forall (λ x, p x = false) l → List.filter p l = [].
Proof. induction 1 as [|x l Hx _ IH]; simpl; [done|]. by rewrite Hx. Qed.

Lemma filter_perm {B} (p : B → bool) (l l' : list B) :
  l ≡ₚ l' → List.filter p l ≡ₚ List.filter p l'.
Proof.
  induction 1 as [|x l l' _ IH|x y l|l l' l'' _ IH1 _ IH2]; simpl.
  - done.
  - destruct (p x); by rewrite IH.
  - destruct (p x), (p y); try done. apply Permutation_swap.
  - by rewrite IH1.
Qed.

Lemma has_version_new clk version git_tag build_count manifest_url s3_url w :
  has_version w (JObj (new_entry clk version git_tag build_count manifest_url s3_url))
  = String.eqb version w.
Proof.
  unfold has_version. simpl.
  by destruct (new_entry_fields clk version git_tag build_count manifest_url s3_url)
    as (-> & _).
Qed.

(** Sorting the sorted releases again, with the same entry, changes nothing. *)
Lemma sorted_releases_again items version clk git_tag build_count manifest_url s3_url :
  let e := new_entry clk version git_tag build_count manifest_url s3_url in
  sorted_releases (sorted_releases items version e) version e
  = sorted_releases items version e.
Proof.
  intros e. unfold sorted_releases at 1 3.
  assert (kept_releases version (sorted_releases items version e)
          = sort_on tuple_ltb key_of (kept_releases version items)) as ->.
  { unfold sorted_releases, kept_releases.
    rewrite (sort_on_filter tuple_ltb tuple_ltb_asym tuple_ltb_negtrans
               tuple_ltb_tricho).
    rewrite List.filter_app, filter_idem. simpl.
    unfold e at 1. rewrite has_version_new, String.eqb_refl. simpl.
    by rewrite app_nil_r. }
  apply (sort_on_sort_app tuple_ltb tuple_ltb_asym tuple_ltb_negtrans
           tuple_ltb_tricho).
Qed.

Lemma kept_sorted_perm items version e :
  kept_releases version (sorted_releases items version e)
  ≡ₚ kept_releases version (kept_releases version items ++ [JObj e]).
Proof.
  unfold sorted_releases, kept_releases at 1 2. apply filter_perm.
  apply (sort_on_perm tuple_ltb).
Qed.

Lemma update_index_again clk (index : dict) version git_tag build_count
    manifest_url s3_url idx' :
  update_index clk index version git_tag build_count manifest_url s3_url = Ok idx' →
  update_index clk idx' version git_tag build_count manifest_url s3_url = Ok idx'.
Proof.
  intros H. apply update_index_ok in H
    as (rel & items & Hrel & Hit & Hd & Hkeys & Hnew & Hl & ->).
  set (e := new_entry clk version git_tag build_count manifest_url s3_url) in *.
  set (sorted := sorted_releases items version e) in *.
  apply update_index_ok. exists (JArr sorted), sorted.
  assert (sorted_releases sorted version e = sorted) as Hs
    by apply sorted_releases_again.
  split_and!.
  - apply upsert_result_releases.
  - done.
  - by apply dicts_sorted.
  - unfold sorted. rewrite kept_sorted_perm.
    unfold kept_releases at 1. rewrite List.filter_app. apply Forall_app. split.
    + fold (kept_releases version (kept_releases version items)).
      unfold kept_releases at 1. rewrite Forall_forall in *. intros r Hr.
      apply list_elem_of_In, List.filter_In in Hr as [Hr _].
      by apply Hkeys, list_elem_of_In.
    + simpl. unfold e. rewrite has_version_new, String.eqb_refl. constructor.
  - done.
  - fold e. rewrite Hs. split; [done|]. by rewrite upsert_result_idem.
Qed.

(** *** Releases are keyed by version *)

Lemma count_version_perm w l l' : l ≡ₚ l' → count_version w l = count_version w l'.
Proof. intros H. unfold count_version. by rewrite (filter_perm _ _ _ H). Qed.

Lemma count_version_app w l l' :
  count_version w (l ++ l') = (count_version w l + count_version w l')%nat.
Proof. unfold count_version. by rewrite List.filter_app, length_app. Qed.

Lemma has_version_two r v w :
  has_version v r = true → has_version w r = true → v = w.
Proof.
  unfold has_version, eq_str. destruct (field "version" r) as [[]|]; try done.
  intros ->%String.eqb_eq ->%String.eqb_eq. done.
Qed.

Lemma count_version_kept w version items :
  count_version w (kept_releases version items)
  = if decide (w = version) then 0%nat else count_version w items.
Proof.
  unfold count_version, kept_releases. case_decide as Hw.
  - subst w. rewrite filter_none; [done|].
    rewrite Forall_forall. intros r Hr.
    apply list_elem_of_In, List.filter_In in Hr as [_ Hr].
    by apply negb_true_iff in Hr.
  - f_equal. induction items as [|r items IH]; simpl; [done|].
    destruct (has_version version r) eqn:Hv; simpl.
    + destruct (has_version w r) eqn:Hw'; [|done].
      by destruct Hw; apply (has_version_two r).
    + by rewrite IH.
Qed.

Lemma count_version_sorted w items version clk git_tag build_count manifest_url s3_url :
  count_version w (sorted_releases items version
     (new_entry clk version git_tag build_count manifest_url s3_url))
  = if decide (w = version) then 1%nat else count_version w items.
Proof.
  unfold sorted_releases.
  rewrite (count_version_perm _ _ _ (sort_on_perm tuple_ltb key_of _)).
  rewrite count_version_app, count_version_kept.
  unfold count_version at 2. simpl. rewrite has_version_new.
  case_decide as Hw.
  - subst. by rewrite String.eqb_refl.
  - destruct (String.eqb_spec version w); [done|]. simpl. lia.
Qed.

Lemma length_sorted items version e :
  (List.length (sorted_releases items version e)
   + count_version version items = List.length items + 1)%nat.
Proof.
  unfold sorted_releases.
  rewrite (Permutation_length (sort_on_perm tuple_ltb key_of _)).
  rewrite length_app. simpl. unfold kept_releases, count_version.
  pose proof (List.filter_length (has_version version) items). lia.
Qed.

Lemma sorted_version_entry items version e r :
  r ∈ sorted_releases items version e → has_version version r = true → r = JObj e.
Proof.
  unfold sorted_releases. rewrite (sort_on_perm tuple_ltb key_of).
  rewrite elem_of_app. intros [Hr|Hr] Hv.
  - unfold kept_releases in Hr.
    apply list_elem_of_In, List.filter_In in Hr as [_ Hr]. by rewrite Hv in Hr.
  - by apply list_elem_of_singleton in Hr.
Qed.

(** *** A well-formed index of short versions is always updated *)

Lemma wf_release_dict r : wf_release r → is_dict r = true.
Proof. by intros (m & v & -> & _). Qed.

Lemma wf_release_key r :
  wf_release r → (∀ v, field "version" r = Some (JStr v) → short v) →
  is_ok (release_key r) = true.
Proof.
  intros (m & v & -> & Hv) Hs. rewrite release_key_dict, Hv.
  by destruct (parse_version_tuple_short v (Hs v Hv)) as [t ->].
Qed.

Lemma wf_new_entry clk version git_tag build_count manifest_url s3_url :
  wf_release (JObj (new_entry clk version git_tag build_count manifest_url s3_url)).
Proof.
  eexists _, version. split; [done|]. apply new_entry_fields.
Qed.

Lemma wf_sorted items version clk git_tag build_count manifest_url s3_url :
  Forall wf_release items →
  Forall wf_release (sorted_releases items version
    (new_entry clk version git_tag build_count manifest_url s3_url)).
Proof.
  intros Hwf. unfold sorted_releases. rewrite (sort_on_perm tuple_ltb key_of).
  apply Forall_app. split.
  - unfold kept_releases. rewrite Forall_forall in *. intros r Hr.
    apply list_elem_of_In, List.filter_In in Hr as [Hr _].
    by apply Hwf, list_elem_of_In.
  - repeat constructor. apply wf_new_entry.
Qed.

Lemma wf_latest_ok ch sorted : Forall wf_release sorted → latest_ok ch sorted.
Proof.
  intros Hwf. unfold latest_ok, first_in.
  destruct (List.filter (in_channel ch) sorted) as [|r l] eqn:E; [done|]. simpl.
  assert (In r sorted) as Hin.
  { eapply (proj1 (List.filter_In (in_channel ch) r sorted)). rewrite E. by left. }
  rewrite Forall_forall in Hwf.
  destruct (Hwf r (proj2 (list_elem_of_In _ _) Hin)) as (m & v & -> & Hv).
  simpl. by rewrite Hv.
Qed.

Lemma short_sorted items version clk git_tag build_count manifest_url s3_url :
  short_versions items → short version →
  short_versions (sorted_releases items version
    (new_entry clk version git_tag build_count manifest_url s3_url)).
Proof.
  intros Hs Hv. unfold short_versions, sorted_releases.
  rewrite (sort_on_perm tuple_ltb key_of). apply Forall_app. split.
  - unfold kept_releases. unfold short_versions in Hs.
    rewrite Forall_forall in *. intros r Hr.
    apply list_elem_of_In, List.filter_In in Hr as [Hr _].
    by apply Hs, list_elem_of_In.
  - repeat constructor. intros v. simpl.
    destruct (new_entry_fields clk version git_tag build_count manifest_url s3_url)
      as (-> & _).
    by intros [= <-].
Qed.

Lemma update_index_total clk (index : dict) version git_tag build_count
    manifest_url s3_url :
  wf_index index → short_versions (releases_of index) → short version →
  ∃ idx', update_index clk index version git_tag build_count manifest_url s3_url
          = Ok idx' ∧ wf_index idx' ∧ short_versions (releases_of idx').
Proof.
  intros (l & Hrel & Hwf) Hshort Hv. unfold releases_of in Hshort.
  rewrite Hrel in Hshort.
  set (e := new_entry clk version git_tag build_count manifest_url s3_url).
  exists (upsert_result clk index (sorted_releases l version e)). split_and!.
  - apply update_index_ok. exists (JArr l), l. split_and!; try done.
    + eapply Forall_impl; [exact Hwf|]. apply wf_release_dict.
    + unfold kept_releases, short_versions in *. rewrite Forall_forall in *.
      intros r Hr. apply list_elem_of_In, List.filter_In in Hr as [Hr _].
      apply list_elem_of_In in Hr. apply wf_release_key; [by apply Hwf | by apply Hshort].
    + by destruct (parse_version_tuple_short version Hv) as [t ->].
    + fold e. split; [|done].
      repeat constructor; apply wf_latest_ok; by apply wf_sorted.
  - eexists. split; [apply upsert_result_releases|]. by apply wf_sorted.
  - unfold releases_of. rewrite upsert_result_releases. by apply short_sorted.
Qed.

End IndexFacts.

(** ** The manifest generator *)

Module ManifestFacts.
Import Str StrFacts.

Lemma rstrip_spec c s :
  ∃ n, s = rstrip c s +:+ repeat_char c n ∧ ends_with c (rstrip c s) = false.
Proof.
  induction s as [|c' s (n & IH1 & IH2)].
  - by exists 0%nat.
  - simpl. destruct (rstrip c s) as [|c'' r] eqn:E.
    + destruct (Ascii.eqb_spec c' c) as [->|Hne].
      * exists (S n). rewrite IH1 at 1. done.
      * exists n. rewrite IH1 at 1. split; [done|]. simpl. by apply Ascii.eqb_neq.
    + exists n. rewrite IH1 at 1. done.
Qed.

Lemma extract_fields f metadata :
  extract_px4_metadata f = Some metadata →
  metadata !! "filename" = Some (JStr (file_name f)) ∧ metadata !! "url" = None.
Proof.
  unfold extract_px4_metadata.
  destruct (file_json f) as [[| | | | |data]|]; try done.
  destruct (_ || _); [done|].
  destruct (data !! "manifest") as [m|]; [destruct (truthy m)|];
    intros [= <-]; by simplify_map_eq.
Qed.

Lemma with_url_entry base_url f metadata :
  extract_px4_metadata f = Some metadata →
  ∃ b, with_url base_url metadata = Ok b ∧ entry_of base_url f = Some b.
Proof.
  intros H. destruct (extract_fields f metadata H) as [Hfn _].
  unfold with_url, entry_of. rewrite H. simpl.
  destruct (nonempty base_url); [|eauto].
  unfold getitem. rewrite Hfn. simpl. rewrite str_app_assoc. eauto.
Qed.

Lemma collect_builds_eq base_url px4_files builds :
  collect_builds base_url px4_files builds
  = Ok (builds ++ surviving base_url px4_files).
Proof.
  revert builds. induction px4_files as [|f fs IH]; intros builds; simpl.
  - by rewrite app_nil_r.
  - unfold surviving. simpl.
    destruct (extract_px4_metadata f) as [metadata|] eqn:E.
    + destruct (with_url_entry base_url f metadata E) as (b & -> & ->).
      simpl. rewrite IH. by rewrite <- app_assoc.
    + unfold entry_of at 1. rewrite E. simpl. apply IH.
Qed.

Lemma entry_of_fields base_url f b :
  entry_of base_url f = Some b →
  b !! "filename" = Some (JStr (file_name f))
  ∧ b !! "url" = if nonempty base_url
                 then Some (JStr (rstrip "/" base_url +:+ "/" +:+ file_name f))
                 else None.
Proof.
  unfold entry_of. destruct (extract_px4_metadata f) as [metadata|] eqn:E; [|done].
  destruct (extract_fields f metadata E) as [Hfn Hurl]. simpl.
  intros [= <-]. destruct (nonempty base_url); by simplify_map_eq.
Qed.

Lemma surviving_length base_url px4_files :
  List.length (surviving base_url px4_files)
  = List.length (omap extract_px4_metadata px4_files).
Proof.
  unfold surviving. induction px4_files as [|f fs IH]; csimpl; [done|].
  unfold entry_of at 1. destruct (extract_px4_metadata f); csimpl; by rewrite ?IH.
Qed.

Section SortAscFacts.
Context {K A : Type} (lt : K → K → result bool).

Lemma insert_asc_perm (x : K * A) l r : insert_asc lt x l = Ok r → r ≡ₚ x :: l.
Proof.
  revert r. induction l as [|y l IH]; intros r; simpl.
  - by intros [= <-].
  - destruct (lt y.1 x.1) as [[]|]; simpl; [| by intros [= <-] | done].
    destruct (insert_asc lt x l) as [r'|]; simpl; [|done].
    intros [= <-]. rewrite (IH r') by done. apply Permutation_swap.
Qed.

Lemma sort_asc_perm (l r : list (K * A)) : sort_asc lt l = Ok r → r ≡ₚ l.
Proof.
  revert r. induction l as [|x l IH]; intros r; simpl.
  - by intros [= <-].
  - destruct (sort_asc lt l) as [r'|]; simpl; [|done].
    intros H%insert_asc_perm. by rewrite H, (IH r').
Qed.

Lemma map_r_length {B C} (g : B → result C) l r :
  map_r g l = Ok r → List.length r = List.length l.
Proof.
  revert r. induction l as [|x l IH]; intros r; simpl.
  - by intros [= <-].
  - destruct (g x); simpl; [|done]. destruct (map_r g l) as [r'|]; simpl; [|done].
    intros [= <-]. simpl. by rewrite (IH r').
Qed.

Lemma sort_by_perm (key : A → result K) (l r : list A) :
  sort_by lt key l = Ok r → r ≡ₚ l.
Proof.
  unfold sort_by. destruct (map_r key l) as [keys|] eqn:Hk; simpl; [|done].
  destruct (sort_asc lt (zip keys l)) as [r'|] eqn:Hs; simpl; [|done].
  intros [= <-]. rewrite (sort_asc_perm _ _ Hs).
  apply map_r_length in Hk. rewrite snd_zip by lia. done.
Qed.

Lemma sort_by_nil (key : A → result K) : sort_by lt key [] = Ok [].
Proof. reflexivity. Qed.

(** The sort returns when no comparison of two keys of the list raises. *)
Lemma insert_asc_ok (P : K → Prop) (x : K * A) l :
  (∀ a b, P a → P b → is_ok (lt a b) = true) →
  P x.1 → Forall (λ y, P y.1) l →
  ∃ r, insert_asc lt x l = Ok r.
Proof.
  intros Hlt Hx. induction 1 as [|y l Hy _ (r & IH)]; simpl; [eauto|].
  specialize (Hlt y.1 x.1 Hy Hx). destruct (lt y.1 x.1) as [[]|]; simpl; [|eauto|done].
  rewrite IH. simpl. eauto.
Qed.

Lemma sort_asc_ok (P : K → Prop) (l : list (K * A)) :
  (∀ a b, P a → P b → is_ok (lt a b) = true) →
  Forall (λ y, P y.1) l →
  ∃ r, sort_asc lt l = Ok r.
Proof.
  intros Hlt. induction 1 as [|x l Hx Hl (r & IH)]; simpl; [eauto|].
  rewrite IH. simpl. apply (insert_asc_ok P); [done..|].
  apply sort_asc_perm in IH. by rewrite IH.
Qed.
End SortAscFacts.

Lemma generate_release_manifest_ok clk px4_files version git_tag base_url manifest :
  generate_release_manifest clk px4_files version git_tag base_url = Ok manifest →
  ∃ builds,
    builds ≡ₚ surviving base_url px4_files
    ∧ manifest !! "builds" = Some (JArr (JObj <$> builds))
    ∧ manifest !! "build_count" = Some (JNum (Z.of_nat (List.length builds))).
Proof.
  unfold generate_release_manifest. rewrite collect_builds_eq. simpl.
  destruct (sort_by py_lt build_key _) as [builds|] eqn:Hs; simpl; [|done].
  intros [= <-]. exists builds. split_and!; [|by simplify_map_eq..].
  by apply sort_by_perm in Hs.
Qed.

Lemma generate_release_manifest_empty clk px4_files version git_tag base_url :
  omap extract_px4_metadata px4_files = [] →
  ∃ manifest,
    generate_release_manifest clk px4_files version git_tag base_url = Ok manifest
    ∧ manifest !! "builds" = Some (JArr [])
    ∧ manifest !! "build_count" = Some (JNum 0).
Proof.
  intros H. unfold generate_release_manifest. rewrite collect_builds_eq. simpl.
  pose proof (surviving_length base_url px4_files) as Hl. rewrite H in Hl.
  destruct (surviving base_url px4_files); [|done]. simpl.
  eexists. split; [done|]. by simplify_map_eq.
Qed.

Lemma map_r_forall2 {B C} (g : B → result C) (Q : C → Prop) l :
  Forall (λ x, ∃ y, g x = Ok y ∧ Q y) l →
  ∃ r, map_r g l = Ok r ∧ Forall Q r.
Proof.
  induction 1 as [|x l (y & Hy & Qy) _ (r & IH & Hr)]; simpl; [eauto|].
  rewrite Hy, IH. simpl. eauto.
Qed.

Lemma generate_release_manifest_total clk px4_files version git_tag base_url :
  Forall string_key (surviving base_url px4_files) →
  ∃ manifest,
    generate_release_manifest clk px4_files version git_tag base_url = Ok manifest.
Proof.
  intros Hk. unfold generate_release_manifest. rewrite collect_builds_eq. simpl.
  assert (∃ r, sort_by py_lt build_key (surviving base_url px4_files) = Ok r)
    as [r ->]; [|simpl; eauto].
  unfold sort_by.
  destruct (map_r_forall2 build_key (λ k, ∃ s, k = JStr s)
              (surviving base_url px4_files)) as (keys & -> & Hkeys).
  { eapply Forall_impl; [exact Hk|]. intros b [k Hb]. eauto. }
  simpl.
  destruct (sort_asc_ok py_lt (λ k, ∃ s, k = JStr s)
              (zip keys (surviving base_url px4_files))) as [r' ->].
  - by intros a b [? ->] [? ->].
  - clear Hk. revert Hkeys. generalize (surviving base_url px4_files).
    induction keys as [|k keys IH]; intros l Hkeys; [constructor|].
    destruct l; [constructor|]. apply Forall_cons in Hkeys as [? ?].
    constructor; [done | by apply IH].
  - simpl. eauto.
Qed.

End ManifestFacts.

(** * The properties of the release catalogue *)

Import Str StrFacts ReFacts ParseFacts ChannelFacts IndexFacts ManifestFacts.

Lemma is_ok_value {A} (d : A) (m : result A) :
  is_ok m = true → m = Ok (value_of d m).
Proof. by destruct m. Qed.

(** ** The version parser and the classifier *)

Lemma parse_prefix s d1 d2 d3 rest :
  digits d1 → digits d2 → digits d3 → starts_with is_digit rest = false →
  lstrip "v" s = d1 +:+ "." +:+ d2 +:+ "." +:+ d3 +:+ rest →
  parse_version_tuple s
  = let m := scan_prerelease rest
               (<[3%nat := d3]> (<[2%nat := d2]> (<[1%nat := d1]> ∅))) in
    if convertible m then Ok (tuple_of m) else Raise ValueError.
Proof.
  intros H1 H2 H3 Hr Hs.
  by rewrite parse_version_tuple_scan, Hs, scan_version_prefix.
Qed.

Lemma take_while_none p s : starts_with p s = false → take_while p s = "".
Proof. destruct s as [|c s]; simpl; [done | by intros ->]. Qed.

Lemma digit_not_alpha c : is_digit c = true → is_alpha c = false.
Proof.
  unfold is_digit, is_alpha. intros [H1 H2]%andb_prop.
  apply N.leb_le in H1, H2.
  apply orb_false_iff. split; apply andb_false_iff; left; apply N.leb_gt; lia.
Qed.

(** Without a tag the optional part of the pattern matches nothing. *)
Lemma scan_prerelease_none rest caps :
  has_tag rest = false → scan_prerelease rest caps = caps.
Proof.
  unfold has_tag, scan_prerelease. destruct (expect "-" rest) as [r|]; [|done].
  intros Hr. by rewrite (take_while_none _ _ Hr).
Qed.

(** The tag is the longest run of letters after the [-], the number the
    longest run of digits after the tag. *)
Lemma scan_prerelease_tag tag num rest' caps :
  letters tag → num = "" ∨ digits num →
  starts_with is_digit rest' = false →
  (num = "" → starts_with is_alpha rest' = false) →
  scan_prerelease ("-" +:+ tag +:+ num +:+ rest') caps
  = if nonempty num then <[5%nat := num]> (<[4%nat := tag]> caps)
    else <[4%nat := tag]> caps.
Proof.
  intros [Nt At] Hnum Hd Ha. unfold scan_prerelease.
  change (expect "-" ("-" +:+ ?x)) with (Some x). cbv beta iota.
  assert (starts_with is_alpha (num +:+ rest') = false) as Hs.
  { destruct Hnum as [->|[Nn An]]; [by apply Ha|]. destruct num as [|c n]; [done|].
    str_simpl. simpl in An. apply andb_prop in An as [Hc _].
    by apply digit_not_alpha. }
  rewrite take_while_app, drop_while_app by done. rewrite Nt.
  assert (take_while is_digit (num +:+ rest') = num) as ->; [|done].
  destruct Hnum as [->|[_ An]]; [by apply take_while_none|].
  by apply take_while_app.
Qed.

Lemma captures_lookup d1 d2 d3 tag num :
  let m0 : captures := <[3%nat := d3]> (<[2%nat := d2]> (<[1%nat := d1]> ∅)) in
  let m4 : captures := <[4%nat := tag]> m0 in
  let m5 : captures := <[5%nat := num]> m4 in
  (m0 !! 1%nat = Some d1 ∧ m0 !! 2%nat = Some d2 ∧ m0 !! 3%nat = Some d3
   ∧ m0 !! 4%nat = None ∧ m0 !! 5%nat = None)
  ∧ (m4 !! 1%nat = Some d1 ∧ m4 !! 2%nat = Some d2 ∧ m4 !! 3%nat = Some d3
     ∧ m4 !! 4%nat = Some tag ∧ m4 !! 5%nat = None)
  ∧ (m5 !! 1%nat = Some d1 ∧ m5 !! 2%nat = Some d2 ∧ m5 !! 3%nat = Some d3
     ∧ m5 !! 4%nat = Some tag ∧ m5 !! 5%nat = Some num).
Proof. intros m0 m4 m5. unfold m5, m4, m0. split_and!; by simplify_map_eq. Qed.

(** The tuple of a string that begins with three numbers and no tag. *)
Lemma parse_untagged s d1 d2 d3 rest :
  digits d1 → digits d2 → digits d3 → starts_with is_digit rest = false →
  lstrip "v" s = d1 +:+ "." +:+ d2 +:+ "." +:+ d3 +:+ rest →
  has_tag rest = false →
  parse_version_tuple s
  = if within_limit d1 && within_limit d2 && within_limit d3
    then Ok (digits_value 0 d1, digits_value 0 d2, digits_value 0 d3, "zzz", 0)
    else Raise ValueError.
Proof.
  intros H1 H2 H3 Hr Hs Ht.
  rewrite (parse_prefix s d1 d2 d3 rest) by done.
  rewrite scan_prerelease_none by done. cbv zeta.
  destruct (captures_lookup d1 d2 d3 "" "") as ((E1 & E2 & E3 & E4 & E5) & _).
  unfold convertible, tuple_of. rewrite E1, E2, E3, E4, E5. simpl.
  change (within_limit "") with true. by rewrite andb_true_r.
Qed.

(** The tuple of a string that begins with three numbers and a tag. *)
Lemma parse_tagged s d1 d2 d3 tag num rest' :
  digits d1 → digits d2 → digits d3 → letters tag → num = "" ∨ digits num →
  starts_with is_digit rest' = false →
  (num = "" → starts_with is_alpha rest' = false) →
  lstrip "v" s
  = d1 +:+ "." +:+ d2 +:+ "." +:+ d3 +:+ "-" +:+ tag +:+ num +:+ rest' →
  parse_version_tuple s
  = if within_limit d1 && within_limit d2 && within_limit d3 && within_limit num
    then Ok (digits_value 0 d1, digits_value 0 d2, digits_value 0 d3,
             lower tag, digits_value 0 num)
    else Raise ValueError.
Proof.
  intros H1 H2 H3 Ht Hn Hd Ha Hs.
  rewrite (parse_prefix s d1 d2 d3 ("-" +:+ tag +:+ num +:+ rest')) by done.
  rewrite scan_prerelease_tag by done. cbv zeta.
  destruct (captures_lookup d1 d2 d3 tag num)
    as (_ & (E1 & E2 & E3 & E4 & E5) & (F1 & F2 & F3 & F4 & F5)).
  destruct Ht as [Nt _].
  destruct Hn as [->|[Nn _]]; simpl.
  - unfold convertible, tuple_of. rewrite E1, E2, E3, E4, E5. simpl.
    by rewrite Nt.
  - rewrite Nn. unfold convertible, tuple_of. rewrite F1, F2, F3, F4, F5. simpl.
    by rewrite Nt, Nn.
Qed.

Lemma sentinel_le major minor patch tag num :
  0 ≤ major → 0 ≤ minor → 0 ≤ patch → 0 ≤ num →
  (major, minor, patch) ≠ (0, 0, 0) ∨ String.ltb tag "zzz" = false →
  tuple_le sentinel (major, minor, patch, tag, num).
Proof.
  intros H1 H2 H3 H4 Hc. unfold tuple_le, tuple_ltb, tuple_compare, sentinel.
  destruct (Z.compare_spec major 0) as [->| |]; [|lia|done].
  destruct (Z.compare_spec minor 0) as [->| |]; [|lia|done].
  destruct (Z.compare_spec patch 0) as [->| |]; [|lia|done].
  destruct Hc as [Hc|Hc]; [done|]. unfold String.ltb in Hc.
  destruct (String.compare tag "zzz"); [|done..].
  destruct (Z.compare_spec num 0); [done | lia | done].
Qed.

(** C3, as the code has it.  The leading [v]s are all stripped.  If what
    remains does not begin with [MAJOR.MINOR.PATCH], the result is the
    sentinel [(0,0,0,"zzz",0)].  If it does, the result is read from that
    beginning, whatever follows the part the pattern recognises: the three
    numbers with the tag [zzz] and the number 0 when no [-] and letter
    follow, and else with the letters after the [-] in lower case and the
    digits after them, 0 if there are none; a number of more digits than
    [int] converts makes the parser raise [ValueError].  The sentinel is at
    or below every tuple the parser returns, those of a 0.0.0 version with
    a tag before [zzz] left aside. *)
Theorem parse_version_sentinel s :
  (¬ version_prefix (lstrip "v" s) → parse_version_tuple s = Ok sentinel)
  ∧ (∀ d1 d2 d3 rest,
       digits d1 → digits d2 → digits d3 → starts_with is_digit rest = false →
       lstrip "v" s = d1 +:+ "." +:+ d2 +:+ "." +:+ d3 +:+ rest →
       (has_tag rest = false →
        parse_version_tuple s
        = if within_limit d1 && within_limit d2 && within_limit d3
          then Ok (digits_value 0 d1, digits_value 0 d2, digits_value 0 d3,
                   "zzz", 0)
          else Raise ValueError)
       ∧ (∀ tag num rest',
            letters tag → num = "" ∨ digits num →
            starts_with is_digit rest' = false →
            (num = "" → starts_with is_alpha rest' = false) →
            rest = "-" +:+ tag +:+ num +:+ rest' →
            parse_version_tuple s
            = if within_limit d1 && within_limit d2 && within_limit d3
                 && within_limit num
              then Ok (digits_value 0 d1, digits_value 0 d2, digits_value 0 d3,
                       lower tag, digits_value 0 num)
              else Raise ValueError))
  ∧ (∀ major minor patch tag num,
       parse_version_tuple s = Ok (major, minor, patch, tag, num) →
       (major, minor, patch) ≠ (0, 0, 0) ∨ String.ltb tag "zzz" = false →
       tuple_le sentinel (major, minor, patch, tag, num)).
Proof.
  split_and!.
  - intros Hno. rewrite parse_version_tuple_scan.
    destruct (scan_version (lstrip "v" s)) as [m|] eqn:E; [|done].
    destruct Hno. apply version_prefix_scan. by rewrite E.
  - intros d1 d2 d3 rest H1 H2 H3 Hr Hs. split.
    + intros Ht. by apply (parse_untagged s d1 d2 d3 rest).
    + intros tag num rest' Ht Hn Hd Ha ->.
      by apply (parse_tagged s d1 d2 d3 tag num rest').
  - intros major minor patch tag num Hp Hc.
    apply parse_version_tuple_nonneg in Hp as (? & ? & ? & ?).
    by apply sentinel_le.
Qed.

Lemma not_version_prefix_garbage : ¬ version_prefix (lstrip "v" "garbage").
Proof.
  rewrite version_prefix_scan. vm_compute. intros [m H]. discriminate H.
Defined.

Lemma parse_version_sentinel_witness :
  parse_version_tuple "garbage" = Ok sentinel
  ∧ parse_version_tuple "vv1.2.3garbage" = Ok (1, 2, 3, "zzz", 0)
  ∧ parse_version_tuple "v1.2.3-RC4+build" = Ok (1, 2, 3, "rc", 4)
  ∧ tuple_le sentinel (0, 0, 0, "zzz", 0)
  ∧ tuple_le sentinel (1, 14, 0, "rc", 2).
Proof.
  split_and!.
  - apply (proj1 (parse_version_sentinel "garbage")), not_version_prefix_garbage.
  - apply (proj1 (proj1 (proj2 (parse_version_sentinel "vv1.2.3garbage"))
             "1" "2" "3" "garbage"
             (conj eq_refl eq_refl) (conj eq_refl eq_refl) (conj eq_refl eq_refl)
             eq_refl eq_refl)).
    reflexivity.
  - apply (proj2 (proj1 (proj2 (parse_version_sentinel "v1.2.3-RC4+build"))
             "1" "2" "3" "-RC4+build"
             (conj eq_refl eq_refl) (conj eq_refl eq_refl) (conj eq_refl eq_refl)
             eq_refl eq_refl) "RC" "4" "+build");
      [split; reflexivity | right; split; reflexivity | reflexivity
      | discriminate | reflexivity].
  - apply (proj2 (proj2 (parse_version_sentinel "v0.0.0"))); [reflexivity|].
    right. reflexivity.
  - apply (proj2 (proj2 (parse_version_sentinel "v1.14.0-rc2"))); [reflexivity|].
    left. discriminate.
Defined.

(** C3 as worded fails: [v1.2.3garbage] and [vv1.2.3] are outside the
    grammar and are given the tuple of [1.2.3], not the sentinel; and the
    tuple of [v0.0.0-rc1] is below the sentinel. *)
Lemma parse_beyond_grammar :
  version_grammar "v1.2.3garbage" = false
  ∧ parse_version_tuple "v1.2.3garbage" = Ok (1, 2, 3, "zzz", 0)
  ∧ (1, 2, 3, "zzz", 0) ≠ sentinel
  ∧ version_grammar "vv1.2.3" = false
  ∧ parse_version_tuple "vv1.2.3" = Ok (1, 2, 3, "zzz", 0)
  ∧ parse_version_tuple "v0.0.0-rc1" = Ok (0, 0, 0, "rc", 1)
  ∧ tuple_ltb (0, 0, 0, "rc", 1) sentinel = true.
Proof. split_and!; try (vm_compute; reflexivity). discriminate. Qed.

(** *** The ordering example *)

Lemma sort_example_all :
  Forall (λ l, sort_versions l = Ok example_versions) (permutations example_versions).
Proof.
  apply Forall_forall. intros l Hl.
  assert (forallb (λ l, bool_decide (sort_versions l = Ok example_versions))
            (permutations example_versions) = true) as H
    by (vm_compute; reflexivity).
  pose proof (proj1 (List.forallb_forall _ _) H l
                (proj1 (list_elem_of_In _ _) Hl)) as Hb.
  by apply bool_decide_eq_true in Hb.
Qed.

(** The example of the specification: in whatever order the five version
    strings are given, sorting them by decreasing tuple returns [v1.15.0],
    [v1.15.0-rc1], [v1.15.0-beta2], [v1.15.0-alpha1], [v1.14.0]. *)
Lemma version_order_example l :
  l ≡ₚ example_versions → sort_versions l = Ok example_versions.
Proof.
  intros Hl. pose proof sort_example_all as H.
  rewrite Forall_forall in H. apply H, permutations_Permutation. by symmetry.
Qed.

Lemma lstrip_v_digits d rest :
  digits d → lstrip "v" ("v" +:+ d +:+ rest) = d +:+ rest.
Proof.
  intros Hd. pose proof (digits_starts d rest Hd) as Hs.
  change ("v" +:+ ?x) with (String "v" x). simpl.
  destruct (d +:+ rest) as [|c r]; [done|]. simpl in *.
  destruct (Ascii.eqb_spec c "v") as [->|]; [by vm_compute in Hs | done].
Qed.

(** A stable release ranks above a prerelease of the same numbers whose
    tag, in lower case, sorts before [zzz]. *)
Lemma stable_above_prerelease d1 d2 d3 tag num :
  digits d1 → digits d2 → digits d3 → letters tag → num = "" ∨ digits num →
  within_limit d1 = true → within_limit d2 = true → within_limit d3 = true →
  within_limit num = true →
  String.ltb (lower tag) "zzz" = true →
  ∃ t,
    parse_version_tuple ("v" +:+ d1 +:+ "." +:+ d2 +:+ "." +:+ d3)
    = Ok (digits_value 0 d1, digits_value 0 d2, digits_value 0 d3, "zzz", 0)
    ∧ parse_version_tuple
        ("v" +:+ d1 +:+ "." +:+ d2 +:+ "." +:+ d3 +:+ "-" +:+ tag +:+ num) = Ok t
    ∧ tuple_ltb t
        (digits_value 0 d1, digits_value 0 d2, digits_value 0 d3, "zzz", 0) = true.
Proof.
  intros H1 H2 H3 Ht Hn W1 W2 W3 W4 Hlt.
  eexists. split_and!.
  - rewrite (parse_untagged _ d1 d2 d3 "") by
      (done || by rewrite lstrip_v_digits, !str_app_nil_r).
    by rewrite W1, W2, W3.
  - rewrite (parse_tagged _ d1 d2 d3 tag num "") by
      (done || by rewrite lstrip_v_digits, !str_app_nil_r).
    rewrite W1, W2, W3, W4. reflexivity.
  - unfold tuple_ltb, tuple_compare. rewrite !Z.compare_refl.
    unfold String.ltb in Hlt. by destruct (String.compare (lower tag) "zzz").
Qed.

(** C4 fails on the code.  A prerelease whose tag does not come before
    [zzz] is not below the stable release of the same numbers:
    [v1.15.0-zzzz] and [v1.15.0-zzz1] are in the version grammar, their
    tuples are above the tuple [(1,15,0,"zzz",0)] of [v1.15.0], and the
    sort puts them first. *)
Theorem prerelease_above_stable :
  version_grammar "v1.15.0-zzzz" = true
  ∧ parse_version_tuple "v1.15.0" = Ok (1, 15, 0, "zzz", 0)
  ∧ parse_version_tuple "v1.15.0-zzzz" = Ok (1, 15, 0, "zzzz", 0)
  ∧ tuple_ltb (1, 15, 0, "zzz", 0) (1, 15, 0, "zzzz", 0) = true
  ∧ sort_versions ["v1.15.0"; "v1.15.0-zzzz"] = Ok ["v1.15.0-zzzz"; "v1.15.0"]
  ∧ version_grammar "v1.15.0-zzz1" = true
  ∧ parse_version_tuple "v1.15.0-zzz1" = Ok (1, 15, 0, "zzz", 1)
  ∧ tuple_ltb (1, 15, 0, "zzz", 0) (1, 15, 0, "zzz", 1) = true
  ∧ sort_versions ["v1.15.0"; "v1.15.0-zzz1"] = Ok ["v1.15.0-zzz1"; "v1.15.0"].
Proof. split_and!; vm_compute; reflexivity. Qed.

(** C5.  The six examples are classified as listed.  In general a string
    matched by [^v?\d+\.\d+\.\d+$] (where [$] is the end of the string or
    the position before a final newline) is stable; any other string that
    contains [-beta] or [-rc], case ignored, is beta; every other string is
    dev. *)
Theorem classify_channel :
  determine_channel "v1.15.0" = "stable"
  ∧ determine_channel "v1.15.0-rc1" = "beta"
  ∧ determine_channel "v1.15.0-beta3" = "beta"
  ∧ determine_channel "v1.15.0-alpha1" = "dev"
  ∧ determine_channel "v1.15.0-dev7" = "dev"
  ∧ determine_channel "garbage" = "dev"
  ∧ ∀ s,
      (stable_shape s → determine_channel s = "stable")
      ∧ (¬ stable_shape s →
         contains_nocase "-beta" s ∨ contains_nocase "-rc" s →
         determine_channel s = "beta")
      ∧ (¬ stable_shape s →
         ¬ contains_nocase "-beta" s → ¬ contains_nocase "-rc" s →
         determine_channel s = "dev").
Proof.
  split_and!; try (vm_compute; reflexivity).
  intros s. rewrite determine_channel_eq, <- stable_form_shape, <- !contains_lower.
  destruct (stable_form s); split_and!; try done.
  - intros _ [->| ->]; [done | by rewrite orb_true_r].
  - intros _ H1 H2. apply not_true_is_false in H1, H2. by rewrite H1, H2.
Qed.

Lemma classify_channel_witness :
  determine_channel "v2.0.0" = "stable"
  ∧ determine_channel "v2.0.0-RC2" = "beta"
  ∧ determine_channel "nightly" = "dev".
Proof.
  assert (¬ stable_shape "v2.0.0-RC2") as N1
    by (rewrite <- stable_form_shape; vm_compute; discriminate).
  assert (¬ stable_shape "nightly") as N2
    by (rewrite <- stable_form_shape; vm_compute; discriminate).
  destruct classify_channel as (_ & _ & _ & _ & _ & _ & H).
  split_and!.
  - apply (H "v2.0.0"), stable_form_shape. reflexivity.
  - apply (H "v2.0.0-RC2"); [exact N1|].
    right. exists "v2.0.0", "-RC", "2". split; reflexivity.
  - apply (H "nightly"); [exact N2| |];
      rewrite <- contains_lower; vm_compute; discriminate.
Defined.

(** ** The upsert *)

Lemma first_in_none ch l :
  first_in ch l = None ↔ Forall (λ r, in_channel ch r = false) l.
Proof.
  unfold first_in. split.
  - intros H. rewrite Forall_forall. intros r Hr.
    destruct (in_channel ch r) eqn:E; [|done].
    assert (In r (List.filter (in_channel ch) l)) as Hin.
    { apply List.filter_In. split; [by apply list_elem_of_In | done]. }
    destruct (List.filter _ l); [done | done].
  - intros H. by rewrite filter_none.
Qed.

Lemma first_in_some ch l r :
  first_in ch l = Some r → r ∈ l ∧ in_channel ch r = true.
Proof.
  unfold first_in. destruct (List.filter _ l) as [|x l'] eqn:E; [done|].
  intros [= ->].
  assert (In r (List.filter (in_channel ch) l)) as Hin by (rewrite E; by left).
  apply List.filter_In in Hin as [Hin ?]. split; [by apply list_elem_of_In | done].
Qed.

Lemma find_channel ch :
  ch ∈ channels →
  List.find (λ c, bool_decide ("latest_" +:+ ch = "latest_" +:+ c)) channels = Some ch.
Proof.
  unfold channels. rewrite !elem_of_cons, elem_of_nil.
  intros [->|[->|[->|[]]]]; reflexivity.
Qed.

(** C1, as the code has it.  After an upsert that returns, [releases] is the
    sorted list, and for each of the channels stable, beta and dev: when
    some release has the channel, [latest_<channel>] is the [version] of the
    first such release in the sorted order; when no release has it,
    [latest_<channel>] is what the input index had, absent if it was absent
    and unchanged if it was present. *)
Theorem latest_recomputed_or_kept clk (index : dict) version git_tag build_count
    manifest_url s3_url idx' :
  update_index clk index version git_tag build_count manifest_url s3_url = Ok idx' →
  ∃ sorted,
    idx' !! "releases" = Some (JArr sorted)
    ∧ ∀ ch, ch ∈ channels →
        (∀ r, first_in ch sorted = Some r →
           ∃ v, field "version" r = Some v ∧ idx' !! ("latest_" +:+ ch) = Some v)
        ∧ (Forall (λ r, in_channel ch r = false) sorted →
           idx' !! ("latest_" +:+ ch) = index !! ("latest_" +:+ ch)).
Proof.
  intros H. apply update_index_ok in H
    as (rel & items & Hrel & Hit & Hd & Hkeys & _ & Hl & ->).
  set (sorted := sorted_releases _ _ _) in *.
  exists sorted. split; [apply upsert_result_releases|].
  intros ch Hch.
  assert (latest_ok ch sorted) as Hok.
  { rewrite Forall_forall in Hl. by apply Hl. }
  rewrite upsert_result_lookup, (find_channel ch Hch).
  assert ("latest_" +:+ ch ≠ "releases") as N1 by done.
  assert ("latest_" +:+ ch ≠ "updated_at") as N2.
  { unfold channels in Hch. rewrite !elem_of_cons, elem_of_nil in Hch.
    by destruct Hch as [->|[->|[->|[]]]]. }
  rewrite !decide_False by done.
  unfold latest_ok in Hok. split.
  - intros r Hr. rewrite Hr in *. destruct Hok as [v Hv]. exists v. by rewrite Hv.
  - intros Hnone%first_in_none. by rewrite Hnone.
Qed.

Lemma Forall_forallb {A} (p : A → bool) (l : list A) :
  forallb p l = true → Forall (λ x, p x = true) l.
Proof.
  intros H. apply Forall_forall. intros x Hx.
  by apply (proj1 (List.forallb_forall p l) H), list_elem_of_In.
Qed.

(** C1 as worded fails: the only release of [stale_index] is labelled beta;
    upserting its version relabels it stable, no release is beta any more,
    and the [latest_beta] of the input is still there. *)
Lemma stale_latest_survives :
  ∃ idx',
    update_index clock0 stale_index "v1.0.0" "v1.0.0" 150
      "https://new/manifest.json" "" = Ok idx'
    ∧ Forall (λ r, in_channel "beta" r = false) (releases_of idx')
    ∧ idx' !! "latest_beta" = Some (JStr "v1.0.0").
Proof.
  eexists. split; [apply (is_ok_value ∅); vm_compute; reflexivity|].
  split; [|vm_compute; reflexivity].
  eapply Forall_impl; [apply Forall_forallb|].
  - instantiate (1 := λ r, negb (in_channel "beta" r)). vm_compute. reflexivity.
  - intros r. apply negb_true_iff.
Qed.

Lemma latest_recomputed_or_kept_witness :
  let idx' := value_of ∅ (update_index clock0 stale_index "v1.0.0" "v1.0.0" 150
                            "https://new/manifest.json" "") in
  ∃ sorted,
    idx' !! "releases" = Some (JArr sorted)
    ∧ ∀ ch, ch ∈ channels →
        (∀ r, first_in ch sorted = Some r →
           ∃ v, field "version" r = Some v ∧ idx' !! ("latest_" +:+ ch) = Some v)
        ∧ (Forall (λ r, in_channel ch r = false) sorted →
           idx' !! ("latest_" +:+ ch) = stale_index !! ("latest_" +:+ ch)).
Proof.
  apply (latest_recomputed_or_kept clock0 stale_index "v1.0.0" "v1.0.0" 150
           "https://new/manifest.json" "").
  apply (is_ok_value ∅). vm_compute. reflexivity.
Defined.

(** C2.  With the clock fixed, an upsert followed by the same upsert is the
    upsert: when the first returns an index the second returns that same
    index, and when the first raises so does the pair.  The upsert returns
    on every index whose releases are entries with a version string, when
    those strings and the new one are short enough for [int]. *)
Theorem upsert_idempotent clk (index : dict) version git_tag build_count
    manifest_url s3_url :
  (update_index clk index version git_tag build_count manifest_url s3_url
   ≫= λ index', update_index clk index' version git_tag build_count manifest_url s3_url)
  = update_index clk index version git_tag build_count manifest_url s3_url
  ∧ (wf_index index → short_versions (releases_of index) → short version →
     is_ok (update_index clk index version git_tag build_count manifest_url s3_url)
     = true).
Proof.
  split.
  - destruct (update_index clk index _ _ _ _ _) as [idx'|] eqn:E; [|done].
    simpl. by apply (update_index_again clk index).
  - intros Hwf Hs Hv.
    destruct (update_index_total clk index version git_tag build_count
                manifest_url s3_url Hwf Hs Hv) as (idx' & -> & _).
    done.
Qed.

Lemma wf_two_release_index : wf_index two_release_index.
Proof.
  eexists. split; [reflexivity|].
  repeat constructor; eexists _, _; (split; [reflexivity|]); reflexivity.
Defined.

Lemma short_two_release_index : short_versions (releases_of two_release_index).
Proof.
  repeat constructor; intros v Hv; vm_compute in Hv; injection Hv as <-;
    vm_compute; discriminate.
Defined.

Lemma short_example : short "v1.2.0".
Proof. vm_compute. discriminate. Defined.

Lemma upsert_idempotent_witness :
  let once := update_index clock0 two_release_index "v1.2.0" "v1.2.0" 150
                "https://c/manifest.json" "" in
  (once ≫= λ index', update_index clock0 index' "v1.2.0" "v1.2.0" 150
                       "https://c/manifest.json" "") = once
  ∧ is_ok once = true.
Proof.
  destruct (upsert_idempotent clock0 two_release_index "v1.2.0" "v1.2.0" 150
              "https://c/manifest.json" "") as [H1 H2].
  split; [exact H1|].
  exact (H2 wf_two_release_index short_two_release_index short_example).
Defined.

(** C10.  An upsert that returns leaves every top-level field other than
    [releases], [updated_at], [latest_stable], [latest_beta] and
    [latest_dev] as the input index had it, present or absent. *)
Theorem upsert_frame clk (index : dict) version git_tag build_count
    manifest_url s3_url idx' k :
  update_index clk index version git_tag build_count manifest_url s3_url = Ok idx' →
  k ∉ ["releases"; "updated_at"; "latest_stable"; "latest_beta"; "latest_dev"] →
  idx' !! k = index !! k.
Proof.
  intros H Hk. apply update_index_ok in H
    as (rel & items & _ & _ & _ & _ & _ & _ & ->).
  rewrite !not_elem_of_cons in Hk. destruct Hk as (K1 & K2 & K3 & K4 & K5 & _).
  rewrite upsert_result_lookup, !decide_False by done.
  unfold channels, List.find.
  change ("latest_" +:+ "stable") with "latest_stable".
  change ("latest_" +:+ "beta") with "latest_beta".
  change ("latest_" +:+ "dev") with "latest_dev".
  by rewrite !bool_decide_eq_false_2 by done.
Qed.

Lemma upsert_frame_witness :
  value_of ∅ (update_index clock0 two_release_index "v1.2.0" "v1.2.0" 150
                "https://c/manifest.json" "") !! "maintainer"
  = two_release_index !! "maintainer".
Proof.
  apply (upsert_frame clock0 two_release_index "v1.2.0" "v1.2.0" 150
           "https://c/manifest.json" "").
  - apply (is_ok_value ∅). vm_compute. reflexivity.
  - vm_compute. intros H. repeat (inversion H as [|? ? ? H']; clear H; rename H' into H).
Defined.

Lemma count_version_present version items r :
  r ∈ items → has_version version r = true → (1 ≤ count_version version items)%nat.
Proof.
  intros Hr Hv. unfold count_version.
  assert (In r (List.filter (has_version version) items)) as Hin.
  { apply List.filter_In. split; [by apply list_elem_of_In | done]. }
  destruct (List.filter _ items); [done | simpl; lia].
Qed.

(** C6.  On an index whose releases hold at most one entry per version, an
    upsert that returns leaves at most one entry per version, and exactly
    one for the upserted version; when that version was already present the
    number of releases is unchanged and the entry for the version carries
    the new [manifest_url]. *)
Theorem upsert_keyed_by_version clk (index : dict) items version git_tag
    build_count manifest_url s3_url idx' :
  index !! "releases" = Some (JArr items) →
  unique_versions items →
  update_index clk index version git_tag build_count manifest_url s3_url = Ok idx' →
  ∃ sorted,
    idx' !! "releases" = Some (JArr sorted)
    ∧ unique_versions sorted
    ∧ count_version version sorted = 1%nat
    ∧ ((∃ r, r ∈ items ∧ has_version version r = true) →
       List.length sorted = List.length items
       ∧ ∀ r, r ∈ sorted → has_version version r = true →
           field "manifest_url" r = Some (JStr manifest_url)).
Proof.
  intros Hrel Huniq H. apply update_index_ok in H
    as (rel & items' & Hrel' & Hit & Hd & Hkeys & _ & Hl & ->).
  rewrite Hrel in Hrel'. injection Hrel' as <-. injection Hit as <-.
  set (e := new_entry clk version git_tag build_count manifest_url s3_url) in *.
  exists (sorted_releases items version e).
  split_and!.
  - apply upsert_result_releases.
  - intros w. unfold e. rewrite count_version_sorted.
    case_decide; [done | apply Huniq].
  - unfold e. rewrite count_version_sorted. by rewrite decide_True.
  - intros (r & Hr & Hv).
    pose proof (count_version_present version items r Hr Hv) as Hge.
    pose proof (Huniq version) as Hle.
    pose proof (length_sorted items version e) as Hlen.
    split; [lia|].
    intros r' Hr' Hv'. rewrite (sorted_version_entry items version e r' Hr' Hv').
    simpl. apply new_entry_fields.
Qed.

Lemma unique_two_release : unique_versions (releases_of two_release_index).
Proof.
  intros w. unfold count_version.
  change (releases_of two_release_index)
    with [release "v1.1.0-rc1" "beta" "https://b/manifest.json";
          release "v1.0.0" "stable" "https://a/manifest.json"].
  simpl. unfold has_version, release, release_fields, field, eq_str.
  rewrite !lookup_insert_eq.
  destruct (String.eqb "v1.1.0-rc1" w) eqn:E1, (String.eqb "v1.0.0" w) eqn:E2;
    simpl; try lia.
  apply String.eqb_eq in E1, E2. congruence.
Defined.

Lemma upsert_keyed_by_version_witness :
  let idx' := value_of ∅ (update_index clock0 two_release_index "v1.0.0" "v1.0.0" 150
                            "https://new/manifest.json" "") in
  ∃ sorted,
    idx' !! "releases" = Some (JArr sorted)
    ∧ unique_versions sorted
    ∧ count_version "v1.0.0" sorted = 1%nat
    ∧ ((∃ r, r ∈ releases_of two_release_index ∧ has_version "v1.0.0" r = true) →
       List.length sorted = List.length (releases_of two_release_index)
       ∧ ∀ r, r ∈ sorted → has_version "v1.0.0" r = true →
           field "manifest_url" r = Some (JStr "https://new/manifest.json")).
Proof.
  apply (upsert_keyed_by_version clock0 two_release_index
           (releases_of two_release_index) "v1.0.0" "v1.0.0" 150
           "https://new/manifest.json" "").
  - reflexivity.
  - exact unique_two_release.
  - apply (is_ok_value ∅). vm_compute. reflexivity.
Defined.

Lemma key_of_version (m : dict) v t :
  m !! "version" = Some (JStr v) → parse_version_tuple v = Ok t →
  key_of (JObj m) = t.
Proof. intros Hv Ht. unfold key_of. by rewrite release_key_dict, Hv, Ht. Qed.

Lemma in_channel_dict (m : dict) c ch :
  m !! "channel" = Some (JStr c) → in_channel ch (JObj m) = String.eqb c ch.
Proof. intros H. unfold in_channel. simpl. by rewrite H. Qed.

Lemma has_version_dict (m : dict) v w :
  m !! "version" = Some (JStr v) → has_version w (JObj m) = String.eqb v w.
Proof. intros H. unfold has_version. simpl. by rewrite H. Qed.

Lemma latest_after_upsert clk (index : dict) sorted ch :
  ch ∈ channels →
  upsert_result clk index sorted !! ("latest_" +:+ ch)
  = match first_in ch sorted with
    | Some r =>
        match field "version" r with
        | Some v => Some v
        | None => index !! ("latest_" +:+ ch)
        end
    | None => index !! ("latest_" +:+ ch)
    end.
Proof.
  intros Hch. rewrite upsert_result_lookup, (find_channel ch Hch).
  unfold channels in Hch. rewrite !elem_of_cons, elem_of_nil in Hch.
  by destruct Hch as [->|[->|[->|[]]]].
Qed.

(** The three releases of the first scenario, sorted. *)
Lemma sort_three (a b c : json) :
  key_of a = (1, 0, 0, "zzz", 0) → key_of b = (1, 1, 0, "rc", 1) →
  key_of c = (1, 2, 0, "zzz", 0) →
  sort_on tuple_ltb key_of [a; b; c] = [c; b; a]
  ∧ sort_on tuple_ltb key_of [b; a; c] = [c; b; a].
Proof.
  intros Ha Hb Hc. unfold sort_on, decorate. simpl. rewrite Ha, Hb, Hc.
  split; reflexivity.
Qed.

(** C9.  Upserting [v1.2.0] into an index whose releases are a stable
    [v1.0.0] and a beta [v1.1.0-rc1], in either order, returns an index with
    [latest_stable] [v1.2.0] and [latest_beta] [v1.1.0-rc1].  Upserting
    [v1.15.0] with build count 150 into the empty index returns an index
    whose releases are that one entry, of channel stable, with
    [latest_stable] [v1.15.0] and neither [latest_beta] nor [latest_dev]. *)
Theorem latest_scenarios :
  (∀ clk (index : dict) rels (r1 r2 : dict) git_tag build_count manifest_url s3_url,
     index !! "releases" = Some (JArr rels) →
     rels ≡ₚ [JObj r1; JObj r2] →
     r1 !! "version" = Some (JStr "v1.0.0") → r1 !! "channel" = Some (JStr "stable") →
     r2 !! "version" = Some (JStr "v1.1.0-rc1") → r2 !! "channel" = Some (JStr "beta") →
     ∃ idx',
       update_index clk index "v1.2.0" git_tag build_count manifest_url s3_url = Ok idx'
       ∧ idx' !! "latest_stable" = Some (JStr "v1.2.0")
       ∧ idx' !! "latest_beta" = Some (JStr "v1.1.0-rc1"))
  ∧ (∀ clk git_tag manifest_url s3_url,
       let e := new_entry clk "v1.15.0" git_tag 150 manifest_url s3_url in
       ∃ idx',
         update_index clk (create_empty_index clk) "v1.15.0" git_tag 150
           manifest_url s3_url = Ok idx'
         ∧ idx' !! "releases" = Some (JArr [JObj e])
         ∧ e !! "version" = Some (JStr "v1.15.0")
         ∧ e !! "channel" = Some (JStr "stable")
         ∧ e !! "build_count" = Some (JNum 150)
         ∧ idx' !! "latest_stable" = Some (JStr "v1.15.0")
         ∧ idx' !! "latest_beta" = None
         ∧ idx' !! "latest_dev" = None).
Proof.
  split.
  - intros clk index rels r1 r2 git_tag build_count manifest_url s3_url
      Hrel Hperm V1 C1 V2 C2.
    set (e := new_entry clk "v1.2.0" git_tag build_count manifest_url s3_url).
    destruct (new_entry_fields clk "v1.2.0" git_tag build_count manifest_url s3_url)
      as (Ve & Ce & _). fold e in Ve, Ce.
    assert (sorted_releases rels "v1.2.0" e = [JObj e; JObj r2; JObj r1]) as Hs.
    { unfold sorted_releases, kept_releases.
      assert (key_of (JObj r1) = (1, 0, 0, "zzz", 0)) as K1
        by (apply (key_of_version r1 "v1.0.0"); [done | vm_compute; reflexivity]).
      assert (key_of (JObj r2) = (1, 1, 0, "rc", 1)) as K2
        by (apply (key_of_version r2 "v1.1.0-rc1"); [done | vm_compute; reflexivity]).
      assert (key_of (JObj e) = (1, 2, 0, "zzz", 0)) as Ke
        by (apply (key_of_version e "v1.2.0"); [done | vm_compute; reflexivity]).
      destruct (sort_three (JObj r1) (JObj r2) (JObj e) K1 K2 Ke) as [S1 S2].
      symmetry in Hperm.
      apply Permutation_length_2_inv in Hperm as [-> | ->]; simpl;
        rewrite !(has_version_dict r1 "v1.0.0"), !(has_version_dict r2 "v1.1.0-rc1")
          by done; simpl; done. }
    assert (wf_index index) as Hwf.
    { exists rels. split; [done|]. rewrite Hperm.
      repeat constructor; eexists _, _; eauto. }
    assert (short_versions (releases_of index)) as Hshort.
    { unfold releases_of, short_versions. rewrite Hrel, Hperm.
      repeat constructor; intros v; simpl; rewrite ?V1, ?V2; intros [= <-];
        vm_compute; discriminate. }
    destruct (update_index_total clk index "v1.2.0" git_tag build_count
                manifest_url s3_url Hwf Hshort) as (idx' & Hup & _);
      [vm_compute; discriminate|].
    exists idx'. split; [done|].
    apply update_index_ok in Hup
      as (rel & items & Hrel' & Hit & _ & _ & _ & _ & ->).
    rewrite Hrel in Hrel'. injection Hrel' as <-. injection Hit as <-.
    fold e. rewrite Hs.
    change "latest_stable" with ("latest_" +:+ "stable").
    change "latest_beta" with ("latest_" +:+ "beta").
    rewrite !latest_after_upsert by (unfold channels; set_solver).
    unfold first_in. simpl.
    rewrite !(in_channel_dict e "stable"), !(in_channel_dict r2 "beta") by done.
    simpl. by rewrite Ve, V2.
  - intros clk git_tag manifest_url s3_url e.
    destruct (new_entry_fields clk "v1.15.0" git_tag 150 manifest_url s3_url)
      as (Ve & Ce & _). fold e in Ve, Ce.
    change (determine_channel "v1.15.0") with "stable" in Ce.
    assert (wf_index (create_empty_index clk)) as Hwf.
    { exists []. split; [done | constructor]. }
    assert (create_empty_index clk !! "releases" = Some (JArr [])) as Hnil
      by (unfold create_empty_index; by simplify_map_eq).
    destruct (update_index_total clk (create_empty_index clk) "v1.15.0" git_tag 150
                manifest_url s3_url Hwf) as (idx' & Hup & _);
      [unfold releases_of; rewrite Hnil; constructor | vm_compute; discriminate|].
    exists idx'. split; [done|].
    apply update_index_ok in Hup
      as (rel & items & Hrel' & Hit & _ & _ & _ & _ & ->).
    assert (create_empty_index clk !! "releases" = Some (JArr [])) as Hrel
      by (unfold create_empty_index; by simplify_map_eq).
    rewrite Hrel in Hrel'. injection Hrel' as <-. injection Hit as <-. fold e.
    change (sorted_releases [] "v1.15.0" e) with [JObj e].
    split; [apply upsert_result_releases|].
    change "latest_stable" with ("latest_" +:+ "stable").
    change "latest_beta" with ("latest_" +:+ "beta").
    change "latest_dev" with ("latest_" +:+ "dev").
    rewrite !latest_after_upsert by (unfold channels; set_solver).
    unfold first_in. simpl.
    rewrite !(in_channel_dict e "stable") by done. simpl. rewrite Ve.
    split_and!; try done.
    unfold e, new_entry. destruct (nonempty s3_url); by simplify_map_eq.
Qed.

Lemma latest_scenarios_witness :
  ∃ idx',
    update_index clock0 two_release_index "v1.2.0" "v1.2.0" 150
      "https://c/manifest.json" "" = Ok idx'
    ∧ idx' !! "latest_stable" = Some (JStr "v1.2.0")
    ∧ idx' !! "latest_beta" = Some (JStr "v1.1.0-rc1").
Proof.
  apply (proj1 latest_scenarios clock0 two_release_index
           (releases_of two_release_index)
           (release_fields "v1.0.0" "stable" "https://a/manifest.json")
           (release_fields "v1.1.0-rc1" "beta" "https://b/manifest.json")).
  - reflexivity.
  - apply perm_swap.
  - reflexivity.
  - reflexivity.
  - reflexivity.
  - reflexivity.
Defined.

(** ** The manifest *)

Lemma surviving_fields base_url px4_files b :
  b ∈ surviving base_url px4_files →
  ∃ f, f ∈ px4_files ∧ entry_of base_url f = Some b.
Proof.
  unfold surviving. rewrite list_elem_of_omap. intros (f & Hf & Hb). eauto.
Qed.

(** C7, as the code has it.  The builds of a manifest are the surviving
    entries.  When the base URL is not empty each has as [url] the base URL
    with all its trailing slashes removed, then one slash, then its
    [filename]; when the base URL is empty none has a [url]. *)
Theorem manifest_urls clk px4_files version git_tag base_url manifest :
  generate_release_manifest clk px4_files version git_tag base_url = Ok manifest →
  ∃ builds n,
    manifest !! "builds" = Some (JArr (JObj <$> builds))
    ∧ builds ≡ₚ surviving base_url px4_files
    ∧ base_url = rstrip "/" base_url +:+ repeat_char "/" n
    ∧ ends_with "/" (rstrip "/" base_url) = false
    ∧ Forall (λ b : dict, ∃ filename,
        b !! "filename" = Some (JStr filename)
        ∧ b !! "url" = if nonempty base_url
                       then Some (JStr (rstrip "/" base_url +:+ "/" +:+ filename))
                       else None) builds.
Proof.
  intros H. apply generate_release_manifest_ok in H as (builds & Hp & Hb & _).
  destruct (rstrip_spec "/" base_url) as (n & Hn & He).
  exists builds, n. split_and!; try done.
  rewrite Hp. apply Forall_forall. intros b Hb'.
  apply surviving_fields in Hb' as (f & _ & Hf).
  exists (file_name f). by apply entry_of_fields.
Qed.

Lemma manifest_urls_witness :
  let manifest := value_of ∅ (generate_release_manifest clock0
      [firmware "a.px4" None; broken_file; firmware "b.px4" (Some (JStr "a_target"))]
      "v1.15.0" "v1.15.0" "https://host/fw/") in
  ∃ builds n,
    manifest !! "builds" = Some (JArr (JObj <$> builds))
    ∧ builds ≡ₚ surviving "https://host/fw/"
        [firmware "a.px4" None; broken_file; firmware "b.px4" (Some (JStr "a_target"))]
    ∧ "https://host/fw/" = rstrip "/" "https://host/fw/" +:+ repeat_char "/" n
    ∧ ends_with "/" (rstrip "/" "https://host/fw/") = false
    ∧ Forall (λ b : dict, ∃ filename,
        b !! "filename" = Some (JStr filename)
        ∧ b !! "url" = if nonempty "https://host/fw/"
                       then Some (JStr (rstrip "/" "https://host/fw/" +:+ "/" +:+ filename))
                       else None) builds.
Proof.
  apply (manifest_urls clock0 _ "v1.15.0" "v1.15.0" "https://host/fw/").
  apply (is_ok_value ∅). vm_compute. reflexivity.
Defined.

(** C7 as worded fails: with the base URL [https://host/fw//] the entry's
    URL is [https://host/fw/a.px4]; stripping exactly one slash would give
    [https://host/fw//a.px4]. *)
Lemma url_strips_every_slash :
  ∃ manifest b,
    generate_release_manifest clock0 [firmware "a.px4" None]
      "v1.15.0" "v1.15.0" "https://host/fw//" = Ok manifest
    ∧ manifest !! "builds" = Some (JArr [JObj b])
    ∧ b !! "url" = Some (JStr "https://host/fw/a.px4")
    ∧ spec_url "https://host/fw//" "a.px4" = "https://host/fw//a.px4"
    ∧ "https://host/fw/a.px4" ≠ spec_url "https://host/fw//" "a.px4".
Proof.
  pose (r := generate_release_manifest clock0 [firmware "a.px4" None]
               "v1.15.0" "v1.15.0" "https://host/fw//").
  pose (bs := value_of JNull (getitem (value_of ∅ r) "builds")).
  exists (value_of ∅ r),
    (match bs with JArr [JObj b] => b | _ => ∅ end).
  split_and!.
  - apply (is_ok_value ∅). vm_compute. reflexivity.
  - vm_compute. reflexivity.
  - vm_compute. reflexivity.
  - vm_compute. reflexivity.
  - vm_compute. discriminate.
Qed.

(** C8.  A manifest that is generated has [build_count] equal to the length
    of [builds], which is the number of files that survive extraction.
    When no file survives (an empty directory, or only malformed files) the
    manifest is generated, with no builds and [build_count] 0.  The manifest
    is generated whenever the sort keys of the surviving entries are
    strings. *)
Theorem manifest_build_count clk px4_files version git_tag base_url :
  (∀ manifest,
     generate_release_manifest clk px4_files version git_tag base_url = Ok manifest →
     ∃ builds,
       manifest !! "builds" = Some (JArr builds)
       ∧ manifest !! "build_count" = Some (JNum (Z.of_nat (List.length builds)))
       ∧ List.length builds = List.length (omap extract_px4_metadata px4_files))
  ∧ (omap extract_px4_metadata px4_files = [] →
     ∃ manifest,
       generate_release_manifest clk px4_files version git_tag base_url = Ok manifest
       ∧ manifest !! "builds" = Some (JArr [])
       ∧ manifest !! "build_count" = Some (JNum 0))
  ∧ (Forall string_key (surviving base_url px4_files) →
     is_ok (generate_release_manifest clk px4_files version git_tag base_url) = true).
Proof.
  split_and!.
  - intros manifest H.
    apply generate_release_manifest_ok in H as (builds & Hp & Hb & Hc).
    exists (JObj <$> builds). rewrite length_fmap. split_and!; try done.
    by rewrite Hp, surviving_length.
  - apply generate_release_manifest_empty.
  - intros Hk.
    by destruct (generate_release_manifest_total clk px4_files version git_tag
                   base_url Hk) as [m ->].
Qed.

Lemma manifest_build_count_witness :
  (∃ builds,
     value_of ∅ (generate_release_manifest clock0
         [firmware "a.px4" None; broken_file; incomplete_file;
          firmware "b.px4" (Some (JStr "a_target"))] "v1.15.0" "v1.15.0" "")
       !! "builds" = Some (JArr builds)
     ∧ value_of ∅ (generate_release_manifest clock0
         [firmware "a.px4" None; broken_file; incomplete_file;
          firmware "b.px4" (Some (JStr "a_target"))] "v1.15.0" "v1.15.0" "")
       !! "build_count" = Some (JNum (Z.of_nat (List.length builds)))
     ∧ List.length builds = 2%nat)
  ∧ (∃ manifest,
       generate_release_manifest clock0 [broken_file; incomplete_file]
         "v1.15.0" "v1.15.0" "" = Ok manifest
       ∧ manifest !! "builds" = Some (JArr [])
       ∧ manifest !! "build_count" = Some (JNum 0))
  ∧ is_ok (generate_release_manifest clock0 [] "" "" "") = true.
Proof.
  split_and!.
  - apply (proj1 (manifest_build_count clock0
        [firmware "a.px4" None; broken_file; incomplete_file;
         firmware "b.px4" (Some (JStr "a_target"))] "v1.15.0" "v1.15.0" "")).
    apply (is_ok_value ∅). vm_compute. reflexivity.
  - apply (proj1 (proj2 (manifest_build_count clock0 [broken_file; incomplete_file]
                           "v1.15.0" "v1.15.0" ""))).
    reflexivity.
  - apply (proj2 (proj2 (manifest_build_count clock0 [] "" "" ""))).
    constructor.
Defined.

(** * Further properties of the two tools *)

(** ** The order and the content of the releases *)

Lemma update_index_releases clk (index : dict) items version git_tag build_count
    manifest_url s3_url idx' :
  index !! "releases" = Some (JArr items) →
  update_index clk index version git_tag build_count manifest_url s3_url = Ok idx' →
  Forall (λ r, is_ok (release_key r) = true)
    (kept_releases version items
     ++ [JObj (new_entry clk version git_tag build_count manifest_url s3_url)])
  ∧ idx' !! "releases"
    = Some (JArr (sorted_releases items version
        (new_entry clk version git_tag build_count manifest_url s3_url))).
Proof.
  intros Hrel H. apply update_index_ok in H
    as (rel & items' & Hrel' & Hit & _ & Hkeys & Hnew & _ & ->).
  rewrite Hrel in Hrel'. injection Hrel' as <-. injection Hit as <-.
  split; [|apply upsert_result_releases].
  apply Forall_app. split; [done|]. repeat constructor.
  by rewrite new_entry_key.
Qed.

Lemma sorted_keys_ok items version (e : dict) :
  Forall (λ r, is_ok (release_key r) = true) (kept_releases version items ++ [JObj e]) →
  Forall (λ r, release_key r = Ok (key_of r)) (sorted_releases items version e).
Proof.
  intros Hk. unfold sorted_releases. rewrite (sort_on_perm tuple_ltb key_of).
  eapply Forall_impl; [exact Hk|]. intros r. apply release_key_of.
Qed.

Lemma descending_decorate {A} (f : A → vtuple) (l : list A) :
  descending tuple_ltb (decorate f l) →
  StronglySorted (λ a b, tuple_le (f b) (f a)) l.
Proof.
  unfold descending, decorate.
  induction l as [|x l IH]; csimpl; intros H; [constructor|].
  apply StronglySorted_inv in H as [Hl Hx]. constructor; [by apply IH|].
  rewrite Forall_fmap in Hx. eapply Forall_impl; [exact Hx|].
  intros y Hy. exact Hy.
Qed.

Lemma sort_on_sorted {A} (f : A → vtuple) (l : list A) :
  StronglySorted (λ a b, tuple_le (f b) (f a)) (sort_on tuple_ltb f l).
Proof.
  apply descending_decorate.
  rewrite (sort_on_decorate tuple_ltb).
  apply (sort_desc_sorted tuple_ltb tuple_ltb_asym tuple_ltb_negtrans).
Qed.

Lemma StronglySorted_impl_in {A} (R S : A → A → Prop) (l : list A) :
  (∀ a b, a ∈ l → b ∈ l → R a b → S a b) →
  StronglySorted R l → StronglySorted S l.
Proof.
  intros H. induction 1 as [|x l Hl IH Hx]; [constructor|].
  constructor.
  - apply IH. intros a b Ha Hb. apply H; by right.
  - rewrite Forall_forall in *. intros y Hy. apply H; [by left | by right | by apply Hx].
Qed.

(** X1.  The releases of the result are ordered newest first: every release
    has a sort key, and it is at least the key of every release after it. *)
Theorem upsert_newest_first clk (index : dict) version git_tag build_count
    manifest_url s3_url idx' :
  update_index clk index version git_tag build_count manifest_url s3_url = Ok idx' →
  ∃ sorted,
    idx' !! "releases" = Some (JArr sorted)
    ∧ StronglySorted
        (λ a b, ∃ ka kb, release_key a = Ok ka ∧ release_key b = Ok kb
                         ∧ tuple_le kb ka) sorted.
Proof.
  intros H. apply update_index_ok in H
    as (rel & items & _ & _ & _ & Hkeys & Hnew & _ & ->).
  eexists. split; [apply upsert_result_releases|].
  assert (Forall (λ r, release_key r = Ok (key_of r))
            (sorted_releases items version
               (new_entry clk version git_tag build_count manifest_url s3_url)))
    as Hk.
  { apply sorted_keys_ok, Forall_app. split; [done|]. repeat constructor.
    by rewrite new_entry_key. }
  rewrite Forall_forall in Hk.
  eapply StronglySorted_impl_in; [|apply (sort_on_sorted key_of)].
  intros a b Ha Hb Hab. exists (key_of a), (key_of b).
  split_and!; [by apply Hk | by apply Hk | done].
Qed.

Lemma upsert_newest_first_witness :
  ∃ sorted,
    value_of ∅ (update_index clock0 two_release_index "v1.0.5" "v1.0.5" 3
                  "https://c/manifest.json" "") !! "releases" = Some (JArr sorted)
    ∧ StronglySorted
        (λ a b, ∃ ka kb, release_key a = Ok ka ∧ release_key b = Ok kb
                         ∧ tuple_le kb ka) sorted.
Proof.
  apply (upsert_newest_first clock0 two_release_index "v1.0.5" "v1.0.5" 3
           "https://c/manifest.json" "").
  apply (is_ok_value ∅). vm_compute. reflexivity.
Defined.

(** X2.  The releases of the result are the new entry and the releases of
    the input that are not for the upserted version, each as often as it
    was there: nothing else is dropped, changed or added. *)
Theorem upsert_keeps_other_releases clk (index : dict) items version git_tag
    build_count manifest_url s3_url idx' :
  index !! "releases" = Some (JArr items) →
  update_index clk index version git_tag build_count manifest_url s3_url = Ok idx' →
  ∃ sorted,
    idx' !! "releases" = Some (JArr sorted)
    ∧ sorted ≡ₚ List.filter (λ r, negb (has_version version r)) items
                ++ [JObj (new_entry clk version git_tag build_count manifest_url s3_url)]
    ∧ ∀ r, r ∈ sorted ↔
        (r ∈ items ∧ has_version version r = false)
        ∨ r = JObj (new_entry clk version git_tag build_count manifest_url s3_url).
Proof.
  intros Hrel H.
  destruct (update_index_releases _ _ _ _ _ _ _ _ _ Hrel H) as [_ Hs].
  eexists. split; [exact Hs|].
  assert (sorted_releases items version
            (new_entry clk version git_tag build_count manifest_url s3_url)
          ≡ₚ List.filter (λ r, negb (has_version version r)) items
             ++ [JObj (new_entry clk version git_tag build_count manifest_url s3_url)])
    as Hp by apply (sort_on_perm tuple_ltb).
  split; [exact Hp|].
  intros r. rewrite Hp, elem_of_app, list_elem_of_singleton.
  rewrite list_elem_of_In, List.filter_In, <- list_elem_of_In, negb_true_iff.
  done.
Qed.

Lemma upsert_keeps_other_releases_witness :
  ∃ sorted,
    value_of ∅ (update_index clock0 two_release_index "v1.0.0" "v1.0.0" 3
                  "https://c/manifest.json" "") !! "releases" = Some (JArr sorted)
    ∧ sorted ≡ₚ List.filter (λ r, negb (has_version "v1.0.0" r))
                  (releases_of two_release_index)
                ++ [JObj (new_entry clock0 "v1.0.0" "v1.0.0" 3
                            "https://c/manifest.json" "")]
    ∧ ∀ r, r ∈ sorted ↔
        (r ∈ releases_of two_release_index ∧ has_version "v1.0.0" r = false)
        ∨ r = JObj (new_entry clock0 "v1.0.0" "v1.0.0" 3 "https://c/manifest.json" "").
Proof.
  apply (upsert_keeps_other_releases clock0 two_release_index
           (releases_of two_release_index) "v1.0.0" "v1.0.0" 3
           "https://c/manifest.json" "").
  - reflexivity.
  - apply (is_ok_value ∅). vm_compute. reflexivity.
Defined.

(** ** Ties *)

Lemma same_key_decide {A} (f : A → vtuple) (k : vtuple) (x : A) :
  same_key tuple_ltb k (f x, x) = bool_decide (f x = k).
Proof.
  case_bool_decide as E.
  - subst k. apply (same_key_refl tuple_ltb tuple_ltb_asym (f x, x)).
  - destruct (same_key tuple_ltb k (f x, x)) eqn:S; [|done].
    by apply (same_key_eq tuple_ltb tuple_ltb_tricho) in S.
Qed.

Lemma filter_key_decorate {A} (f : A → vtuple) (k : vtuple) (l : list A) :
  (List.filter (same_key tuple_ltb k) (decorate f l)).*2
  = List.filter (λ x, bool_decide (f x = k)) l.
Proof.
  unfold decorate. induction l as [|x l IH]; csimpl; [done|].
  rewrite same_key_decide. case_bool_decide; csimpl; by rewrite IH.
Qed.

Lemma sort_on_ties {A} (f : A → vtuple) (k : vtuple) (l : list A) :
  List.filter (λ x, bool_decide (f x = k)) (sort_on tuple_ltb f l)
  = List.filter (λ x, bool_decide (f x = k)) l.
Proof.
  rewrite <- !filter_key_decorate. rewrite (sort_on_decorate tuple_ltb).
  by rewrite (filter_same_sort tuple_ltb tuple_ltb_asym tuple_ltb_tricho).
Qed.

(** X3.  Releases with equal sort keys keep the order they had in the
    input, and the new entry comes after those it ties with. *)
Theorem upsert_ties_keep_order clk (index : dict) items version git_tag
    build_count manifest_url s3_url idx' :
  index !! "releases" = Some (JArr items) →
  update_index clk index version git_tag build_count manifest_url s3_url = Ok idx' →
  ∃ sorted,
    idx' !! "releases" = Some (JArr sorted)
    ∧ ∀ k : vtuple,
        List.filter (λ r, bool_decide (release_key r = Ok k)) sorted
        = List.filter (λ r, bool_decide (release_key r = Ok k))
            (List.filter (λ r, negb (has_version version r)) items)
          ++ List.filter (λ r, bool_decide (release_key r = Ok k))
               [JObj (new_entry clk version git_tag build_count manifest_url s3_url)].
Proof.
  intros Hrel H.
  destruct (update_index_releases _ _ _ _ _ _ _ _ _ Hrel H) as [Hkeys Hs].
  eexists. split; [exact Hs|]. intros k.
  pose proof (sorted_keys_ok items version _ Hkeys) as Hk.
  assert (∀ l, Forall (λ r, release_key r = Ok (key_of r)) l →
               List.filter (λ r, bool_decide (release_key r = Ok k)) l
               = List.filter (λ r, bool_decide (key_of r = k)) l) as Hf.
  { intros l Hl. apply List.filter_ext_in. intros r Hr.
    rewrite Forall_forall in Hl. rewrite (Hl r) by by apply list_elem_of_In.
    apply bool_decide_ext. split; [by intros [= ->] | by intros ->]. }
  rewrite <- List.filter_app.
  rewrite (Hf _ Hk). unfold sorted_releases. rewrite sort_on_ties.
  symmetry. apply Hf. unfold sorted_releases in Hk.
  by rewrite (sort_on_perm tuple_ltb key_of) in Hk.
Qed.

Lemma upsert_ties_keep_order_witness :
  ∃ sorted,
    value_of ∅ (update_index clock0 two_release_index "1.0.0" "1.0.0" 3
                  "https://c/manifest.json" "") !! "releases" = Some (JArr sorted)
    ∧ ∀ k : vtuple,
        List.filter (λ r, bool_decide (release_key r = Ok k)) sorted
        = List.filter (λ r, bool_decide (release_key r = Ok k))
            (List.filter (λ r, negb (has_version "1.0.0" r))
               (releases_of two_release_index))
          ++ List.filter (λ r, bool_decide (release_key r = Ok k))
               [JObj (new_entry clock0 "1.0.0" "1.0.0" 3 "https://c/manifest.json" "")].
Proof.
  apply (upsert_ties_keep_order clock0 two_release_index
           (releases_of two_release_index) "1.0.0" "1.0.0" 3
           "https://c/manifest.json" "").
  - reflexivity.
  - apply (is_ok_value ∅). vm_compute. reflexivity.
Defined.

(** ** Two upserts *)

Lemma sort_on_swap_tail {A} (f : A → vtuple) (l : list A) (a b : A) :
  f a ≠ f b →
  sort_on tuple_ltb f (l ++ [a; b]) = sort_on tuple_ltb f (l ++ [b; a]).
Proof.
  intros Hne. unfold sort_on. f_equal.
  apply (descending_unique tuple_ltb tuple_ltb_asym tuple_ltb_tricho);
    [apply (sort_desc_sorted tuple_ltb tuple_ltb_asym tuple_ltb_negtrans)..|].
  intros k.
  rewrite !(filter_same_sort tuple_ltb tuple_ltb_asym tuple_ltb_tricho).
  rewrite !(decorate_app f), !List.filter_app. f_equal.
  unfold decorate. csimpl. rewrite !same_key_decide.
  repeat case_bool_decide; try done. congruence.
Qed.

Lemma kept_releases_comm v1 v2 items :
  kept_releases v2 (kept_releases v1 items) = kept_releases v1 (kept_releases v2 items).
Proof. unfold kept_releases. apply filter_comm. Qed.

Lemma sorted_releases_twice items v1 v2 (e2 : dict)
    clk git_tag build_count manifest_url s3_url :
  v1 ≠ v2 →
  let e1 := new_entry clk v1 git_tag build_count manifest_url s3_url in
  sorted_releases (sorted_releases items v1 e1) v2 e2
  = sort_on tuple_ltb key_of
      (kept_releases v2 (kept_releases v1 items) ++ [JObj e1; JObj e2]).
Proof.
  intros Hne e1. unfold sorted_releases at 1.
  assert (kept_releases v2 (sorted_releases items v1 e1)
          = sort_on tuple_ltb key_of
              (kept_releases v2 (kept_releases v1 items) ++ [JObj e1])) as ->.
  { unfold sorted_releases. unfold kept_releases at 1.
    rewrite (sort_on_filter tuple_ltb tuple_ltb_asym tuple_ltb_negtrans
               tuple_ltb_tricho).
    rewrite List.filter_app. simpl. unfold e1 at 1. rewrite has_version_new.
    destruct (String.eqb_spec v1 v2); [done|]. done. }
  rewrite (sort_on_sort_app tuple_ltb tuple_ltb_asym tuple_ltb_negtrans
             tuple_ltb_tricho).
  by rewrite <- app_assoc.
Qed.

(** X4.  On a well-formed index of short versions, two upserts for
    different short versions whose tuples differ can be made in either
    order: both orders return, with the same releases in the same order. *)
Theorem upsert_order_independent (index : dict) (q1 q2 : request) :
  wf_index index → short_versions (releases_of index) →
  short (req_version q1) → short (req_version q2) →
  req_version q1 ≠ req_version q2 →
  parse_version_tuple (req_version q1) ≠ parse_version_tuple (req_version q2) →
  ∃ i12 i21,
    upsert_all index [q1; q2] = Ok i12
    ∧ upsert_all index [q2; q1] = Ok i21
    ∧ i12 !! "releases" = i21 !! "releases".
Proof.
  intros Hwf Hs S1 S2 Hv Hk.
  destruct q1 as [c1 v1 g1 b1 m1 s1], q2 as [c2 v2 g2 b2 m2 s2].
  simpl in S1, S2, Hv, Hk. unfold upsert_all, upsert. simpl.
  destruct (Hwf) as (items & Hrel & _).
  destruct (update_index_total c1 index v1 g1 b1 m1 s1 Hwf Hs S1)
    as (i1 & H1 & W1 & T1).
  destruct (update_index_total c2 i1 v2 g2 b2 m2 s2 W1 T1 S2) as (i12 & H12 & _).
  destruct (update_index_total c2 index v2 g2 b2 m2 s2 Hwf Hs S2)
    as (i2 & H2 & W2 & T2).
  destruct (update_index_total c1 i2 v1 g1 b1 m1 s1 W2 T2 S1) as (i21 & H21 & _).
  rewrite H1, H2. simpl. rewrite H12, H21. simpl.
  exists i12, i21. split_and!; try done.
  destruct (update_index_releases _ _ _ _ _ _ _ _ _ Hrel H1) as [_ R1].
  destruct (update_index_releases _ _ _ _ _ _ _ _ _ R1 H12) as [_ ->].
  destruct (update_index_releases _ _ _ _ _ _ _ _ _ Hrel H2) as [_ R2].
  destruct (update_index_releases _ _ _ _ _ _ _ _ _ R2 H21) as [_ ->].
  rewrite !sorted_releases_twice by done.
  rewrite (kept_releases_comm v1 v2). do 2 f_equal.
  apply sort_on_swap_tail.
  destruct (parse_version_tuple_short v1 S1) as [t1 P1].
  destruct (parse_version_tuple_short v2 S2) as [t2 P2].
  rewrite (key_of_version _ v1 t1), (key_of_version _ v2 t2);
    try done; try apply new_entry_fields.
  congruence.
Qed.

Lemma upsert_order_independent_witness :
  ∃ i12 i21,
    upsert_all two_release_index [q_rc; q_stable] = Ok i12
    ∧ upsert_all two_release_index [q_stable; q_rc] = Ok i21
    ∧ i12 !! "releases" = i21 !! "releases".
Proof.
  apply (upsert_order_independent two_release_index q_rc q_stable).
  - exact wf_two_release_index.
  - exact short_two_release_index.
  - vm_compute. discriminate.
  - vm_compute. discriminate.
  - vm_compute. discriminate.
  - vm_compute. discriminate.
Defined.

(** ** What makes the upsert raise *)

Lemma filter_r_raise (cond : option json → bool) (k : string) (items : list json) :
  Exists (λ r, is_dict r = false) items →
  filter_r (λ r, x ← py_get r k; mret (cond x)) items = Raise AttributeError.
Proof.
  induction items as [|r items IH]; intros H; [by apply Exists_nil in H|].
  cbn [filter_r]. destruct r; try done. simpl.
  apply Exists_cons in H as [H|H]; [done|]. by rewrite IH.
Qed.

Lemma release_key_raise r e :
  (∀ v, field "version" r = Some (JStr v) → short v) →
  release_key r = Raise e → e = AttributeError.
Proof.
  destruct r; try by intros _ [= <-].
  rewrite release_key_dict. simpl.
  destruct (m !! "version") as [[]|]; try by intros _ [= <-].
  intros Hs. by destruct (parse_version_tuple_short s (Hs s eq_refl)) as [t ->].
Qed.

Lemma map_r_raise {A B} (f : A → result B) (l : list A) e :
  map_r f l = Raise e → ∃ x, x ∈ l ∧ f x = Raise e.
Proof.
  induction l as [|x l IH]; simpl; [done|].
  destruct (f x) eqn:E; simpl.
  - destruct (map_r f l); simpl; [done|]. intros [= ->].
    destruct IH as (y & Hy & Hf); [done|]. exists y. split; [by right | done].
  - intros [= ->]. exists x. split; [by left | done].
Qed.

Lemma map_r_first_raise {A B} (f : A → result B) (l : list A) e :
  map_r f l = Raise e →
  ∃ l1 x l2, l = l1 ++ x :: l2 ∧ Forall (λ y, is_ok (f y) = true) l1
             ∧ f x = Raise e.
Proof.
  induction l as [|x l IH]; simpl; [done|].
  destruct (f x) eqn:E; simpl.
  - destruct (map_r f l); simpl; [done|]. intros [= ->].
    destruct IH as (l1 & y & l2 & -> & Hl1 & Hy); [done|].
    exists (x :: l1), y, l2. split_and!; [done | | done].
    constructor; [by rewrite E | done].
  - intros [= ->]. exists [], x, l. split_and!; [done | constructor | done].
Qed.

Lemma map_r_exists {A B} (f : A → result B) (l : list A) :
  Exists (λ x, is_ok (f x) = false) l → ∃ e, map_r f l = Raise e.
Proof.
  induction 1 as [x l Hx|x l _ [e IH]]; simpl.
  - destruct (f x); [done | eauto].
  - destruct (f x); simpl; [rewrite IH | ]; eauto.
Qed.

(** X5.  The upsert raises on an index it cannot read and on a version it
    cannot convert: [KeyError] without a [releases] field,
    [AttributeError] when a release is not an object, [AttributeError]
    when a release has a [version] that is not a string (the version
    strings of the others being short), and [ValueError] when the releases
    are well formed and short but the new version holds a number of more
    digits than [int] converts. *)
Theorem upsert_raises clk (index : dict) version git_tag build_count
    manifest_url s3_url :
  (index !! "releases" = None →
   update_index clk index version git_tag build_count manifest_url s3_url
   = Raise KeyError)
  ∧ (∀ items,
       index !! "releases" = Some (JArr items) →
       Exists (λ r, is_dict r = false) items →
       update_index clk index version git_tag build_count manifest_url s3_url
       = Raise AttributeError)
  ∧ (∀ items,
       index !! "releases" = Some (JArr items) →
       Forall (λ r, is_dict r = true) items → short_versions items →
       Exists (λ r, ∃ x, field "version" r = Some x ∧ ∀ s, x ≠ JStr s) items →
       update_index clk index version git_tag build_count manifest_url s3_url
       = Raise AttributeError)
  ∧ (∀ items,
       index !! "releases" = Some (JArr items) →
       Forall wf_release items → short_versions items →
       is_ok (parse_version_tuple version) = false →
       update_index clk index version git_tag build_count manifest_url s3_url
       = Raise ValueError).
Proof.
  split_and!.
  - intros H. unfold update_index, select_releases, getitem. by rewrite H.
  - intros items Hrel Hex. unfold update_index, select_releases, getitem.
    rewrite Hrel. simpl. by rewrite filter_r_raise.
  - intros items Hrel Hd Hshort Hex.
    rewrite (update_index_eq _ _ _ _ _ _ _ (JArr items) items) by done.
    assert (∃ e, map_r release_key (kept_releases version items ++
              [JObj (new_entry clk version git_tag build_count manifest_url s3_url)])
            = Raise e) as [e He].
    { apply map_r_exists, Exists_app. left.
      apply Exists_exists in Hex as (r & Hr & x & Hx & Hs).
      apply Exists_exists. exists r. split.
      - unfold kept_releases. apply list_elem_of_In, List.filter_In.
        split; [by apply list_elem_of_In|].
        unfold has_version. rewrite Hx. destruct x; try done. by destruct (Hs s).
      - rewrite Forall_forall in Hd. specialize (Hd r Hr).
        destruct r; try done. rewrite release_key_dict. simpl in Hx. rewrite Hx.
        destruct x; try done. by destruct (Hs s). }
    unfold sort_reverse. rewrite He. simpl.
    destruct (map_r_first_raise release_key _ _ He) as (l1 & r & l2 & Hl & Hok & Hr).
    destruct l2 as [|r' l2 _] using rev_ind.
    + apply app_inj_tail in Hl as [Hl _]. subst l1.
      apply Exists_exists in Hex as (r0 & Hr' & x & Hx & Hs).
      assert (r0 ∈ kept_releases version items) as Hin.
      { unfold kept_releases. apply list_elem_of_In, List.filter_In.
        split; [by apply list_elem_of_In|].
        unfold has_version. rewrite Hx. destruct x; try done. by destruct (Hs s). }
      rewrite Forall_forall in Hok, Hd. specialize (Hok r0 Hin).
      specialize (Hd r0 Hr').
      destruct r0; try done. rewrite release_key_dict in Hok. simpl in Hx.
      rewrite Hx in Hok. destruct x; try done. by destruct (Hs s).
    + rewrite app_comm_cons, app_assoc in Hl. apply app_inj_tail in Hl as [Hl _].
      assert (r ∈ items) as Hin.
      { assert (r ∈ kept_releases version items) as Hk
          by (rewrite Hl; apply elem_of_app; right; by left).
        unfold kept_releases in Hk.
        apply list_elem_of_In, List.filter_In in Hk as [Hk _].
        by apply list_elem_of_In. }
      unfold short_versions in Hshort. rewrite Forall_forall in Hshort.
      by rewrite (release_key_raise r e (Hshort r Hin) Hr).
  - intros items Hrel Hwf Hshort Hnew.
    rewrite (update_index_eq _ _ _ _ _ _ _ (JArr items) items);
      [|done|done|by eapply Forall_impl; [exact Hwf | apply wf_release_dict]].
    set (e := new_entry clk version git_tag build_count manifest_url s3_url).
    assert (∃ x, map_r release_key (kept_releases version items ++ [JObj e])
                 = Raise x) as [x He].
    { apply map_r_exists, Exists_app. right. apply Exists_cons_hd.
      unfold e. by rewrite new_entry_key. }
    unfold sort_reverse. rewrite He. simpl.
    apply map_r_raise in He as (r & Hr & Hx).
    apply elem_of_app in Hr as [Hr|Hr].
    + unfold kept_releases in Hr.
      apply list_elem_of_In, List.filter_In in Hr as [Hr _].
      apply list_elem_of_In in Hr.
      unfold short_versions in Hshort. rewrite Forall_forall in Hshort, Hwf.
      pose proof (wf_release_key r (Hwf r Hr) (Hshort r Hr)) as Hok.
      by rewrite Hx in Hok.
    + apply list_elem_of_singleton in Hr as ->. unfold e in Hx.
      rewrite new_entry_key in Hx. by rewrite (parse_version_tuple_raise _ _ Hx).
Qed.

Lemma upsert_raises_witness :
  update_index clock0 ∅ "v1.0.0" "v1.0.0" 1 "u" "" = Raise KeyError
  ∧ update_index clock0 (<["releases" := JArr [JStr "v1.0.0"]]> ∅)
      "v1.0.0" "v1.0.0" 1 "u" "" = Raise AttributeError
  ∧ update_index clock0
      (<["releases" := JArr [JObj (<["version" := JNum 1]> ∅)]]> ∅)
      "v1.0.0" "v1.0.0" 1 "u" "" = Raise AttributeError
  ∧ update_index clock0 two_release_index long_version "v9" 1 "u" ""
    = Raise ValueError.
Proof.
  split_and!.
  - apply (proj1 (upsert_raises clock0 ∅ "v1.0.0" "v1.0.0" 1 "u" "")). reflexivity.
  - apply (proj1 (proj2 (upsert_raises clock0 _ "v1.0.0" "v1.0.0" 1 "u" ""))
             [JStr "v1.0.0"]); [reflexivity|].
    apply Exists_cons_hd. reflexivity.
  - apply (proj1 (proj2 (proj2 (upsert_raises clock0 _ "v1.0.0" "v1.0.0" 1 "u" "")))
             [JObj (<["version" := JNum 1]> ∅)]); [reflexivity| | |].
    + repeat constructor.
    + repeat constructor. intros v Hv. vm_compute in Hv. discriminate Hv.
    + apply Exists_cons_hd. exists (JNum 1). split; [reflexivity | discriminate].
  - apply (proj2 (proj2 (proj2 (upsert_raises clock0 two_release_index long_version
             "v9" 1 "u" ""))) (releases_of two_release_index)).
    + reflexivity.
    + destruct wf_two_release_index as (l & Hl & Hwf).
      unfold releases_of. by rewrite Hl.
    + exact short_two_release_index.
    + vm_compute. reflexivity.
Defined.

(** ** Indexes the tool builds *)

Lemma labelled_wf r : labelled r → wf_release r.
Proof. intros (m & v & -> & Hv & _). by exists m, v. Qed.

Lemma labelled_new_entry clk version git_tag build_count manifest_url s3_url :
  labelled (JObj (new_entry clk version git_tag build_count manifest_url s3_url)).
Proof.
  eexists _, version. split; [done|].
  destruct (new_entry_fields clk version git_tag build_count manifest_url s3_url)
    as (? & ? & _). done.
Qed.

Lemma tool_index_wf (index : dict) : tool_index index → wf_index index.
Proof.
  intros (l & Hrel & Hl & _). exists l. split; [done|].
  eapply Forall_impl; [exact Hl | apply labelled_wf].
Qed.

Lemma tool_index_empty clk : tool_index (create_empty_index clk).
Proof.
  exists []. split_and!; [done | constructor |].
  intros ch Hch. unfold channels in Hch. rewrite !elem_of_cons, elem_of_nil in Hch.
  by destruct Hch as [->|[->|[->|[]]]].
Qed.

Lemma tool_index_upsert (index : dict) (q : request) idx' :
  tool_index index → upsert index q = Ok idx' → tool_index idx'.
Proof.
  intros Ht Hup. destruct q as [clk version git_tag build_count manifest_url s3_url].
  unfold upsert in Hup. simpl in Hup.
  destruct Ht as (l & Hrel & Hl & Hlatest).
  apply update_index_ok in Hup
    as (rel & items & Hrel' & Hit & _ & _ & _ & _ & ->).
  rewrite Hrel in Hrel'. injection Hrel' as <-. injection Hit as <-.
  set (e := new_entry clk version git_tag build_count manifest_url s3_url).
  set (sorted := sorted_releases l version e).
  assert (sorted ≡ₚ kept_releases version l ++ [JObj e]) as Hp
    by apply (sort_on_perm tuple_ltb).
  assert (Forall labelled sorted) as Hls.
  { rewrite Hp. apply Forall_app. split.
    - unfold kept_releases. rewrite Forall_forall in *. intros r Hr.
      apply list_elem_of_In, List.filter_In in Hr as [Hr _].
      by apply Hl, list_elem_of_In.
    - repeat constructor. apply labelled_new_entry. }
  exists sorted. split_and!; [apply upsert_result_releases | done |].
  intros ch Hch. rewrite latest_after_upsert by done. unfold latest_of.
  destruct (first_in ch sorted) as [r|] eqn:Hf; simpl.
  - apply first_in_some in Hf as [Hr _].
    rewrite Forall_forall in Hls. destruct (Hls r Hr) as (m & v & -> & Hv & _).
    simpl. by rewrite Hv.
  - rewrite (Hlatest ch Hch). unfold latest_of.
    assert (first_in ch l = None) as ->; [|done].
    apply first_in_none in Hf. apply first_in_none.
    rewrite Forall_forall in *. intros r Hr.
    destruct (has_version version r) eqn:Hv.
    + assert (in_channel ch (JObj e) = false) as He.
      { apply Hf. rewrite Hp. apply elem_of_app. right. by left. }
      destruct (Hl r Hr) as (m & v & -> & Hmv & Hmc).
      rewrite (has_version_dict m v) in Hv by done. apply String.eqb_eq in Hv as ->.
      rewrite (in_channel_dict m (determine_channel version)) by done.
      rewrite (in_channel_dict e (determine_channel version)) in He; [done|].
      apply new_entry_fields.
    + apply Hf. rewrite Hp. apply elem_of_app. left.
      unfold kept_releases. apply list_elem_of_In, List.filter_In.
      split; [by apply list_elem_of_In | by rewrite Hv].
Qed.

Lemma tool_index_upsert_all (index : dict) (qs : list request) idx :
  tool_index index → upsert_all index qs = Ok idx → tool_index idx.
Proof.
  revert index. induction qs as [|q qs IH]; intros index Ht; simpl.
  - by intros [= <-].
  - destruct (upsert index q) as [i1|] eqn:E; simpl; [|done].
    apply IH. by apply (tool_index_upsert index q).
Qed.

Lemma upsert_all_total (index : dict) (qs : list request) :
  wf_index index → short_versions (releases_of index) →
  Forall (λ q, short (req_version q)) qs →
  ∃ idx, upsert_all index qs = Ok idx.
Proof.
  intros Hwf Hs Hq. revert index Hwf Hs.
  induction Hq as [|q qs Hq _ IH]; intros index Hwf Hs; simpl; [eauto|].
  destruct (update_index_total (req_clock q) index (req_version q) (req_git_tag q)
              (req_build_count q) (req_manifest_url q) (req_s3_url q) Hwf Hs Hq)
    as (i1 & H1 & W1 & S1).
  unfold upsert. rewrite H1. simpl. by apply IH.
Qed.

(** X6.  An index is built by the tool when its releases are labelled with
    the channel of their version and its [latest_*] fields are exactly
    those of its releases; the empty index is one.  Every sequence of
    upserts that returns from such an index returns such an index: each
    [latest_<channel>] is the version of the first release of the channel,
    and is absent when the channel has no release, so no stale field can
    arise.  The sequence returns when the versions in the index and in the
    requests are short. *)
Theorem built_index_latest clk (index : dict) (qs : list request) :
  tool_index (create_empty_index clk)
  ∧ (tool_index index →
     ∀ idx, upsert_all index qs = Ok idx →
       tool_index idx
       ∧ ∃ l,
           idx !! "releases" = Some (JArr l)
           ∧ ∀ ch, ch ∈ channels →
               (Forall (λ r, in_channel ch r = false) l →
                idx !! ("latest_" +:+ ch) = None)
               ∧ (∀ r, first_in ch l = Some r →
                  ∃ v, field "version" r = Some (JStr v)
                       ∧ idx !! ("latest_" +:+ ch) = Some (JStr v)))
  ∧ (tool_index index → short_versions (releases_of index) →
     Forall (λ q, short (req_version q)) qs →
     is_ok (upsert_all index qs) = true).
Proof.
  split_and!; [apply tool_index_empty | |].
  - intros Ht idx Hup.
    pose proof (tool_index_upsert_all index qs idx Ht Hup) as Hti.
    split; [done|].
    destruct (Hti) as (l & Hrel & Hl & Hlatest).
    exists l. split; [done|].
    intros ch Hch. rewrite (Hlatest ch Hch). unfold latest_of. split.
    + intros Hnone%first_in_none. by rewrite Hnone.
    + intros r Hr. rewrite Hr. simpl.
      apply first_in_some in Hr as [Hr _]. rewrite Forall_forall in Hl.
      destruct (Hl r Hr) as (m & v & -> & Hv & _). exists v. simpl. by rewrite Hv.
  - intros Ht Hs Hq.
    by destruct (upsert_all_total index qs (tool_index_wf index Ht) Hs Hq)
      as [idx ->].
Qed.

Lemma short_requests : Forall (λ q, short (req_version q)) [q_rc; q_stable; q_rc].
Proof. repeat constructor; vm_compute; discriminate. Defined.

Lemma built_index_latest_witness :
  (tool_index (value_of ∅ (upsert_all (create_empty_index clock0)
                             [q_rc; q_stable; q_rc]))
   ∧ ∃ l,
       value_of ∅ (upsert_all (create_empty_index clock0) [q_rc; q_stable; q_rc])
         !! "releases" = Some (JArr l)
       ∧ ∀ ch, ch ∈ channels →
           (Forall (λ r, in_channel ch r = false) l →
            value_of ∅ (upsert_all (create_empty_index clock0)
                          [q_rc; q_stable; q_rc]) !! ("latest_" +:+ ch) = None)
           ∧ (∀ r, first_in ch l = Some r →
              ∃ v, field "version" r = Some (JStr v)
                   ∧ value_of ∅ (upsert_all (create_empty_index clock0)
                                   [q_rc; q_stable; q_rc])
                       !! ("latest_" +:+ ch) = Some (JStr v)))
  ∧ is_ok (upsert_all (create_empty_index clock0) [q_rc; q_stable; q_rc]) = true.
Proof.
  destruct (built_index_latest clock0 (create_empty_index clock0)
              [q_rc; q_stable; q_rc]) as (H0 & H1 & H2).
  split.
  - apply (H1 H0). apply (is_ok_value ∅). vm_compute. reflexivity.
  - apply (H2 H0); [|exact short_requests].
    unfold releases_of. simpl. constructor.
Defined.

(** ** The run of the index updater *)

Import UpdateFirmwareIndex.

Lemma py_value_some j : j ≠ JNull → py_value j = Some j.
Proof. by destruct j. Qed.

Lemma main_no_document clk existing_index fetch_url remote version
    git_tag build_count manifest_url s3_url :
  existing_index ∈ [None; Some NoFile; Some FileNotJson; Some (FileJson JNull)] →
  fetch_url = "" ∨ remote ∈ [UrlError; BodyNotJson; Body JNull] →
  main clk existing_index fetch_url remote version git_tag build_count
    manifest_url s3_url
  = update_index clk (create_empty_index clk) version git_tag build_count
      manifest_url s3_url.
Proof.
  intros He Hr. unfold main.
  assert (match existing_index with
          | Some f => load_existing_index f
          | None => None
          end = None) as ->.
  { rewrite !elem_of_cons, elem_of_nil in He.
    by destruct He as [->|[->|[->|[->|[]]]]]. }
  destruct Hr as [->|Hr]; [done|].
  rewrite !elem_of_cons, elem_of_nil in Hr.
  destruct Hr as [->|[->|[->|[]]]]; by destruct (nonempty fetch_url).
Qed.

(** X7.  Where the index comes from: a document loaded from
    [--existing-index] is used whatever the fetch would give; without one
    (no option, no file, a file that is not JSON, or the document [null])
    a document fetched from a non-empty [--fetch-url] is used; and when
    neither gives a document the run upserts into the empty index. *)
Theorem main_source_precedence clk existing_index fetch_url remote version
    git_tag build_count manifest_url s3_url :
  (∀ j, existing_index = Some (FileJson j) → j ≠ JNull →
     main clk existing_index fetch_url remote version git_tag build_count
       manifest_url s3_url
     = update_loaded clk j version git_tag build_count manifest_url s3_url)
  ∧ (∀ j, existing_index ∈ [None; Some NoFile; Some FileNotJson; Some (FileJson JNull)] →
       fetch_url ≠ "" → remote = Body j → j ≠ JNull →
       main clk existing_index fetch_url remote version git_tag build_count
         manifest_url s3_url
       = update_loaded clk j version git_tag build_count manifest_url s3_url)
  ∧ (existing_index ∈ [None; Some NoFile; Some FileNotJson; Some (FileJson JNull)] →
     fetch_url = "" ∨ remote ∈ [UrlError; BodyNotJson; Body JNull] →
     main clk existing_index fetch_url remote version git_tag build_count
       manifest_url s3_url
     = update_index clk (create_empty_index clk) version git_tag build_count
         manifest_url s3_url).
Proof.
  split_and!.
  - intros j -> Hj. unfold main. simpl. by rewrite (py_value_some j Hj).
  - intros j He Hu -> Hj. unfold main.
    assert (match existing_index with
            | Some f => load_existing_index f
            | None => None
            end = None) as ->.
    { rewrite !elem_of_cons, elem_of_nil in He.
      by destruct He as [->|[->|[->|[->|[]]]]]. }
    destruct fetch_url; [done|]. simpl. by rewrite (py_value_some j Hj).
  - apply main_no_document.
Qed.

Lemma main_source_precedence_witness :
  main clock0 (Some (FileJson (JObj two_release_index))) "https://x/index.json"
    (Body (JObj stale_index)) "v1.2.0" "v1.2.0" 150 "u" ""
  = update_loaded clock0 (JObj two_release_index) "v1.2.0" "v1.2.0" 150 "u" ""
  ∧ main clock0 (Some FileNotJson) "https://x/index.json"
      (Body (JObj stale_index)) "v1.2.0" "v1.2.0" 150 "u" ""
    = update_loaded clock0 (JObj stale_index) "v1.2.0" "v1.2.0" 150 "u" ""
  ∧ main clock0 (Some NoFile) "https://x/index.json" UrlError
      "v1.2.0" "v1.2.0" 150 "u" ""
    = update_index clock0 (create_empty_index clock0) "v1.2.0" "v1.2.0" 150 "u" "".
Proof.
  split_and!.
  - apply (proj1 (main_source_precedence clock0 _ _ _ _ _ _ _ _)
             (JObj two_release_index)); [reflexivity | discriminate].
  - apply (proj1 (proj2 (main_source_precedence clock0 _ _ _ _ _ _ _ _))
             (JObj stale_index));
      [set_solver | discriminate | reflexivity | discriminate].
  - apply (proj2 (proj2 (main_source_precedence clock0 _ _ _ _ _ _ _ _)));
      [set_solver | right; set_solver].
Defined.

(** X8.  Sources that give no document do not make the run fail: with a
    short version it then returns an index whose releases are the one new
    entry.  A document that is loaded is not checked: one that is not an
    object makes the run raise [TypeError], and an object without
    [releases] makes it raise [KeyError]. *)
Theorem main_missing_or_malformed clk existing_index fetch_url remote version
    git_tag build_count manifest_url s3_url :
  (existing_index ∈ [None; Some NoFile; Some FileNotJson; Some (FileJson JNull)] →
   fetch_url = "" ∨ remote ∈ [UrlError; BodyNotJson; Body JNull] →
   short version →
   ∃ idx,
     main clk existing_index fetch_url remote version git_tag build_count
       manifest_url s3_url = Ok idx
     ∧ idx !! "releases"
       = Some (JArr [JObj (new_entry clk version git_tag build_count
                             manifest_url s3_url)]))
  ∧ (∀ j, existing_index = Some (FileJson j) → j ≠ JNull → is_dict j = false →
       main clk existing_index fetch_url remote version git_tag build_count
         manifest_url s3_url = Raise TypeError)
  ∧ (∀ d : dict, existing_index = Some (FileJson (JObj d)) →
       d !! "releases" = None →
       main clk existing_index fetch_url remote version git_tag build_count
         manifest_url s3_url = Raise KeyError).
Proof.
  split_and!.
  - intros He Hr Hv.
    rewrite (main_no_document clk existing_index fetch_url remote version
               git_tag build_count manifest_url s3_url He Hr).
    assert (create_empty_index clk !! "releases" = Some (JArr [])) as Hrel
      by (unfold create_empty_index; by simplify_map_eq).
    destruct (update_index_total clk (create_empty_index clk) version git_tag
                build_count manifest_url s3_url) as (idx & Hup & _).
    { apply tool_index_wf, tool_index_empty. }
    { unfold releases_of. rewrite Hrel. constructor. }
    { done. }
    exists idx. split; [done|].
    by destruct (update_index_releases _ _ _ _ _ _ _ _ _ Hrel Hup) as [_ ->].
  - intros j -> Hj Hd. unfold main. simpl. rewrite (py_value_some j Hj).
    by destruct j.
  - intros d -> Hd. unfold main. simpl.
    unfold update_index, select_releases, getitem. by rewrite Hd.
Qed.

Lemma main_missing_or_malformed_witness :
  (∃ idx,
     main clock0 (Some FileNotJson) "https://x/index.json" BodyNotJson
       "v1.2.0" "v1.2.0" 150 "u" "" = Ok idx
     ∧ idx !! "releases"
       = Some (JArr [JObj (new_entry clock0 "v1.2.0" "v1.2.0" 150 "u" "")]))
  ∧ main clock0 (Some (FileJson (JArr []))) "" UrlError
      "v1.2.0" "v1.2.0" 150 "u" "" = Raise TypeError
  ∧ main clock0 (Some (FileJson (JObj ∅))) "" UrlError
      "v1.2.0" "v1.2.0" 150 "u" "" = Raise KeyError.
Proof.
  split_and!.
  - apply (proj1 (main_missing_or_malformed clock0 _ _ _ _ _ _ _ _));
      [set_solver | right; set_solver | vm_compute; discriminate].
  - apply (proj1 (proj2 (main_missing_or_malformed clock0 _ _ _ _ _ _ _ _))
             (JArr [])); [reflexivity | discriminate | reflexivity].
  - apply (proj2 (proj2 (main_missing_or_malformed clock0 _ _ _ _ _ _ _ _)) ∅);
      reflexivity.
Defined.

(** ** The parser on the version grammar *)

Lemma lstrip_repeat_v n d rest :
  digits d → lstrip "v" (repeat_char "v" n +:+ d +:+ rest) = d +:+ rest.
Proof.
  intros Hd. induction n as [|n IH]; str_simpl.
  - pose proof (digits_starts d rest Hd) as Hs.
    destruct (d +:+ rest) as [|c r]; [done|]. simpl in *.
    destruct (Ascii.eqb_spec c "v") as [->|]; [by vm_compute in Hs | done].
  - exact IH.
Qed.

Lemma lower_nonempty s : nonempty (lower s) = nonempty s.
Proof. by destruct s. Qed.

(** X9.  On the version grammar the parser is exact.  After any number of
    leading [v]s, [MAJOR.MINOR.PATCH] gives the three numbers with the tag
    [zzz] and the number 0; followed by [-TAG] and an optional number it
    gives the three numbers, the tag in lower case, and the number, or 0
    when there is none.  When one of the numbers has more digits than [int]
    converts, the parser raises [ValueError] instead. *)
Theorem parse_version_grammar n d1 d2 d3 :
  digits d1 → digits d2 → digits d3 →
  parse_version_tuple (repeat_char "v" n +:+ d1 +:+ "." +:+ d2 +:+ "." +:+ d3)
  = (if within_limit d1 && within_limit d2 && within_limit d3
     then Ok (digits_value 0 d1, digits_value 0 d2, digits_value 0 d3, "zzz", 0)
     else Raise ValueError)
  ∧ ∀ tag num, letters tag → num = "" ∨ digits num →
      parse_version_tuple
        (repeat_char "v" n +:+ d1 +:+ "." +:+ d2 +:+ "." +:+ d3
         +:+ "-" +:+ tag +:+ num)
      = if within_limit d1 && within_limit d2 && within_limit d3
           && within_limit num
        then Ok (digits_value 0 d1, digits_value 0 d2, digits_value 0 d3,
                 lower tag, digits_value 0 num)
        else Raise ValueError.
Proof.
  intros H1 H2 H3. split.
  - apply (parse_untagged _ d1 d2 d3 ""); try done.
    by rewrite lstrip_repeat_v, !str_app_nil_r.
  - intros tag num Ht Hn.
    apply (parse_tagged _ d1 d2 d3 tag num ""); try done.
    by rewrite lstrip_repeat_v, !str_app_nil_r.
Qed.

Lemma parse_version_grammar_witness :
  parse_version_tuple "vv01.15.0" = Ok (1, 15, 0, "zzz", 0)
  ∧ parse_version_tuple "v1.15.0-RC2" = Ok (1, 15, 0, "rc", 2)
  ∧ parse_version_tuple "1.15.0-beta" = Ok (1, 15, 0, "beta", 0).
Proof.
  split_and!.
  - apply (proj1 (parse_version_grammar 2 "01" "15" "0"
             (conj eq_refl eq_refl) (conj eq_refl eq_refl) (conj eq_refl eq_refl))).
  - apply (proj2 (parse_version_grammar 1 "1" "15" "0"
             (conj eq_refl eq_refl) (conj eq_refl eq_refl) (conj eq_refl eq_refl))
             "RC" "2"); [split; reflexivity | right; split; reflexivity].
  - apply (proj2 (parse_version_grammar 0 "1" "15" "0"
             (conj eq_refl eq_refl) (conj eq_refl eq_refl) (conj eq_refl eq_refl))
             "beta" ""); [split; reflexivity | left; reflexivity].
Defined.



(** ** What a build entry holds *)

Lemma extract_keys f metadata :
  extract_px4_metadata f = Some metadata →
  (∀ k, k ∈ metadata_keys → is_Some (metadata !! k))
  ∧ (∀ k, is_Some (metadata !! k) → k ∈ metadata_keys ∨ k = "manifest").
Proof.
  unfold extract_px4_metadata.
  destruct (file_json f) as [[| | | | |data]|]; try done.
  destruct (_ || _); [done|].
  set (md := <["filename" := _]> _).
  assert (∀ k, is_Some (md !! k) ↔ k ∈ metadata_keys) as Hmd.
  { intros k. unfold md, metadata_keys.
    rewrite !lookup_insert_is_Some', lookup_empty, !elem_of_cons, elem_of_nil.
    split; intros H.
    - repeat (destruct H as [<-|H]; [auto 20|]). by destruct H.
    - repeat (destruct H as [->|H]; [auto 20|]). done. }
  intros H.
  assert (metadata = md ∨ ∃ m, metadata = <["manifest" := m]> md) as [->|[m ->]].
  { destruct (data !! "manifest") as [m|]; [destruct (truthy m)|];
      injection H as <-; [right; by exists m | by left..]. }
  - split; intros k; rewrite Hmd; auto.
  - split; intros k.
    + intros Hk. rewrite lookup_insert_is_Some'. right. by apply Hmd.
    + rewrite lookup_insert_is_Some'. intros [<-|Hk]; [by right|].
      left. by apply Hmd.
Qed.

Lemma image_magic_not_keys :
  ("image" ∉ metadata_keys) ∧ ("magic" ∉ metadata_keys).
Proof.
  unfold metadata_keys. rewrite !not_elem_of_cons.
  split_and!; (done || apply not_elem_of_nil).
Qed.

Lemma entry_of_keys base_url f b :
  entry_of base_url f = Some b →
  (∀ k, k ∈ metadata_keys → is_Some (b !! k))
  ∧ (∀ k, is_Some (b !! k) → k ∈ metadata_keys ∨ k = "manifest" ∨ k = "url").
Proof.
  unfold entry_of. destruct (extract_px4_metadata f) as [md|] eqn:E; [|done].
  destruct (extract_keys f md E) as [H1 H2]. simpl.
  intros [= <-]. destruct (nonempty base_url).
  - split; intros k.
    + intros Hk. rewrite lookup_insert_is_Some'. right. by apply H1.
    + rewrite lookup_insert_is_Some'. intros [<-|Hk]; [by right; right|].
      destruct (H2 k Hk); auto.
  - split; [done|]. intros k Hk. destruct (H2 k Hk); auto.
Qed.

(** X11.  Every build of a generated manifest comes from one of the files,
    under that file's name, whatever the document calls itself; it has the
    ten metadata fields, and beside them at most [manifest] and [url]: the
    image and the magic string of the firmware are never copied. *)
Theorem manifest_builds_fields clk px4_files version git_tag base_url manifest :
  generate_release_manifest clk px4_files version git_tag base_url = Ok manifest →
  ∃ builds,
    manifest !! "builds" = Some (JArr (JObj <$> builds))
    ∧ Forall (λ b : dict,
        (∃ f, f ∈ px4_files ∧ b !! "filename" = Some (JStr (file_name f)))
        ∧ (∀ k, k ∈ metadata_keys → is_Some (b !! k))
        ∧ (∀ k, is_Some (b !! k) → k ∈ metadata_keys ∨ k = "manifest" ∨ k = "url")
        ∧ b !! "image" = None ∧ b !! "magic" = None) builds.
Proof.
  intros H. apply generate_release_manifest_ok in H as (builds & Hp & Hb & _).
  exists builds. split; [done|]. rewrite Hp. apply Forall_forall. intros b Hb'.
  unfold surviving in Hb'. apply list_elem_of_omap in Hb' as (f & Hf & He).
  destruct (entry_of_keys base_url f b He) as [K1 K2].
  destruct (entry_of_fields base_url f b He) as [Hfn _].
  split_and!; try done.
  - by exists f.
  - destruct (b !! "image") eqn:E; [|done].
    destruct (K2 "image") as [Hk|[Hk|Hk]]; [eauto | | done..].
    by destruct (proj1 image_magic_not_keys).
  - destruct (b !! "magic") eqn:E; [|done].
    destruct (K2 "magic") as [Hk|[Hk|Hk]]; [eauto | | done..].
    by destruct (proj2 image_magic_not_keys).
Qed.

Lemma manifest_builds_fields_witness :
  ∃ builds,
    value_of ∅ (generate_release_manifest clock0
      [firmware "a.px4" None; broken_file; firmware "b.px4" (Some (JStr "a_target"))]
      "v1.15.0" "v1.15.0" "https://host/fw") !! "builds"
    = Some (JArr (JObj <$> builds))
    ∧ Forall (λ b : dict,
        (∃ f, f ∈ [firmware "a.px4" None; broken_file;
                   firmware "b.px4" (Some (JStr "a_target"))]
              ∧ b !! "filename" = Some (JStr (file_name f)))
        ∧ (∀ k, k ∈ metadata_keys → is_Some (b !! k))
        ∧ (∀ k, is_Some (b !! k) → k ∈ metadata_keys ∨ k = "manifest" ∨ k = "url")
        ∧ b !! "image" = None ∧ b !! "magic" = None) builds.
Proof.
  apply (manifest_builds_fields clock0 _ "v1.15.0" "v1.15.0" "https://host/fw").
  apply (is_ok_value ∅). vm_compute. reflexivity.
Defined.

(** ** The order of the builds *)

Section SortAscSorted.
Context {K A : Type} (lt : K → K → result bool) (P : K → Prop) (ltb : K → K → bool).
Hypothesis lt_pure : ∀ a b, P a → P b → lt a b = Ok (ltb a b).
Hypothesis ltb_asym : ∀ a b, P a → P b → ltb a b = true → ltb b a = false.
Hypothesis ltb_negtrans :
  ∀ a b c, P a → P b → P c → ltb a b = false → ltb b c = false → ltb a c = false.

Lemma insert_asc_sorted (x : K * A) (l r : list (K * A)) :
  P x.1 → Forall (λ y, P y.1) l → ascending ltb l →
  insert_asc lt x l = Ok r → ascending ltb r.
Proof.
  intros Hx Hl Hs. revert r. unfold ascending in *.
  induction Hs as [|y l Hs IH Hy]; intros r; simpl.
  - intros [= <-]. repeat constructor.
  - apply Forall_cons in Hl as [Py Pl].
    rewrite (lt_pure y.1 x.1) by done. simpl.
    destruct (ltb y.1 x.1) eqn:E.
    + destruct (insert_asc lt x l) as [r'|] eqn:Hr; simpl; [|done].
      intros [= <-]. constructor; [by apply IH|].
      rewrite (insert_asc_perm lt x l r' Hr). constructor; [|done].
      by apply ltb_asym.
    + intros [= <-]. constructor; [by constructor|].
      constructor; [done|].
      rewrite Forall_forall in *. intros z Hz. specialize (Hy z Hz).
      apply (ltb_negtrans z.1 y.1 x.1); auto.
Qed.

Lemma sort_asc_sorted (l r : list (K * A)) :
  Forall (λ y, P y.1) l → sort_asc lt l = Ok r → ascending ltb r.
Proof.
  revert r. induction l as [|x l IH]; intros r Hl; simpl.
  - intros [= <-]. constructor.
  - apply Forall_cons in Hl as [Px Pl].
    destruct (sort_asc lt l) as [r'|] eqn:Hr; simpl; [|done].
    apply insert_asc_sorted; [done | | by apply IH].
    by rewrite (sort_asc_perm lt l r' Hr).
Qed.
End SortAscSorted.

Lemma py_lt_str a b : is_str a → is_str b → py_lt a b = Ok (str_key_ltb a b).
Proof. by intros [x ->] [y ->]. Qed.

Lemma str_key_ltb_asym a b :
  is_str a → is_str b → str_key_ltb a b = true → str_key_ltb b a = false.
Proof. intros [x ->] [y ->]. apply (cmp_ltb_asym String.compare). Qed.

Lemma str_key_ltb_negtrans a b c :
  is_str a → is_str b → is_str c →
  str_key_ltb a b = false → str_key_ltb b c = false → str_key_ltb a c = false.
Proof. intros [x ->] [y ->] [z ->]. apply (cmp_ltb_negtrans String.compare). Qed.

Lemma map_r_keys {A B} (f : A → result B) (l : list A) (r : list B) :
  map_r f l = Ok r → Forall2 (λ x y, f x = Ok y) l r.
Proof.
  revert r. induction l as [|x l IH]; intros r; simpl.
  - intros [= <-]. constructor.
  - destruct (f x) eqn:E; simpl; [|done].
    destruct (map_r f l) as [r'|]; simpl; [|done].
    intros [= <-]. constructor; [done | by apply IH].
Qed.

Lemma zip_keys {A B} (f : A → result B) (l : list A) (keys : list B) :
  Forall2 (λ x y, f x = Ok y) l keys →
  Forall (λ p, f p.2 = Ok p.1) (zip keys l).
Proof. induction 1; simpl; by constructor. Qed.

(** X12.  When the sort keys of the surviving entries are strings, the
    manifest is generated and its builds are in increasing order of key (the
    [target] of the board manifest, or else the file name): the key of a
    build is never above the key of a later build. *)
Theorem manifest_builds_sorted clk px4_files version git_tag base_url :
  Forall string_key (surviving base_url px4_files) →
  ∃ manifest builds,
    generate_release_manifest clk px4_files version git_tag base_url = Ok manifest
    ∧ manifest !! "builds" = Some (JArr (JObj <$> builds))
    ∧ StronglySorted
        (λ a b, ∃ ka kb, build_key a = Ok (JStr ka) ∧ build_key b = Ok (JStr kb)
                         ∧ String.ltb kb ka = false) builds.
Proof.
  intros Hk.
  destruct (generate_release_manifest_total clk px4_files version git_tag base_url Hk)
    as [manifest Hm].
  exists manifest. pose proof Hm as Hgen.
  unfold generate_release_manifest in Hm. rewrite collect_builds_eq in Hm.
  simpl in Hm. unfold sort_by in Hm.
  destruct (map_r build_key (surviving base_url px4_files)) as [keys|] eqn:Hkeys;
    simpl in Hm; [|done].
  destruct (sort_asc py_lt (zip keys (surviving base_url px4_files))) as [r|] eqn:Hr;
    simpl in Hm; [|done].
  injection Hm as <-. exists r.*2. split_and!; [done | by simplify_map_eq |].
  apply map_r_keys in Hkeys.
  pose proof (zip_keys _ _ _ Hkeys) as Hz.
  assert (Forall (λ p : json * dict, is_str p.1)
            (zip keys (surviving base_url px4_files))) as Hp.
  { rewrite Forall_forall in Hz. rewrite Forall_forall in Hk.
    apply Forall_forall. intros [k b] Hin.
    specialize (Hz _ Hin). simpl in *. destruct (Hk b) as [s Hs].
    - by apply elem_of_zip_r in Hin.
    - rewrite Hs in Hz. injection Hz as <-. by exists s. }
  pose proof (sort_asc_sorted py_lt is_str str_key_ltb py_lt_str str_key_ltb_asym
                str_key_ltb_negtrans _ _ Hp Hr) as Hs.
  rewrite <- (sort_asc_perm _ _ _ Hr) in Hz, Hp. clear Hr Hkeys Hgen.
  unfold ascending in Hs.
  induction Hs as [|p l Hs IH Hx]; csimpl; [constructor|].
  apply Forall_cons in Hz as [Hz1 Hz], Hp as [Hp1 Hp].
  constructor; [by apply IH|].
  rewrite Forall_fmap. rewrite Forall_forall in *. intros q Hq. simpl.
  destruct Hp1 as [ka Ha], (Hp q Hq) as [kb Hb].
  exists ka, kb. rewrite Hz1, (Hz q Hq), Ha, Hb. split_and!; try done.
  specialize (Hx q Hq). by rewrite Ha, Hb in Hx.
Qed.

Lemma manifest_builds_sorted_witness :
  ∃ manifest builds,
    generate_release_manifest clock0
      [firmware "a.px4" (Some (JStr "px4_fmu-v6x")); broken_file;
       firmware "b.px4" (Some (JStr "ark_fmu-v6x")); firmware "c.px4" None]
      "v1.15.0" "v1.15.0" "" = Ok manifest
    ∧ manifest !! "builds" = Some (JArr (JObj <$> builds))
    ∧ StronglySorted
        (λ a b, ∃ ka kb, build_key a = Ok (JStr ka) ∧ build_key b = Ok (JStr kb)
                         ∧ String.ltb kb ka = false) builds.
Proof.
  apply (manifest_builds_sorted clock0 _ "v1.15.0" "v1.15.0" "").
  repeat constructor; eexists; vm_compute; reflexivity.
Defined.

(** ** Sort keys of one kind *)

Lemma build_key_surviving base_url px4_files b :
  b ∈ surviving base_url px4_files →
  (∃ k, build_key b = Ok k) ∨ build_key b = Raise AttributeError.
Proof.
  intros Hb. unfold surviving in Hb. apply list_elem_of_omap in Hb as (f & _ & He).
  destruct (entry_of_fields base_url f b He) as [Hfn _].
  unfold build_key, getitem. rewrite Hfn.
  destruct (default (JObj ∅) (b !! "manifest")); simpl; eauto.
Qed.

Lemma entry_of_manifest base_url f (data : dict) m :
  file_json f = Some (JObj data) →
  is_Some (data !! "magic") → is_Some (data !! "board_id") →
  is_Some (data !! "image") →
  data !! "manifest" = Some m → truthy m = true →
  ∃ b, entry_of base_url f = Some b ∧ b !! "manifest" = Some m.
Proof.
  intros Hj [? H1] [? H2] [? H3] Hm Ht.
  unfold entry_of, extract_px4_metadata, has_key. rewrite Hj, H1, H2, H3, Hm, Ht.
  simpl. destruct (nonempty base_url); eexists; (split; [done|]); by simplify_map_eq.
Qed.

(** Two keys [<] compares without raising are of one kind. *)
Lemma py_lt_ok a b v :
  py_lt a b = Ok v →
  (is_str a ↔ is_str b) ∧ (is_Some (num_value a) ↔ is_Some (num_value b)).
Proof.
  destruct a, b; simpl; intros H; try discriminate H;
    split; split; intros [? E]; try discriminate E; by eexists.
Qed.

Lemma str_not_num k : is_str k → is_Some (num_value k) → False.
Proof. intros [s ->] [z Hz]. done. Qed.

Lemma sort_asc_homogeneous {A} (l r : list (json * A)) :
  sort_asc py_lt l = Ok r →
  ∀ p q, p ∈ l → q ∈ l →
    (is_str p.1 ↔ is_str q.1) ∧ (is_Some (num_value p.1) ↔ is_Some (num_value q.1)).
Proof.
  revert r. induction l as [|x l IH]; intros r; simpl.
  { intros _ p q Hp. by apply elem_of_nil in Hp. }
  destruct (sort_asc py_lt l) as [r'|] eqn:Hr; simpl; [|done].
  intros Hi. pose proof (sort_asc_perm _ _ _ Hr) as Hp.
  specialize (IH _ eq_refl).
  destruct r' as [|y r'].
  { apply Permutation_nil_l in Hp as <-. intros p q Hp Hq.
    apply list_elem_of_singleton in Hp as ->.
    by apply list_elem_of_singleton in Hq as ->. }
  simpl in Hi. destruct (py_lt y.1 x.1) as [v|] eqn:Hlt; [|done].
  assert (y ∈ l) as Hy by (rewrite <- Hp; by left).
  apply py_lt_ok in Hlt as [S1 S2].
  intros p q Hp' Hq'.
  apply elem_of_cons in Hp' as [->|Hp'], Hq' as [->|Hq']; [done| | |by apply IH].
  - destruct (IH y q Hy Hq') as [T1 T2]. split; [by rewrite <- S1 | by rewrite <- S2].
  - destruct (IH p y Hp' Hy) as [T1 T2]. split; [by rewrite T1 | by rewrite T2].
Qed.

(** ** The newest release of a channel *)

Lemma tuple_le_refl k : tuple_le k k.
Proof.
  unfold tuple_le. destruct (tuple_ltb k k) eqn:E; [|done].
  by rewrite (tuple_ltb_asym k k E) in E.
Qed.

Lemma head_filter_sorted {A} (R : A → A → Prop) (P : A → bool) (l : list A) top x :
  StronglySorted R l → head (List.filter P l) = Some top →
  x ∈ l → P x = true → x = top ∨ R top x.
Proof.
  induction 1 as [|y l Hl IH Hy]; simpl; [done|].
  intros Hh Hx Px. destruct (P y) eqn:E.
  - simpl in Hh. injection Hh as ->.
    apply elem_of_cons in Hx as [->|Hx]; [by left|].
    right. rewrite Forall_forall in Hy. by apply Hy.
  - apply elem_of_cons in Hx as [->|Hx]; [congruence|]. by apply IH.
Qed.

Lemma first_in_is_some ch l r :
  r ∈ l → in_channel ch r = true → is_Some (first_in ch l).
Proof.
  intros Hr Hc. destruct (first_in ch l) eqn:E; [done|].
  apply first_in_none in E. rewrite Forall_forall in E.
  specialize (E r Hr). congruence.
Qed.

(** X13.  After an upsert that returns, each of [latest_stable],
    [latest_beta] and [latest_dev] whose channel has a release names a
    release of that channel, and no release of the channel has a higher
    sort key than the one it names. *)
Theorem latest_is_highest clk (index : dict) version git_tag build_count
    manifest_url s3_url idx' ch r :
  update_index clk index version git_tag build_count manifest_url s3_url = Ok idx' →
  ch ∈ channels → r ∈ releases_of idx' → in_channel ch r = true →
  ∃ top v ktop kr,
    top ∈ releases_of idx' ∧ in_channel ch top = true
    ∧ field "version" top = Some v
    ∧ idx' !! ("latest_" +:+ ch) = Some v
    ∧ release_key top = Ok ktop ∧ release_key r = Ok kr
    ∧ tuple_le kr ktop.
Proof.
  intros H Hch. apply update_index_ok in H
    as (rel & items & _ & _ & _ & Hkeys & Hnew & Hlat & ->).
  unfold releases_of. rewrite upsert_result_releases.
  set (sorted := sorted_releases items version
         (new_entry clk version git_tag build_count manifest_url s3_url)) in *.
  intros Hr Hc.
  destruct (first_in_is_some ch sorted r Hr Hc) as [top Htop].
  rewrite Forall_forall in Hlat. specialize (Hlat ch Hch).
  unfold latest_ok in Hlat. rewrite Htop in Hlat. destruct Hlat as [v Hv].
  assert (Forall (λ r, release_key r = Ok (key_of r)) sorted) as Hk.
  { apply sorted_keys_ok, Forall_app. split; [done|]. repeat constructor.
    by rewrite new_entry_key. }
  rewrite Forall_forall in Hk.
  destruct (first_in_some ch sorted top Htop) as [Hin Hct].
  exists top, v, (key_of top), (key_of r). split_and!; try done.
  - by rewrite latest_after_upsert, Htop, Hv.
  - by apply Hk.
  - by apply Hk.
  - destruct (head_filter_sorted (λ a b, tuple_le (key_of b) (key_of a))
                (in_channel ch) sorted top r) as [->|Hle]; try done.
    + apply (sort_on_sorted key_of).
    + apply tuple_le_refl.
Qed.

Lemma latest_is_highest_witness :
  ∃ top v ktop kr,
    top ∈ releases_of (value_of ∅ (update_index clock0 two_release_index
                                     "v1.0.5" "v1.0.5" 3 "u" ""))
    ∧ in_channel "stable" top = true
    ∧ field "version" top = Some v
    ∧ value_of ∅ (update_index clock0 two_release_index "v1.0.5" "v1.0.5" 3 "u" "")
        !! "latest_stable" = Some v
    ∧ release_key top = Ok ktop
    ∧ release_key (JObj (new_entry clock0 "v1.0.5" "v1.0.5" 3 "u" "")) = Ok kr
    ∧ tuple_le kr ktop.
Proof.
  apply (latest_is_highest clock0 two_release_index "v1.0.5" "v1.0.5" 3 "u" ""
           _ "stable" (JObj (new_entry clock0 "v1.0.5" "v1.0.5" 3 "u" ""))).
  - apply (is_ok_value ∅). vm_compute. reflexivity.
  - set_solver.
  - apply (list_elem_of_lookup_2 _ 1%nat). reflexivity.
  - reflexivity.
Defined.

(** ** What makes the generator raise *)

(** A comparison of two keys raises nothing but [TypeError]. *)
Lemma py_lt_raise : ∀ a b e, py_lt a b = Raise e → e = TypeError.
Proof.
  fix IH 1. intros a b e.
  destruct a as [| | | |l|], b as [| | | |l'|]; simpl; try (by intros [= <-]).
  revert l'. induction l as [|x l IHl]; intros [|y l']; simpl; try done.
  destruct (py_eq x y); [apply IHl | apply IH].
Qed.

Lemma insert_asc_raise {A} (x : json * A) l e :
  insert_asc py_lt x l = Raise e → e = TypeError.
Proof.
  induction l as [|y l IH]; simpl; [done|].
  destruct (py_lt y.1 x.1) as [[]|e'] eqn:E; simpl.
  - destruct (insert_asc py_lt x l); simpl; [done|]. intros [= <-]. by apply IH.
  - done.
  - intros [= <-]. by apply py_lt_raise in E.
Qed.

Lemma sort_asc_raise {A} (l : list (json * A)) e :
  sort_asc py_lt l = Raise e → e = TypeError.
Proof.
  induction l as [|x l IH]; simpl; [done|].
  destruct (sort_asc py_lt l); simpl.
  - apply insert_asc_raise.
  - intros [= <-]. by apply IH.
Qed.

Lemma zip_keys_elem (bs : list dict) keys b :
  Forall2 (λ b k, build_key b = Ok k) bs keys → b ∈ bs →
  ∃ k, build_key b = Ok k ∧ (k, b) ∈ zip keys bs.
Proof.
  induction 1 as [|b' k bs ks Hb _ IH]; simpl; intros Hin.
  - by apply elem_of_nil in Hin.
  - apply elem_of_cons in Hin as [->|Hin].
    + exists k. split; [done | by left].
    + destruct (IH Hin) as (k' & Hk' & Hz). exists k'. split; [done | by right].
Qed.

(** X14.  The generator does not skip every bad file.  A file that passes
    extraction with a [manifest] that is true but not an object makes the
    whole generation raise [AttributeError]; and when the sort keys of all
    surviving files compute, one of them a string and another a number,
    the generation raises [TypeError]. *)
Theorem manifest_generation_fails clk px4_files version git_tag base_url :
  (∀ f (data : dict) m,
     f ∈ px4_files → file_json f = Some (JObj data) →
     is_Some (data !! "magic") → is_Some (data !! "board_id") →
     is_Some (data !! "image") →
     data !! "manifest" = Some m → truthy m = true → is_dict m = false →
     generate_release_manifest clk px4_files version git_tag base_url
     = Raise AttributeError)
  ∧ (∀ b1 b2,
       Forall (λ b, is_ok (build_key b) = true) (surviving base_url px4_files) →
       b1 ∈ surviving base_url px4_files → string_key b1 →
       b2 ∈ surviving base_url px4_files → number_key b2 →
       generate_release_manifest clk px4_files version git_tag base_url
       = Raise TypeError).
Proof.
  split.
  - intros f data m Hf Hj H1 H2 H3 Hm Ht Hd.
    destruct (entry_of_manifest base_url f data m Hj H1 H2 H3 Hm Ht) as (b & He & Hb).
    unfold generate_release_manifest. rewrite collect_builds_eq. simpl.
    unfold sort_by.
    assert (build_key b = Raise AttributeError) as Hk.
    { unfold build_key. rewrite Hb. simpl. by destruct m. }
    destruct (map_r_exists build_key (surviving base_url px4_files)) as [e He'].
    { apply Exists_exists. exists b. split; [|by rewrite Hk].
      unfold surviving. apply list_elem_of_omap. eauto. }
    rewrite He'. simpl.
    apply map_r_raise in He' as (b' & Hb' & Hk').
    destruct (build_key_surviving base_url px4_files b' Hb') as [[k Hok]|Hr];
      congruence.
  - intros b1 b2 Hall Hb1 [s Hs] Hb2 (k & z & Hk & Hz).
    unfold generate_release_manifest. rewrite collect_builds_eq. simpl.
    unfold sort_by.
    destruct (map_r_forall2 build_key (λ _, True) (surviving base_url px4_files))
      as (keys & Hkeys & _).
    { eapply Forall_impl; [exact Hall|]. intros b Hb. simpl in Hb.
      destruct (build_key b); [eauto | done]. }
    rewrite Hkeys. simpl.
    apply map_r_keys in Hkeys.
    destruct (sort_asc py_lt (zip keys (surviving base_url px4_files)))
      as [r|e] eqn:Hr; simpl; [|by rewrite (sort_asc_raise _ _ Hr)].
    exfalso.
    destruct (zip_keys_elem _ _ b1 Hkeys Hb1) as (k1 & Hk1 & Hz1).
    destruct (zip_keys_elem _ _ b2 Hkeys Hb2) as (k2 & Hk2 & Hz2).
    rewrite Hs in Hk1. injection Hk1 as <-. rewrite Hk in Hk2. injection Hk2 as <-.
    destruct (sort_asc_homogeneous _ _ Hr _ _ Hz1 Hz2) as [Hstr _]. simpl in Hstr.
    apply (str_not_num k); [apply Hstr; by exists s | by exists z].
Qed.

Lemma manifest_generation_fails_witness :
  generate_release_manifest clock0 [firmware "a.px4" None; odd_manifest_file]
    "v1.15.0" "v1.15.0" "" = Raise AttributeError
  ∧ generate_release_manifest clock0
      [firmware "a.px4" None; firmware "b.px4" (Some (JNum 7))]
      "v1.15.0" "v1.15.0" "" = Raise TypeError.
Proof.
  split.
  - apply (proj1 (manifest_generation_fails clock0
             [firmware "a.px4" None; odd_manifest_file] "v1.15.0" "v1.15.0" "")
             odd_manifest_file odd_manifest_data (JStr "fmu-v6x")).
    + apply (list_elem_of_lookup_2 _ 1%nat). reflexivity.
    + reflexivity.
    + apply (bool_decide_unpack _). vm_compute. exact I.
    + apply (bool_decide_unpack _). vm_compute. exact I.
    + apply (bool_decide_unpack _). vm_compute. exact I.
    + reflexivity.
    + reflexivity.
    + reflexivity.
  - apply (proj2 (manifest_generation_fails clock0
             [firmware "a.px4" None; firmware "b.px4" (Some (JNum 7))]
             "v1.15.0" "v1.15.0" "")
             (default ∅ (head (surviving ""
                [firmware "a.px4" None; firmware "b.px4" (Some (JNum 7))])))
             (default ∅ (last (surviving ""
                [firmware "a.px4" None; firmware "b.px4" (Some (JNum 7))])))).
    + apply Forall_forallb. vm_compute. reflexivity.
    + apply (list_elem_of_lookup_2 _ 0%nat). vm_compute. reflexivity.
    + exists "a.px4". vm_compute. reflexivity.
    + apply (list_elem_of_lookup_2 _ 1%nat). vm_compute. reflexivity.
    + exists (JNum 7), 7. split; vm_compute; reflexivity.
Defined.
